(** * wait-for-dev-env: the bounded-retry pollers of [src/action.js]

    A shallow embedding of the GitHub action's JavaScript: the retry budget
    calculator, the three pollers (deployment discovery, deployment status,
    URL reachability) and the orchestrator [run], together with the
    properties claimed about them.

    JavaScript numbers are IEEE 754 binary64 values.  They are modelled by
    the Standard Library's [spec_float] at precision 53 and maximal exponent
    1024, whose division rounds to nearest, ties to even, exactly as the
    language's [/] does. *)

From Stdlib Require Import ZArith QArith Qround Qpower List String Ascii Bool Lia.
From Stdlib Require Import Floats.SpecFloat.
Import ListNotations.
Close Scope Q_scope.

(** ** JavaScript numbers *)

Module Num.

Local Open Scope Z_scope.

Definition prec : Z := 53.
Definition emax : Z := 1024.

(** A JavaScript [Number]. *)
Definition number : Type := spec_float.

(** The operators [/] and [*]. *)
Definition div (x y : number) : number := SFdiv prec emax x y.
Definition mul (x y : number) : number := SFmul prec emax x y.

(** The number an integer literal denotes (exact below 2^53). *)
Definition of_Z (z : Z) : number := binary_normalize prec emax z 0 false.

(** What [Math.floor] can return: an integer (every binary64 value of
    exponent at least 0 is one, and the floor of any other has fewer than 53
    bits), an infinity, or NaN.  The sign of a zero is not kept: the program
    only compares the result with [<] and prints it. *)
Inductive integral : Type :=
| Int (z : Z)
| Infty (negative : bool)
| NotANumber.

(** [Math.floor]. *)
Definition floor (x : number) : integral :=
  match x with
  | S754_zero _ => Int 0
  | S754_infinity s => Infty s
  | S754_nan => NotANumber
  | S754_finite s m e =>
      match e with
      | Zneg p => Int (cond_Zopp s (Zpos m) / 2 ^ Zpos p)
      | _ => Int (cond_Zopp s (Zpos m) * 2 ^ e)
      end
  end.

(** The loop test [i < iterations] for a counter [i] that counts up from 0
    by [i++].  The counter is kept as a natural number, which is what the
    JavaScript counter is up to 2^53. *)
Definition lt_iterations (i : nat) (iterations : integral) : bool :=
  match iterations with
  | Int z => Z.of_nat i <? z
  | Infty negative => negb negative
  | NotANumber => false
  end.

(** The operator [<] on two numbers. *)
Definition ltb (x y : number) : bool := SFltb x y.

(** Truthiness of a number, as [||] tests it: 0, -0 and NaN are falsy. *)
Definition truthy (x : number) : bool :=
  match x with
  | S754_zero _ | S754_nan => false
  | _ => true
  end.

(** The exact rational a finite number stands for. *)
Definition to_Q (x : number) : option Q :=
  match x with
  | S754_zero _ => Some 0%Q
  | S754_finite s m e =>
      Some (inject_Z (cond_Zopp s (Zpos m)) * Qpower 2 e)%Q
  | _ => None
  end.

(** Positive and finite. *)
Definition positive_finite (x : number) : bool :=
  match x with
  | S754_finite false _ _ => true
  | _ => false
  end.

(** A number that is not negative and not NaN: a zero, a finite number or
    an infinity of positive sign. *)
Definition nonnegative (x : number) : bool :=
  match x with
  | S754_zero false | S754_infinity false | S754_finite false _ _ => true
  | _ => false
  end.

(** Finite and not negative: a zero or a positive finite number. *)
Definition nonnegative_finite (x : number) : bool :=
  match x with
  | S754_zero _ | S754_finite false _ _ => true
  | _ => false
  end.

End Num.

Import Num.

(** ** The retry budget calculator *)

(** [calculateIterations], line 7:
    [Math.floor(maxTimeoutSec / (checkIntervalInMilliseconds / 1000))]. *)
Definition calculateIterations (maxTimeoutSec checkIntervalInMilliseconds : number)
  : integral :=
  floor (div maxTimeoutSec (div checkIntervalInMilliseconds (of_Z 1000%Z))).


(** ** Data read from the collaborators *)

(** A deployment record of the source-control API; the program reads
    [deployment.id] and [deployment.creator.login].  The API's [creator]
    can be [null]: [None]. *)
Record creator_t : Type := { login : string }.
Record deployment : Type := { id : nat; creator : option creator_t }.

(** A deployment status; the program reads [status.state] and
    [status.environment_url] ([None]: the field is [undefined]). *)
Record deployment_status : Type :=
  { state : string; environment_url : option string }.

(** The reply of [pulls.get]: [currentPR.status] and
    [currentPR.data.head.sha]. *)
Record pull_response : Type := { status : nat; head_sha : string }.

(** Values a JavaScript [throw] can carry here.  [AxiosError] keeps what
    the handler of [waitForUrl] inspects: [e.response] (its status code
    when a response came back) and whether [e.request] is set. *)
Inductive error : Type :=
| StatusError (msg : string)
| TypeError (msg : string)
| AxiosError (response : option nat) (request : bool) (msg : string)
| Error (msg : string).

(** [e.message]. *)
Definition message (e : error) : string :=
  match e with
  | StatusError m | TypeError m | AxiosError _ _ m | Error m => m
  end.

(** A promise settles either way. *)
Inductive settled (A : Type) : Type :=
| Resolved (a : A)
| Rejected (e : error).
Arguments Resolved {A} a.
Arguments Rejected {A} e.

(** What the program prints.  A template literal is kept as its holes. *)
Inductive console_msg : Type :=
| Text (s : string)
| ErrorObject (e : error)
| GetStatusAttempt (code : nat) (i : nat) (iterations : integral)
| GetNoResponse (i : nat) (iterations : integral)
| StatusObject (s : option deployment_status)
| StatusRetry (attempt : nat) (iterations : integral)
| DeploymentObject (d : deployment)
| NoDeploymentRetry (actorName : string) (attempt : nat) (iterations : integral)
| FetchErrorRetry (attempt : nat) (iterations : integral)
| TargetUrl (u : string)
| TargetHost (h : string)
| WaitingFor (u : string).

(** What the program does to the outside, in order. *)
Inductive event : Type :=
| ConsoleLog (m : console_msg)
| ConsoleError (e : error)
| Wait (ms : number)
| ListDeployments (owner repo sha environment : string)
| ListDeploymentStatuses (owner repo : string) (deployment_id : nat)
| PullsGet (owner repo : string) (pull_number : nat)
| AxiosGet (uri : string)
| SetFailed (msg : string)
| SetOutput (name value : string).

Definition trace : Type := list event.

(** The collaborators: what each request of the program is answered with.
    A poller's request carries the index [i] of the iteration that makes
    it.  [URL_host s] is [new URL(s).host] and [URL_href path base] is
    [new URL(path, base).toString()], [None] when the constructor throws. *)
Record World : Type := {
  listDeployments :
    string -> string -> string -> string -> nat -> settled (list deployment);
  listDeploymentStatuses :
    string -> string -> nat -> nat -> settled (list deployment_status);
  pulls_get : string -> string -> nat -> settled pull_response;
  axios_get : string -> nat -> settled unit;
  URL_host : string -> option string;
  URL_href : string -> string -> option string
}.

(** ** Effects: a trace, and a completion *)

(** How a piece of program ends: it returns, it throws, or it is still
    running when the steps granted to the model are used up. *)
Inductive completion (A : Type) : Type :=
| Returned (a : A)
| Thrown (e : error)
| Running.
Arguments Returned {A} a.
Arguments Thrown {A} e.
Arguments Running {A}.

Definition Eff (A : Type) : Type := (trace * completion A)%type.

Definition ret {A} (a : A) : Eff A := ([], Returned a).
Definition throw {A} (e : error) : Eff A := ([], Thrown e).
Definition emit (ev : event) : Eff unit := ([ev], Returned tt).

Definition bind {A B} (m : Eff A) (k : A -> Eff B) : Eff B :=
  match m with
  | (t, Returned a) => let (t', c) := k a in (t ++ t', c)
  | (t, Thrown e) => (t, Thrown e)
  | (t, Running) => (t, Running)
  end.

(** [try { m } catch (e) { h e }]. *)
Definition try_catch {A} (m : Eff A) (h : error -> Eff A) : Eff A :=
  match m with
  | (t, Thrown e) => let (t', c) := h e in (t ++ t', c)
  | _ => m
  end.

Declare Scope eff_scope.
Delimit Scope eff_scope with eff.
Notation "x <- m ;; k" := (bind m (fun x => k))
  (at level 61, m at next level, right associativity) : eff_scope.
Notation "m ;; k" := (bind m (fun _ => k))
  (at level 61, right associativity) : eff_scope.
Local Open Scope eff_scope.

(** [await p] on a settled promise. *)
Definition await {A} (p : settled A) : Eff A :=
  match p with
  | Resolved a => ret a
  | Rejected e => throw e
  end.

Definition console_log (m : console_msg) : Eff unit := emit (ConsoleLog m).
Definition console_error (e : error) : Eff unit := emit (ConsoleError e).
Definition setFailed (msg : string) : Eff unit := emit (SetFailed msg).
Definition setOutput (name value : string) : Eff unit :=
  emit (SetOutput name value).

(** [wait], line 10: the fixed-interval sleep. *)
Definition wait (ms : number) : Eff unit := emit (Wait ms).

(** [for (let i = i0; i < iterations; i++) { body }], where the body either
    returns a value from the enclosing function ([Some v]) or falls through
    to the next iteration ([None]).  [fuel] bounds the iterations the model
    follows; the loop itself has no such bound. *)
Fixpoint for_loop {R} (fuel : nat) (iterations : integral)
    (body : nat -> Eff (option R)) (i : nat) : Eff (option R) :=
  match fuel with
  | O => ([], Running)
  | S fuel' =>
      if lt_iterations i iterations then
        r <- body i ;;
        match r with
        | Some v => ret (Some v)
        | None => for_loop fuel' iterations body (S i)
        end
      else ret None
  end.

(** ** The pollers *)

Section Pollers.

Variable w : World.

(** *** URL reachability, lines 12-54 *)

(** The handler of lines 34-50. *)
Definition waitForUrl_catch (checkIntervalInMilliseconds : number)
    (iterations : integral) (i : nat) (e : error) : Eff (option unit) :=
  match e with
  | AxiosError (Some code) _ _ =>
      console_log (GetStatusAttempt code i iterations)
  | AxiosError None true msg =>
      console_log (GetNoResponse i iterations) ;;
      console_log (Text msg)
  | _ => console_log (ErrorObject e)
  end ;;
  wait checkIntervalInMilliseconds ;;
  ret None.

(** One iteration of the loop of line 23. *)
Definition waitForUrl_attempt (url path : string)
    (checkIntervalInMilliseconds : number) (iterations : integral) (i : nat)
  : Eff (option unit) :=
  try_catch
    (checkUri <- match URL_href w path url with
                 | Some href => ret href
                 | None => throw (TypeError "Invalid URL")
                 end ;;
     emit (AxiosGet checkUri) ;;
     await (axios_get w checkUri i) ;;
     console_log (Text "Received success status code") ;;
     ret (Some tt))
    (waitForUrl_catch checkIntervalInMilliseconds iterations i).

Definition waitForUrl (fuel : nat) (url : string) (maxTimeout : number)
    (checkIntervalInMilliseconds : number) (path : string) : Eff unit :=
  let iterations := calculateIterations maxTimeout checkIntervalInMilliseconds in
  r <- for_loop fuel iterations
         (waitForUrl_attempt url path checkIntervalInMilliseconds iterations) 0 ;;
  match r with
  | Some _ => ret tt
  | None => setFailed ("Timeout reached: Unable to connect to " ++ url)
  end.

(** *** Deployment status, lines 56-120 *)

Definition dquote : string := String (ascii_of_nat 34) EmptyString.

Definition no_success_prefix : string :=
  "No status with state " ++ dquote ++ "success" ++ dquote.

(** [haystack.includes(needle)]. *)
Fixpoint includes (needle haystack : string) : bool :=
  prefix needle haystack ||
  match haystack with
  | EmptyString => false
  | String _ rest => includes needle rest
  end.

(** The handler of lines 99-115. *)
Definition waitForStatus_catch (checkIntervalInMilliseconds : number)
    (iterations : integral) (i : nat) (e : error)
  : Eff (option deployment_status) :=
  console_log (StatusRetry (i + 1) iterations) ;;
  match e with
  | StatusError msg =>
      if includes no_success_prefix msg then ret tt
      else console_log (Text msg)
  | _ => console_log (ErrorObject e)
  end ;;
  wait checkIntervalInMilliseconds ;;
  ret None.

(** Lines 79-98: what one reply of the API is classified as. *)
Definition waitForStatus_classify (allowInactive : bool)
    (data : list deployment_status) : Eff (option deployment_status) :=
  let status := match data with [] => None | s :: _ => Some s end in
  console_log (StatusObject status) ;;
  match status with
  | None => throw (StatusError "No status was available")
  | Some status =>
      if allowInactive && (state status =? "inactive")%string then
        ret (Some status)
      else if negb (state status =? "success")%string then
        throw (StatusError (no_success_prefix ++ " was available"))
      else if (state status =? "success")%string then
        ret (Some status)
      else throw (StatusError "Unknown status error")
  end.

(** One iteration of the loop of line 71. *)
Definition waitForStatus_attempt (owner repo : string) (deployment_id : nat)
    (allowInactive : bool) (checkIntervalInMilliseconds : number)
    (iterations : integral) (i : nat) : Eff (option deployment_status) :=
  try_catch
    (emit (ListDeploymentStatuses owner repo deployment_id) ;;
     data <- await (listDeploymentStatuses w owner repo deployment_id i) ;;
     waitForStatus_classify allowInactive data)
    (waitForStatus_catch checkIntervalInMilliseconds iterations i).

(** [undefined] stands for the value the function returns after
    [core.setFailed], where it has no [return].  The [token] of line 57
    only builds the API client of line 65, whose requests are the
    [listDeploymentStatuses] of the world. *)
Definition waitForStatus (fuel : nat) (owner repo : string)
    (deployment_id : nat) (maxTimeout : number) (allowInactive : bool)
    (checkIntervalInMilliseconds : number) : Eff (option deployment_status) :=
  let iterations := calculateIterations maxTimeout checkIntervalInMilliseconds in
  r <- for_loop fuel iterations
         (waitForStatus_attempt owner repo deployment_id allowInactive
            checkIntervalInMilliseconds iterations) 0 ;;
  match r with
  | Some status => ret (Some status)
  | None =>
      setFailed "Timeout reached: Unable to wait for an deployment to be successful" ;;
      ret None
  end.

(** *** Deployment discovery, lines 137-191 *)

(** [array.find(test)]: the first entry the test holds of, [undefined]
    ([None]) when there is none; what the test throws, [find] throws. *)
Fixpoint array_find {A} (test : A -> Eff bool) (array : list A) : Eff (option A) :=
  match array with
  | [] => ret None
  | x :: rest =>
      holds <- test x ;;
      if holds then ret (Some x) else array_find test rest
  end.

(** Line 164, the test of one entry: [deployment.creator.login ===
    actorName].  Reading [login] of a [null] creator throws. *)
Definition by_actor (actorName : string) (deployment : deployment) : Eff bool :=
  match creator deployment with
  | Some creator => ret (login creator =? actorName)%string
  | None => throw (TypeError "Cannot read properties of null (reading 'login')")
  end.

(** Lines 161-165: [data.length > 0 && data.find(...)], as the deployment
    found, if any. *)
Definition find_deployment (actorName : string) (data : list deployment)
  : Eff (option deployment) :=
  if (0 <? List.length data)%nat then array_find (by_actor actorName) data
  else ret None.

(** One iteration of the loop of line 152, the sleep of line 187 included. *)
Definition waitForDeploymentToStart_attempt (owner repo sha environment : string)
    (actorName : string) (checkIntervalInMilliseconds : number)
    (iterations : integral) (i : nat) : Eff (option deployment) :=
  r <- try_catch
         (emit (ListDeployments owner repo sha environment) ;;
          data <- await (listDeployments w owner repo sha environment i) ;;
          deployment <- find_deployment actorName data ;;
          match deployment with
          | Some deployment =>
              console_log (DeploymentObject deployment) ;;
              ret (Some deployment)
          | None =>
              console_log (NoDeploymentRetry actorName (i + 1) iterations) ;;
              ret None
          end)
         (fun e =>
            console_log (FetchErrorRetry (i + 1) iterations) ;;
            console_error e ;;
            ret None) ;;
  match r with
  | Some deployment => ret (Some deployment)
  | None => wait checkIntervalInMilliseconds ;; ret None
  end.

(** The two optional parameters default to 20 and 2000 (lines 144-145);
    [None] is the returned [null]. *)
Definition waitForDeploymentToStart (fuel : nat) (owner repo sha environment : string)
    (actorName : string) (maxTimeout checkIntervalInMilliseconds : option number)
  : Eff (option deployment) :=
  let maxTimeout :=
    match maxTimeout with Some x => x | None => of_Z 20%Z end in
  let checkIntervalInMilliseconds :=
    match checkIntervalInMilliseconds with Some x => x | None => of_Z 2000%Z end in
  let iterations := calculateIterations maxTimeout checkIntervalInMilliseconds in
  for_loop fuel iterations
    (waitForDeploymentToStart_attempt owner repo sha environment actorName
       checkIntervalInMilliseconds iterations) 0.

End Pollers.

(** ** The orchestrator *)

(** The action's inputs as the workflow gives them, empty when not given;
    for [max_timeout] and [check_interval], the number [Number(...)] makes
    of the string, which takes no notice of the white space around it. *)
Record Inputs : Type := {
  token : string;
  environment : string;
  actor_name : string;
  max_timeout : number;
  allow_inactive : string;
  path : string;
  check_interval : number
}.

(** What the program reads of [github.context]: [repo.owner], [repo.repo],
    [payload.pull_request] ([None] when absent) with its [number] ([None]
    when [undefined]), and [sha] (empty when absent). *)
Record Context : Type := {
  owner : string;
  repo : string;
  pull_request : option (option nat);
  sha : string
}.

(** [Boolean(s)] and the truthiness of a string: only the empty one is
    falsy. *)
Definition Boolean (s : string) : bool :=
  match s with
  | EmptyString => false
  | String _ _ => true
  end.

(** [x || y] on numbers and on strings. *)
Definition number_or (x y : number) : number := if truthy x then x else y.
Definition string_or (x y : string) : string := if Boolean x then x else y.

(** The white space and line terminators that [String.prototype.trim]
    strips, among the characters of the model, which stand for the code
    units below 256: tab, line feed, vertical tab, form feed, carriage
    return, space and no-break space. *)
Definition is_white_space (c : ascii) : bool :=
  match N_of_ascii c with
  | 9 | 10 | 11 | 12 | 13 | 32 | 160 => true
  | _ => false
  end%N.

Fixpoint trimStart (s : string) : string :=
  match s with
  | EmptyString => EmptyString
  | String c rest => if is_white_space c then trimStart rest else s
  end.

Fixpoint trimEnd (s : string) : string :=
  match s with
  | EmptyString => EmptyString
  | String c rest =>
      match trimEnd rest with
      | EmptyString =>
          if is_white_space c then EmptyString else String c EmptyString
      | kept => String c kept
      end
  end.

(** [s.trim()]. *)
Definition trim (s : string) : string := trimEnd (trimStart s).

(** [core.getInput(name)] on the value the workflow gives the input: the
    value is handed over trimmed. *)
Definition getInput (value : string) : string := trim value.

(** [core.getInput(name, { required: true })]: an empty value throws; the
    test is made before the value is trimmed. *)
Definition getInput_required (name value : string) : Eff string :=
  if Boolean value then ret (trim value)
  else throw (Error ("Input required and not supplied: " ++ name)).

(** [github.getOctokit(token)] throws without a token. *)
Definition getOctokit (token : string) : Eff unit :=
  if Boolean token then ret tt
  else throw (Error "Parameter token or opts.auth is required").

(** Lines 222-224. *)
Definition GITHUB_TOKEN (inp : Inputs) : string := getInput (token inp).
Definition ENVIRONMENT (inp : Inputs) : string := getInput (environment inp).
Definition ACTOR_NAME (inp : Inputs) : string := getInput (actor_name inp).

(** Line 226: [Boolean(core.getInput('allow_inactive')) || false]. *)
Definition ALLOW_INACTIVE (inp : Inputs) : bool :=
  Boolean (getInput (allow_inactive inp)) || false.

(** Line 225. *)
Definition MAX_TIMEOUT (inp : Inputs) : number :=
  number_or (max_timeout inp) (of_Z 60%Z).

(** Lines 228-229. *)
Definition CHECK_INTERVAL_IN_MS (inp : Inputs) : number :=
  mul (number_or (check_interval inp) (of_Z 2%Z)) (of_Z 1000%Z).

(** Line 227. *)
Definition PATH (inp : Inputs) : string := string_or (getInput (path inp)) "/".

(** How an optional string reads where a string is expected. *)
Definition js_string (o : option string) : string :=
  match o with
  | Some s => s
  | None => "undefined"
  end.

Definition falsy (o : option string) : bool :=
  match o with
  | Some s => negb (Boolean s)
  | None => true
  end.

Section Orchestrator.

Variable w : World.

Local Open Scope eff_scope.

(** [getShaForPullRequest], lines 193-217; [None] is [undefined]. *)
Definition getShaForPullRequest (ctx : Context) (owner repo : string)
  : Eff (option string) :=
  PR_NUMBER <- match pull_request ctx with
               | Some number => ret number
               | None =>
                   throw (TypeError
                     "Cannot read properties of undefined (reading 'number')")
               end ;;
  match PR_NUMBER with
  | None | Some O =>
      setFailed "No pull request number was found" ;;
      ret None
  | Some PR_NUMBER =>
      emit (PullsGet owner repo PR_NUMBER) ;;
      currentPR <- await (pulls_get w owner repo PR_NUMBER) ;;
      if negb (status currentPR =? 200)%nat then
        setFailed "Could not get information about the current pull request" ;;
        ret None
      else ret (Some (head_sha currentPR))
  end.

(** Lines 290-314, entered with the status the poller returned. *)
Definition run_with_status (fuel : nat) (inp : Inputs)
    (status : option deployment_status) : Eff unit :=
  targetUrl <- match status with
               | Some status => ret (environment_url status)
               | None =>
                   throw (TypeError
                     "Cannot read properties of undefined (reading 'environment_url')")
               end ;;
  targetHost <- match URL_host w (js_string targetUrl) with
                | Some host => ret host
                | None => throw (TypeError "Invalid URL")
                end ;;
  if falsy targetUrl then
    setFailed "no target_url found in the status check"
  else
    console_log (TargetUrl (js_string targetUrl)) ;;
    console_log (TargetHost targetHost) ;;
    setOutput "url" (js_string targetUrl) ;;
    setOutput "host" targetHost ;;
    console_log (WaitingFor (js_string targetUrl)) ;;
    waitForUrl w fuel (js_string targetUrl) (MAX_TIMEOUT inp)
      (CHECK_INTERVAL_IN_MS inp) (PATH inp).

(** Lines 263-288, entered with the commit. *)
Definition run_with_sha (fuel : nat) (inp : Inputs) (ctx : Context)
    (GITHUB_TOKEN sha : string) : Eff unit :=
  deployment <- waitForDeploymentToStart w fuel (owner ctx) (repo ctx) sha
                  (ENVIRONMENT inp) (ACTOR_NAME inp)
                  (Some (MAX_TIMEOUT inp)) (Some (CHECK_INTERVAL_IN_MS inp)) ;;
  match deployment with
  | None => setFailed "no deployment found, exiting..."
  | Some deployment =>
      status <- waitForStatus w fuel (owner ctx) (repo ctx) (id deployment)
                  (MAX_TIMEOUT inp) (ALLOW_INACTIVE inp)
                  (CHECK_INTERVAL_IN_MS inp) ;;
      run_with_status fuel inp status
  end.

(** Lines 245-256: the commit, from the pull request or from the push;
    [None] leaves [sha] undefined. *)
Definition resolve_sha (ctx : Context) : Eff (option string) :=
  match pull_request ctx with
  | Some _ => getShaForPullRequest ctx (owner ctx) (repo ctx)
  | None => if Boolean (sha ctx) then ret (Some (sha ctx)) else ret None
  end.

(** [run], lines 219-318. *)
Definition run (fuel : nat) (inp : Inputs) (ctx : Context) : Eff unit :=
  try_catch
    (GITHUB_TOKEN <- getInput_required "token" (token inp) ;;
     (if Boolean GITHUB_TOKEN then ret tt
      else setFailed "Required field `token` was not provided") ;;
     getOctokit GITHUB_TOKEN ;;
     sha <- resolve_sha ctx ;;
     if falsy sha then setFailed "Unable to determine SHA. Exiting..."
     else run_with_sha fuel inp ctx GITHUB_TOKEN (js_string sha))
    (fun error => setFailed (message error)).

End Orchestrator.

(** * The vocabulary of the properties *)

(** The messages given to [core.setFailed], and the outputs set, in order. *)
Definition failures (t : trace) : list string :=
  flat_map (fun ev => match ev with SetFailed msg => [msg] | _ => [] end) t.

Definition outputs (t : trace) : list (string * string) :=
  flat_map (fun ev => match ev with SetOutput n v => [(n, v)] | _ => [] end) t.

(** The requests a trace makes of the API and of the target. *)
Definition is_call (ev : event) : bool :=
  match ev with
  | ListDeployments _ _ _ _ | ListDeploymentStatuses _ _ _
  | PullsGet _ _ _ | AxiosGet _ => true
  | _ => false
  end.

Definition calls (t : trace) : trace := filter is_call t.

(** How many iterations a loop bounded by [iterations] can make: [None]
    when the bound is [Infinity]. *)
Definition budget (iterations : integral) : option nat :=
  match iterations with
  | Int z => Some (Z.to_nat z)
  | Infty true | NotANumber => Some 0
  | Infty false => None
  end.

(** The trace of the iterations [i], ..., [i + n - 1] of a loop. *)
Definition retries {R} (body : nat -> Eff (option R)) (i n : nat) : trace :=
  flat_map (fun j => fst (body j)) (seq i n).

Definition is_log (ev : event) : Prop :=
  match ev with
  | ConsoleLog _ | ConsoleError _ => True
  | _ => False
  end.

(** What the handler of [waitForUrl] prints for an error. *)
Definition waitForUrl_logs (iterations : integral) (i : nat) (e : error)
  : trace :=
  match e with
  | AxiosError (Some code) _ _ => [ConsoleLog (GetStatusAttempt code i iterations)]
  | AxiosError None true msg =>
      [ConsoleLog (GetNoResponse i iterations); ConsoleLog (Text msg)]
  | _ => [ConsoleLog (ErrorObject e)]
  end.

(** What the handler of [waitForStatus] prints for an error. *)
Definition waitForStatus_logs (iterations : integral) (i : nat) (e : error)
  : trace :=
  ConsoleLog (StatusRetry (i + 1) iterations) ::
  match e with
  | StatusError msg =>
      if includes no_success_prefix msg then [] else [ConsoleLog (Text msg)]
  | _ => [ConsoleLog (ErrorObject e)]
  end.

(** Whether a deployment has a creator, and that creator is the actor. *)
Definition created_by (actorName : string) (d : deployment) : bool :=
  match creator d with
  | Some c => (login c =? actorName)%string
  | None => false
  end.

(** Whether the status poller returns a status. *)
Definition accepted (allowInactive : bool) (s : deployment_status) : bool :=
  (allowInactive && (state s =? "inactive")%string) || (state s =? "success")%string.

(** The stage whose code, and no earlier stage's, makes an event: 1 for
    discovery, 2 for the status poller, 3 for what follows a status (the
    outputs and the reachability poller), 0 for events several stages make. *)
Definition level (ev : event) : nat :=
  match ev with
  | ListDeployments _ _ _ _
  | ConsoleLog (DeploymentObject _)
  | ConsoleLog (NoDeploymentRetry _ _ _)
  | ConsoleLog (FetchErrorRetry _ _) => 1
  | ListDeploymentStatuses _ _ _
  | ConsoleLog (StatusObject _)
  | ConsoleLog (StatusRetry _ _) => 2
  | AxiosGet _
  | SetOutput _ _
  | ConsoleLog (TargetUrl _)
  | ConsoleLog (TargetHost _)
  | ConsoleLog (WaitingFor _)
  | ConsoleLog (GetStatusAttempt _ _ _)
  | ConsoleLog (GetNoResponse _ _) => 3
  | _ => 0
  end.

(** An event that neither reports a failure nor sets an output. *)
Definition quiet (ev : event) : Prop :=
  match ev with
  | SetFailed _ | SetOutput _ _ => False
  | _ => True
  end.

(** The count the claim names, [floor(maxTimeoutSeconds*1000/intervalMilliseconds)],
    taken in exact arithmetic on the values of the two numbers. *)
Definition claimed_iterations (maxTimeoutSec intervalMilliseconds : number)
  : option Z :=
  match to_Q maxTimeoutSec, to_Q intervalMilliseconds with
  | Some m, Some i => Some (Qfloor (m * 1000 / i))
  | _, _ => None
  end.

(** The hypothesis of the claim, [maxTimeoutSeconds*1000 < intervalMilliseconds],
    in exact arithmetic on the values of the two numbers. *)
Definition times_1000_below (maxTimeoutSec intervalMilliseconds : number) : Prop :=
  match to_Q maxTimeoutSec, to_Q intervalMilliseconds with
  | Some m, Some i => (m * 1000 < i)%Q
  | _, _ => False
  end.

(** The discovery call and the status call that [run] makes (lines 264-273
    and 280-288). *)
Definition run_discover (w : World) (fuel : nat) (inp : Inputs) (ctx : Context)
    (sha : string) : Eff (option deployment) :=
  waitForDeploymentToStart w fuel (owner ctx) (repo ctx) sha (ENVIRONMENT inp)
    (ACTOR_NAME inp) (Some (MAX_TIMEOUT inp)) (Some (CHECK_INTERVAL_IN_MS inp)).

Definition run_poll (w : World) (fuel : nat) (inp : Inputs) (ctx : Context)
    (d : deployment) : Eff (option deployment_status) :=
  waitForStatus w fuel (owner ctx) (repo ctx) (id d) (MAX_TIMEOUT inp)
    (ALLOW_INACTIVE inp) (CHECK_INTERVAL_IN_MS inp).

(** ** A concrete run: the end-to-end scenario of the specification *)

Module Scenario.

Local Open Scope string_scope.

(** A stand-in for the URL constructor on the addresses of the scenario. *)
Definition host_of (s : string) : option string :=
  if prefix "https://" s then Some (substring 8 (String.length s - 8) s)
  else None.

Definition href_of (path base : string) : option string :=
  if prefix "https://" base then Some (base ++ path) else None.

Definition bot_deployment : deployment :=
  {| id := 42; creator := Some {| login := "bot-x" |} |}.
Definition late_bot_deployment : deployment :=
  {| id := 43; creator := Some {| login := "bot-x" |} |}.
Definition other_deployment : deployment :=
  {| id := 7; creator := Some {| login := "alice" |} |}.

Definition pending : deployment_status :=
  {| state := "pending"; environment_url := None |}.
Definition succeeded : deployment_status :=
  {| state := "success";
     environment_url := Some "https://preview-42.example.com" |}.
Definition inactive : deployment_status :=
  {| state := "inactive";
     environment_url := Some "https://preview-41.example.com" |}.

(** Discovery answers nothing twice, then a list with two matches; the
    status is pending once, then successful; the first GET fails. *)
Definition world : World := {|
  listDeployments := fun _ _ _ _ i =>
    if (i <? 2)%nat then Resolved []
    else Resolved [other_deployment; bot_deployment; late_bot_deployment];
  listDeploymentStatuses := fun _ _ _ i =>
    if (i <? 1)%nat then Resolved [pending] else Resolved [succeeded; pending];
  pulls_get := fun _ _ _ => Rejected (Error "Not Found");
  axios_get := fun _ i =>
    if (i <? 1)%nat then Rejected (AxiosError None true "socket hang up")
    else Resolved tt;
  URL_host := host_of;
  URL_href := href_of
|}.

Definition inputs : Inputs := {|
  token := "t0ken";
  environment := "preview";
  actor_name := "bot-x";
  max_timeout := of_Z 60%Z;
  allow_inactive := "";
  path := "/";
  check_interval := of_Z 2%Z
|}.

Definition context : Context :=
  {| owner := "octo"; repo := "site"; pull_request := None; sha := "abc123" |}.

End Scenario.

(** ** Runs that end in a failure *)

Module Failing.

Local Open Scope string_scope.

(** The deployment succeeds, but its address never answers. *)
Definition unreachable : World := {|
  listDeployments := fun _ _ _ _ _ => Resolved [Scenario.bot_deployment];
  listDeploymentStatuses := fun _ _ _ _ => Resolved [Scenario.succeeded];
  pulls_get := fun _ _ _ => Rejected (Error "Not Found");
  axios_get := fun _ _ => Rejected (AxiosError (Some 503) true "Service Unavailable");
  URL_host := Scenario.host_of;
  URL_href := Scenario.href_of
|}.

(** The deployment succeeds with an empty [environment_url], the default
    of the API for a status that names no address. *)
Definition no_url : deployment_status :=
  {| state := "success"; environment_url := Some "" |}.

Definition urlless : World := {|
  listDeployments := fun _ _ _ _ _ => Resolved [Scenario.bot_deployment];
  listDeploymentStatuses := fun _ _ _ _ => Resolved [no_url];
  pulls_get := fun _ _ _ => Rejected (Error "Not Found");
  axios_get := fun _ _ => Resolved tt;
  URL_host := Scenario.host_of;
  URL_href := Scenario.href_of
|}.

(** No deployment of the actor ever shows up. *)
Definition nobody : World := {|
  listDeployments := fun _ _ _ _ _ => Resolved [Scenario.other_deployment];
  listDeploymentStatuses := fun _ _ _ _ => Resolved [Scenario.succeeded];
  pulls_get := fun _ _ _ => Rejected (Error "Not Found");
  axios_get := fun _ _ => Resolved tt;
  URL_host := Scenario.host_of;
  URL_href := Scenario.href_of
|}.

(** Four seconds at the default interval of two: two attempts a stage. *)
Definition inputs : Inputs := {|
  token := "t0ken";
  environment := "preview";
  actor_name := "bot-x";
  max_timeout := of_Z 4%Z;
  allow_inactive := "";
  path := "";
  check_interval := S754_nan
|}.

End Failing.

(** ** Sleeps, and runs on a pull request *)

(** The sleeps of a trace, in order: the milliseconds each [wait] is
    called with. *)
Definition waits (t : trace) : list number :=
  flat_map (fun ev => match ev with Wait ms => [ms] | _ => [] end) t.

(** A request of the kind that stage [n] of a run makes: the pull request
    lookup (0), discovery (1), the status poller (2), the reachability
    poller (3). *)
Definition stage (ev : event) : option nat :=
  match ev with
  | PullsGet _ _ _ => Some 0
  | ListDeployments _ _ _ _ => Some 1
  | ListDeploymentStatuses _ _ _ => Some 2
  | AxiosGet _ => Some 3
  | _ => None
  end.

(** The stages of the requests of a trace, in order. *)
Definition stages (t : trace) : list nat :=
  flat_map (fun ev => match stage ev with Some k => [k] | None => [] end) t.

Module PullRequest.

Local Open Scope string_scope.

(** Pull request 7 is known, with head commit def456; any other number
    is answered 404.  The deployment is found and successful at once, and
    its address answers. *)
Definition world : World := {|
  listDeployments := fun _ _ _ _ _ => Resolved [Scenario.bot_deployment];
  listDeploymentStatuses := fun _ _ _ _ => Resolved [Scenario.succeeded];
  pulls_get := fun _ _ n =>
    if (n =? 7)%nat then Resolved {| status := 200; head_sha := "def456" |}
    else Resolved {| status := 404; head_sha := "" |};
  axios_get := fun _ _ => Resolved tt;
  URL_host := Scenario.host_of;
  URL_href := Scenario.href_of
|}.

(** The API is down for pull requests. *)
Definition down : World := {|
  listDeployments := fun _ _ _ _ _ => Resolved [Scenario.bot_deployment];
  listDeploymentStatuses := fun _ _ _ _ => Resolved [Scenario.succeeded];
  pulls_get := fun _ _ _ => Rejected (Error "Bad credentials");
  axios_get := fun _ _ => Resolved tt;
  URL_host := Scenario.host_of;
  URL_href := Scenario.href_of
|}.

(** A run on pull request 7, the context naming another commit. *)
Definition context : Context :=
  {| owner := "octo"; repo := "site"; pull_request := Some (Some 7);
     sha := "abc123" |}.

(** A pull request payload without a number, and one unknown to the API. *)
Definition unnumbered : Context :=
  {| owner := "octo"; repo := "site"; pull_request := Some None;
     sha := "abc123" |}.
Definition unknown : Context :=
  {| owner := "octo"; repo := "site"; pull_request := Some (Some 8);
     sha := "abc123" |}.

End PullRequest.

(** Every stage takes as long as it can: the deployment shows up at the
    second and last attempt, it is successful at the second and last
    attempt, and its address never answers. *)
Definition slowest : World := {|
  listDeployments := fun _ _ _ _ i =>
    if (i <? 1)%nat then Resolved [] else Resolved [Scenario.bot_deployment];
  listDeploymentStatuses := fun _ _ _ i =>
    if (i <? 1)%nat then Resolved [Scenario.pending]
    else Resolved [Scenario.succeeded];
  pulls_get := fun _ _ _ => Resolved {| status := 200; head_sha := "def456" |};
  axios_get := fun _ _ => Rejected (AxiosError None true "socket hang up");
  URL_host := Scenario.host_of;
  URL_href := Scenario.href_of
|}.

(** The deployment is there, and stays pending. *)
Definition never_successful : World := {|
  listDeployments := fun _ _ _ _ _ => Resolved [Scenario.bot_deployment];
  listDeploymentStatuses := fun _ _ _ _ => Resolved [Scenario.pending];
  pulls_get := fun _ _ _ => Rejected (Error "Not Found");
  axios_get := fun _ _ => Resolved tt;
  URL_host := Scenario.host_of;
  URL_href := Scenario.href_of
|}.


(** * Properties *)

(** ** The effect monad *)

Lemma bind_returned {A B} (t : trace) (a : A) (k : A -> Eff B) :
  bind (t, Returned a) k = (t ++ fst (k a), snd (k a)).
Proof. unfold bind. destruct (k a); reflexivity. Qed.

Lemma bind_eq {A B} (m : Eff A) (k : A -> Eff B) t a :
  m = (t, Returned a) -> bind m k = (t ++ fst (k a), snd (k a)).
Proof. intros ->. apply bind_returned. Qed.

Lemma surjective_eff {A} (m : Eff A) : m = (fst m, snd m).
Proof. destruct m; reflexivity. Qed.

Lemma failures_app t1 t2 : failures (t1 ++ t2) = failures t1 ++ failures t2.
Proof. apply flat_map_app. Qed.

Lemma outputs_app t1 t2 : outputs (t1 ++ t2) = outputs t1 ++ outputs t2.
Proof. apply flat_map_app. Qed.

(** ** The iteration budget *)

Lemma lt_iterations_budget iterations n i :
  budget iterations = Some n -> lt_iterations i iterations = (i <? n).
Proof.
  destruct iterations as [z | [|] |]; simpl; intros H; inversion H; subst;
    try reflexivity.
  destruct (Z.ltb_spec (Z.of_nat i) z), (Nat.ltb_spec i (Z.to_nat z));
    try reflexivity; lia.
Qed.

Lemma lt_iterations_unbounded iterations i :
  budget iterations = None -> lt_iterations i iterations = true.
Proof. destruct iterations as [z | [|] |]; simpl; intros H; now inversion H. Qed.

Lemma lt_iterations_mono iterations i j :
  j <= i -> lt_iterations i iterations = true -> lt_iterations j iterations = true.
Proof.
  destruct iterations as [z | [|] |]; simpl; trivial.
  rewrite !Z.ltb_lt. lia.
Qed.

(** ** The loop *)

Section ForLoop.

Context {R : Type}.
Variable iterations : integral.
Variable body : nat -> Eff (option R).

Lemma retries_S i n : retries body i (S n) = fst (body i) ++ retries body (S i) n.
Proof. reflexivity. Qed.

Lemma retries_snoc i n : retries body i (S n) = retries body i n ++ fst (body (i + n)).
Proof.
  unfold retries. rewrite seq_S, flat_map_app. simpl. now rewrite app_nil_r.
Qed.

(** Iterations that fall through are followed one after the other. *)
Lemma for_loop_retries n : forall fuel i,
  (forall j, i <= j < i + n -> snd (body j) = Returned None) ->
  lt_iterations (i + n - 1) iterations = true \/ n = 0 ->
  for_loop (n + fuel) iterations body i =
  (retries body i n ++ fst (for_loop fuel iterations body (i + n)),
   snd (for_loop fuel iterations body (i + n))).
Proof.
  induction n as [|n IH]; intros fuel i Hbody Hlt.
  - simpl. rewrite Nat.add_0_r. apply surjective_eff.
  - destruct Hlt as [Hlt|]; [|discriminate].
    cbn [Nat.add for_loop].
    rewrite (lt_iterations_mono iterations (i + S n - 1) i) by (trivial; lia).
    rewrite (bind_eq _ _ (fst (body i)) None).
    2:{ rewrite <- (Hbody i) by lia. apply surjective_eff. }
    rewrite IH.
    + cbn [fst snd]. rewrite retries_S, <- app_assoc.
      now replace (S i + n) with (i + S n) by lia.
    + intros j Hj. apply Hbody. lia.
    + destruct n; [now right|left].
      now replace (S i + S n - 1) with (i + S (S n) - 1) by lia.
Qed.

(** The loop ends at the first iteration that returns. *)
Lemma for_loop_returns k v fuel :
  (forall j, j < k -> snd (body j) = Returned None) ->
  snd (body k) = Returned (Some v) ->
  lt_iterations k iterations = true ->
  k < fuel ->
  for_loop fuel iterations body 0 =
  (retries body 0 k ++ fst (body k), Returned (Some v)).
Proof.
  intros Hbefore Hk Hlt Hfuel.
  replace fuel with (k + S (fuel - S k)) by lia.
  rewrite for_loop_retries.
  - cbn [Nat.add for_loop]. rewrite Hlt.
    rewrite (bind_eq _ _ (fst (body k)) (Some v)).
    2:{ rewrite <- Hk. apply surjective_eff. }
    cbn [ret fst snd]. now rewrite app_nil_r.
  - intros j Hj. apply Hbefore. lia.
  - destruct k; [now right|left].
    apply (lt_iterations_mono iterations (S k)); [lia|trivial].
Qed.

(** The loop falls through once the budget is used up. *)
Lemma for_loop_exhausted n fuel :
  budget iterations = Some n ->
  (forall j, j < n -> snd (body j) = Returned None) ->
  n < fuel ->
  for_loop fuel iterations body 0 = (retries body 0 n, Returned None).
Proof.
  intros Hn Hbody Hfuel.
  replace fuel with (n + S (fuel - S n)) by lia.
  rewrite for_loop_retries.
  - cbn [Nat.add for_loop].
    rewrite (lt_iterations_budget _ _ _ Hn), Nat.ltb_irrefl.
    cbn [ret fst snd]. now rewrite app_nil_r.
  - intros j Hj. apply Hbody. lia.
  - destruct n; [now right|left].
    rewrite (lt_iterations_budget _ _ _ Hn). apply Nat.ltb_lt. lia.
Qed.

(** An invariant of every iteration's trace is one of the loop's. *)
Lemma for_loop_Forall (P : event -> Prop) fuel : forall i,
  (forall j, Forall P (fst (body j))) ->
  Forall P (fst (for_loop fuel iterations body i)).
Proof.
  induction fuel as [|fuel IH]; intros i HP; simpl; [constructor|].
  destruct (lt_iterations i iterations); [|constructor].
  specialize (HP i) as Hi. destruct (body i) as [t [[v|]|e|]]; simpl in *; trivial.
  - now rewrite app_nil_r.
  - specialize (IH (S i) HP).
    destruct (for_loop fuel iterations body (S i)); simpl in *.
    apply Forall_app; now split.
Qed.

(** When every iteration returns or falls through, so does the loop, unless
    the model's steps run out. *)
Lemma for_loop_no_throw fuel : forall i e,
  (forall j e', snd (body j) <> Thrown e') ->
  snd (for_loop fuel iterations body i) <> Thrown e.
Proof.
  induction fuel as [|fuel IH]; intros i e HP; simpl; [discriminate|].
  destruct (lt_iterations i iterations); [|discriminate].
  specialize (HP i) as Hi. destruct (body i) as [t [[v|]|e'|]]; simpl in *;
    try discriminate.
  - specialize (IH (S i) e HP).
    now destruct (for_loop fuel iterations body (S i)).
  - now destruct (Hi e').
Qed.

(** With [Infinity] for a bound, a loop whose iterations all fall through
    is still running after any number of steps. *)
Lemma for_loop_unbounded fuel : forall i,
  budget iterations = None ->
  (forall j, snd (body j) = Returned None) ->
  snd (for_loop fuel iterations body i) = Running.
Proof.
  induction fuel as [|fuel IH]; intros i Hinf Hnone; [reflexivity|].
  cbn [for_loop]. rewrite (lt_iterations_unbounded _ _ Hinf).
  rewrite (bind_eq _ _ (fst (body i)) None).
  2:{ rewrite <- (Hnone i). apply surjective_eff. }
  cbn [snd]. now apply IH.
Qed.

(** Its trace is then that of as many iterations as were followed. *)
Lemma for_loop_unbounded_retries fuel : forall i,
  budget iterations = None ->
  (forall j, snd (body j) = Returned None) ->
  for_loop fuel iterations body i = (retries body i fuel, Running).
Proof.
  induction fuel as [|fuel IH]; intros i Hinf Hnone; [reflexivity|].
  cbn [for_loop]. rewrite (lt_iterations_unbounded _ _ Hinf).
  rewrite (bind_eq _ _ (fst (body i)) None).
  2:{ rewrite <- (Hnone i). apply surjective_eff. }
  now rewrite (IH (S i) Hinf Hnone), retries_S.
Qed.

End ForLoop.

(** In a loop whose iterations all return or fall through, either a first
    iteration among the first [n] returns, or all [n] fall through. *)
Lemma first_return_or_none {R} (body : nat -> Eff (option R)) :
  (forall j, exists r, snd (body j) = Returned r) ->
  forall n,
    (exists k v, k < n /\ snd (body k) = Returned (Some v) /\
                 forall j, j < k -> snd (body j) = Returned None) \/
    (forall j, j < n -> snd (body j) = Returned None).
Proof.
  intros Htotal. induction n as [|n [(k & v & Hk & Hv & Hb)|Hnone]].
  - right. intros j Hj. lia.
  - left. exists k, v. repeat split; trivial. lia.
  - destruct (Htotal n) as [[v|] Hn].
    + left. exists n, v. repeat split; trivial. lia.
    + right. intros j Hj. destruct (Nat.eq_dec j n) as [->|]; trivial.
      apply Hnone. lia.
Qed.

Lemma retries_flat {R} (body : nat -> Eff (option R)) (A : Type)
    (f : trace -> list A) :
  (forall t1 t2, f (t1 ++ t2) = f t1 ++ f t2) -> f [] = [] ->
  (forall j, f (fst (body j)) = []) ->
  forall n i, f (retries body i n) = [].
Proof.
  intros Happ Hnil Hbody. induction n as [|n IH]; intros i; trivial.
  rewrite retries_S, Happ, Hbody, IH. reflexivity.
Qed.

(** ** One attempt of each poller *)

Ltac eff_unfold :=
  cbv [bind try_catch ret throw emit await console_log console_error
       setFailed setOutput wait].

(** What [find] comes to on a list of deployments: the first entry
    created by the actor, when every entry before it has a creator; nothing,
    when every entry has a creator other than the actor; and a throw, when
    an entry without creator comes before any match. *)
Lemma array_find_by_actor actorName data :
  (exists pre d post,
     data = pre ++ d :: post /\ created_by actorName d = true /\
     (forall x, In x pre -> creator x <> None /\ created_by actorName x = false) /\
     array_find (by_actor actorName) data = ([], Returned (Some d))) \/
  ((forall x, In x data -> creator x <> None /\ created_by actorName x = false) /\
   array_find (by_actor actorName) data = ([], Returned None)) \/
  (exists pre x post,
     data = pre ++ x :: post /\ creator x = None /\
     (forall y, In y pre -> creator y <> None /\ created_by actorName y = false) /\
     array_find (by_actor actorName) data =
       ([], Thrown (TypeError "Cannot read properties of null (reading 'login')"))).
Proof.
  induction data as [|x data IH].
  - right. left. split; [intros x []|reflexivity].
  - cbn [array_find]. unfold by_actor at 1 3 5.
    destruct (creator x) as [c|] eqn:Hc.
    2:{ right. right. exists [], x, data.
        split; [reflexivity|split; [trivial|split; [intros y []|reflexivity]]]. }
    cbn [bind ret app].
    destruct (login c =? actorName)%string eqn:Hlogin.
    { left. exists [], x, data.
      split; [reflexivity|split; [|split; [intros y []|reflexivity]]].
      unfold created_by. now rewrite Hc. }
    assert (Hx : creator x <> None /\ created_by actorName x = false).
    { unfold created_by. rewrite Hc. split; [discriminate|trivial]. }
    assert (Hin : forall pre y,
              (forall z, In z pre -> creator z <> None /\
                                     created_by actorName z = false) ->
              In y (x :: pre) ->
              creator y <> None /\ created_by actorName y = false).
    { intros pre y Hpre [<-|Hy]; auto. }
    destruct IH as [(pre & d & post & -> & Hd & Hpre & Hfind)
                   |[[Hall Hfind]|(pre & y & post & -> & Hy & Hpre & Hfind)]];
      rewrite Hfind.
    + left. exists (x :: pre), d, post.
      split; [reflexivity|split; [trivial|split; [|reflexivity]]].
      intros z Hz. now apply (Hin pre).
    + right. left. split; [|reflexivity].
      intros z Hz. now apply (Hin data).
    + right. right. exists (x :: pre), y, post.
      split; [reflexivity|split; [trivial|split; [|reflexivity]]].
      intros z Hz. now apply (Hin pre).
Qed.

Lemma find_deployment_cases actorName data :
  (exists pre d post,
     data = pre ++ d :: post /\ created_by actorName d = true /\
     (forall x, In x pre -> creator x <> None /\ created_by actorName x = false) /\
     find_deployment actorName data = ([], Returned (Some d))) \/
  ((forall x, In x data -> creator x <> None /\ created_by actorName x = false) /\
   find_deployment actorName data = ([], Returned None)) \/
  (exists pre x post,
     data = pre ++ x :: post /\ creator x = None /\
     (forall y, In y pre -> creator y <> None /\ created_by actorName y = false) /\
     find_deployment actorName data =
       ([], Thrown (TypeError "Cannot read properties of null (reading 'login')"))).
Proof.
  unfold find_deployment. destruct data as [|x data].
  - right. left. split; [intros x []|reflexivity].
  - change (0 <? List.length (x :: data)) with true. cbv iota.
    apply array_find_by_actor.
Qed.

(** The three cases of a search, with the list's equation left out. *)
Ltac find_cases actorName data :=
  let Hfind := fresh "Hfind" in
  destruct (find_deployment_cases actorName data)
    as [(? & ? & ? & _ & _ & _ & Hfind)|[[_ Hfind]|(? & ? & ? & _ & _ & _ & Hfind)]];
  rewrite Hfind; cbn [fst snd].

Section Attempts.

Variable w : World.

Lemma waitForUrl_logs_logged iterations i e :
  waitForUrl_logs iterations i e <> [] /\
  Forall is_log (waitForUrl_logs iterations i e).
Proof.
  destruct e as [m|m|[code|] [|] m|m]; simpl; split; try discriminate;
    repeat constructor.
Qed.

Lemma waitForStatus_logs_logged iterations i e :
  waitForStatus_logs iterations i e <> [] /\
  Forall is_log (waitForStatus_logs iterations i e).
Proof.
  unfold waitForStatus_logs. split; [discriminate|].
  destruct e as [m|m|r q m|m]; try destruct (includes no_success_prefix m);
    repeat constructor.
Qed.

(** The reachability attempt, by what the collaborators answer. *)
Lemma waitForUrl_attempt_spec url path interval iterations i :
  waitForUrl_attempt w url path interval iterations i =
  match URL_href w path url with
  | Some href =>
      match axios_get w href i with
      | Resolved _ =>
          ([AxiosGet href; ConsoleLog (Text "Received success status code")],
           Returned (Some tt))
      | Rejected e =>
          (AxiosGet href :: waitForUrl_logs iterations i e ++ [Wait interval],
           Returned None)
      end
  | None =>
      ([ConsoleLog (ErrorObject (TypeError "Invalid URL")); Wait interval],
       Returned None)
  end.
Proof.
  unfold waitForUrl_attempt, waitForUrl_catch.
  destruct (URL_href w path url) as [href|]; [|reflexivity].
  eff_unfold. cbn [app].
  destruct (axios_get w href i) as [[]|e]; [reflexivity|].
  destruct e as [m|m|[code|] [|] m|m]; reflexivity.
Qed.

Lemma waitForStatus_classify_spec allowInactive data :
  waitForStatus_classify allowInactive data =
  match data with
  | [] =>
      ([ConsoleLog (StatusObject None)],
       Thrown (StatusError "No status was available"))
  | s :: _ =>
      ([ConsoleLog (StatusObject (Some s))],
       if accepted allowInactive s then Returned (Some s)
       else Thrown (StatusError (no_success_prefix ++ " was available")))
  end.
Proof.
  unfold waitForStatus_classify, accepted.
  destruct data as [|s older]; [reflexivity|].
  destruct allowInactive, (state s =? "inactive")%string eqn:Hi,
    (state s =? "success")%string eqn:Hs; reflexivity.
Qed.

Lemma waitForStatus_attempt_spec owner repo deployment_id allowInactive
    interval iterations i :
  let request := ListDeploymentStatuses owner repo deployment_id in
  waitForStatus_attempt w owner repo deployment_id allowInactive interval
    iterations i =
  match listDeploymentStatuses w owner repo deployment_id i with
  | Resolved [] =>
      ([request; ConsoleLog (StatusObject None);
        ConsoleLog (StatusRetry (i + 1) iterations);
        ConsoleLog (Text "No status was available"); Wait interval],
       Returned None)
  | Resolved (s :: _) =>
      if accepted allowInactive s then
        ([request; ConsoleLog (StatusObject (Some s))], Returned (Some s))
      else
        ([request; ConsoleLog (StatusObject (Some s));
          ConsoleLog (StatusRetry (i + 1) iterations); Wait interval],
         Returned None)
  | Rejected e =>
      (request :: waitForStatus_logs iterations i e ++ [Wait interval],
       Returned None)
  end.
Proof.
  intros request. unfold waitForStatus_attempt.
  destruct (listDeploymentStatuses w owner repo deployment_id i) as [data|e].
  - eff_unfold. rewrite waitForStatus_classify_spec.
    destruct data as [|s older]; [reflexivity|].
    destruct (accepted allowInactive s); reflexivity.
  - unfold waitForStatus_catch, waitForStatus_logs.
    destruct e as [m|m|r q m|m]; eff_unfold; simpl; try reflexivity.
    destruct (includes no_success_prefix m); reflexivity.
Qed.

(** The discovery attempt. *)
Lemma waitForDeploymentToStart_attempt_spec owner repo sha environment
    actorName interval iterations i :
  let request := ListDeployments owner repo sha environment in
  waitForDeploymentToStart_attempt w owner repo sha environment actorName
    interval iterations i =
  match listDeployments w owner repo sha environment i with
  | Resolved data =>
      match snd (find_deployment actorName data) with
      | Returned (Some d) =>
          ([request; ConsoleLog (DeploymentObject d)], Returned (Some d))
      | Returned None =>
          ([request; ConsoleLog (NoDeploymentRetry actorName (i + 1) iterations);
            Wait interval], Returned None)
      | Thrown e =>
          ([request; ConsoleLog (FetchErrorRetry (i + 1) iterations);
            ConsoleError e; Wait interval], Returned None)
      | Running => ([request], Running)
      end
  | Rejected e =>
      ([request; ConsoleLog (FetchErrorRetry (i + 1) iterations);
        ConsoleError e; Wait interval], Returned None)
  end.
Proof.
  intros request. unfold waitForDeploymentToStart_attempt.
  destruct (listDeployments w owner repo sha environment i) as [data|e];
    [|reflexivity].
  eff_unfold. cbn [app].
  destruct (find_deployment_cases actorName data)
    as [(pre & d & post & _ & _ & _ & Hfind)
       |[[_ Hfind]|(pre & x & post & _ & _ & _ & Hfind)]];
    rewrite Hfind; reflexivity.
Qed.

End Attempts.

Lemma logs_silent (l : trace) :
  Forall is_log l -> failures l = [] /\ outputs l = [].
Proof.
  induction 1 as [|ev l Hev _ [IHf IHo]]; [now split|].
  destruct ev; try contradiction; now split.
Qed.

(** ** One poller invocation *)

Section Invocations.

Variable w : World.

(** No attempt throws, reports a failure or sets an output. *)
Lemma waitForUrl_attempt_total url path interval iterations i :
  exists r,
    snd (waitForUrl_attempt w url path interval iterations i) = Returned r /\
    failures (fst (waitForUrl_attempt w url path interval iterations i)) = [] /\
    outputs (fst (waitForUrl_attempt w url path interval iterations i)) = [].
Proof.
  rewrite waitForUrl_attempt_spec.
  destruct (URL_href w path url) as [href|]; [|now eexists].
  destruct (axios_get w href i) as [[]|e]; [now eexists|].
  exists None. cbn [fst snd]. split; [reflexivity|].
  destruct (waitForUrl_logs_logged iterations i e) as [_ Hl].
  apply logs_silent in Hl as [Hf Ho].
  change (AxiosGet href :: ?l) with ([AxiosGet href] ++ l).
  rewrite !failures_app, !outputs_app, Hf, Ho. now split.
Qed.

Lemma waitForStatus_attempt_total owner repo deployment_id allowInactive
    interval iterations i :
  let attempt :=
    waitForStatus_attempt w owner repo deployment_id allowInactive interval
      iterations i in
  exists r, snd attempt = Returned r /\
            failures (fst attempt) = [] /\ outputs (fst attempt) = [].
Proof.
  intros attempt. subst attempt. rewrite waitForStatus_attempt_spec.
  destruct (listDeploymentStatuses w owner repo deployment_id i) as [[|s older]|e].
  - now eexists.
  - destruct (accepted allowInactive s); now eexists.
  - exists None. cbn [fst snd]. split; [reflexivity|].
    destruct (waitForStatus_logs_logged iterations i e) as [_ Hl].
    apply logs_silent in Hl as [Hf Ho].
    change (?x :: ?l ++ ?r) with ([x] ++ l ++ r).
    rewrite !failures_app, !outputs_app, Hf, Ho. now split.
Qed.

Lemma waitForDeploymentToStart_attempt_total owner repo sha environment
    actorName interval iterations i :
  let attempt :=
    waitForDeploymentToStart_attempt w owner repo sha environment actorName
      interval iterations i in
  exists r, snd attempt = Returned r /\
            failures (fst attempt) = [] /\ outputs (fst attempt) = [].
Proof.
  intros attempt. subst attempt. rewrite waitForDeploymentToStart_attempt_spec.
  destruct (listDeployments w owner repo sha environment i) as [data|e];
    [find_cases actorName data|]; now eexists.
Qed.

(** *** Reachability *)

Section Url.

Variables (url path : string) (maxTimeout interval : number).

Local Abbreviation iterations := (calculateIterations maxTimeout interval).
Local Abbreviation attempt := (waitForUrl_attempt w url path interval iterations).

Lemma waitForUrl_returns k fuel :
  (forall j, j < k -> snd (attempt j) = Returned None) ->
  snd (attempt k) = Returned (Some tt) ->
  lt_iterations k iterations = true ->
  k < fuel ->
  waitForUrl w fuel url maxTimeout interval path =
  (retries attempt 0 k ++ fst (attempt k), Returned tt).
Proof.
  intros Hbefore Hk Hlt Hfuel. unfold waitForUrl.
  rewrite (for_loop_returns iterations attempt k tt fuel) by trivial.
  rewrite bind_returned. cbn [ret fst snd]. now rewrite app_nil_r.
Qed.

Lemma waitForUrl_times_out n fuel :
  budget iterations = Some n ->
  (forall j, j < n -> snd (attempt j) = Returned None) ->
  n < fuel ->
  waitForUrl w fuel url maxTimeout interval path =
  (retries attempt 0 n ++
     [SetFailed ("Timeout reached: Unable to connect to " ++ url)],
   Returned tt).
Proof.
  intros Hn Hall Hfuel. unfold waitForUrl.
  rewrite (for_loop_exhausted iterations attempt n fuel) by trivial.
  now rewrite bind_returned.
Qed.

Lemma waitForUrl_retries_silent i n :
  failures (retries attempt i n) = [] /\ outputs (retries attempt i n) = [].
Proof.
  split; apply retries_flat; trivial using failures_app, outputs_app;
    intros j; destruct (waitForUrl_attempt_total url path interval iterations j)
      as (r & _ & Hf & Ho); trivial.
Qed.

End Url.

(** *** Status *)

Section Status.

Variables (owner repo : string) (deployment_id : nat)
          (maxTimeout : number) (allowInactive : bool) (interval : number).

Local Abbreviation iterations := (calculateIterations maxTimeout interval).
Local Abbreviation attempt :=
  (waitForStatus_attempt w owner repo deployment_id allowInactive interval
     iterations).

Lemma waitForStatus_returns k s fuel :
  (forall j, j < k -> snd (attempt j) = Returned None) ->
  snd (attempt k) = Returned (Some s) ->
  lt_iterations k iterations = true ->
  k < fuel ->
  waitForStatus w fuel owner repo deployment_id maxTimeout allowInactive interval =
  (retries attempt 0 k ++ fst (attempt k), Returned (Some s)).
Proof.
  intros Hbefore Hk Hlt Hfuel. unfold waitForStatus.
  rewrite (for_loop_returns iterations attempt k s fuel) by trivial.
  rewrite bind_returned. cbn [ret fst snd]. now rewrite app_nil_r.
Qed.

Lemma waitForStatus_times_out n fuel :
  budget iterations = Some n ->
  (forall j, j < n -> snd (attempt j) = Returned None) ->
  n < fuel ->
  waitForStatus w fuel owner repo deployment_id maxTimeout allowInactive interval =
  (retries attempt 0 n ++
     [SetFailed "Timeout reached: Unable to wait for an deployment to be successful"],
   Returned None).
Proof.
  intros Hn Hall Hfuel. unfold waitForStatus.
  rewrite (for_loop_exhausted iterations attempt n fuel) by trivial.
  now rewrite bind_returned.
Qed.

Lemma waitForStatus_retries_silent i n :
  failures (retries attempt i n) = [] /\ outputs (retries attempt i n) = [].
Proof.
  split; apply retries_flat; trivial using failures_app, outputs_app;
    intros j;
    destruct (waitForStatus_attempt_total owner repo deployment_id
                allowInactive interval iterations j) as (r & _ & Hf & Ho);
    trivial.
Qed.

End Status.

(** *** Discovery *)

Section Discovery.

Variables (owner repo sha environment actorName : string)
          (maxTimeout interval : number).

Local Abbreviation iterations := (calculateIterations maxTimeout interval).
Local Abbreviation attempt :=
  (waitForDeploymentToStart_attempt w owner repo sha environment actorName
     interval iterations).

Lemma waitForDeploymentToStart_returns k d fuel :
  (forall j, j < k -> snd (attempt j) = Returned None) ->
  snd (attempt k) = Returned (Some d) ->
  lt_iterations k iterations = true ->
  k < fuel ->
  waitForDeploymentToStart w fuel owner repo sha environment actorName
    (Some maxTimeout) (Some interval) =
  (retries attempt 0 k ++ fst (attempt k), Returned (Some d)).
Proof.
  intros Hbefore Hk Hlt Hfuel. unfold waitForDeploymentToStart.
  now apply for_loop_returns.
Qed.

Lemma waitForDeploymentToStart_times_out n fuel :
  budget iterations = Some n ->
  (forall j, j < n -> snd (attempt j) = Returned None) ->
  n < fuel ->
  waitForDeploymentToStart w fuel owner repo sha environment actorName
    (Some maxTimeout) (Some interval) =
  (retries attempt 0 n, Returned None).
Proof.
  intros Hn Hall Hfuel. unfold waitForDeploymentToStart.
  now apply for_loop_exhausted.
Qed.

Lemma waitForDeploymentToStart_retries_silent i n :
  failures (retries attempt i n) = [] /\ outputs (retries attempt i n) = [].
Proof.
  split; apply retries_flat; trivial using failures_app, outputs_app;
    intros j;
    destruct (waitForDeploymentToStart_attempt_total owner repo sha environment
                actorName interval iterations j) as (r & _ & Hf & Ho);
    trivial.
Qed.

End Discovery.

End Invocations.

(** ** C1: one outcome per invocation *)

(** C1, as the program has it.  Every poller invocation whose iteration
    budget [n] is finite returns, and does so in exactly one of two ways.  Either some attempt
    below [n] succeeds: the first such attempt's payload is returned and no
    timeout is signalled.  Or all [n] attempts fall through: the timeout is
    signalled exactly once ([core.setFailed] once for the reachability and
    status pollers, the [null] result for discovery).  The invocation never
    ends by a throw. *)
Theorem poller_one_outcome (w : World) (maxTimeout interval : number)
    (n fuel : nat) :
  budget (calculateIterations maxTimeout interval) = Some n ->
  n < fuel ->
  let iterations := calculateIterations maxTimeout interval in
  (forall url path,
     let attempt := waitForUrl_attempt w url path interval iterations in
     let result := waitForUrl w fuel url maxTimeout interval path in
     snd result = Returned tt /\
     ((exists k, k < n /\ snd (attempt k) = Returned (Some tt) /\
                 (forall j, j < k -> snd (attempt j) = Returned None) /\
                 failures (fst result) = []) \/
      ((forall j, j < n -> snd (attempt j) = Returned None) /\
       failures (fst result) =
         ["Timeout reached: Unable to connect to " ++ url]%string))) /\
  (forall owner repo deployment_id allowInactive,
     let attempt :=
       waitForStatus_attempt w owner repo deployment_id allowInactive interval
         iterations in
     let result :=
       waitForStatus w fuel owner repo deployment_id maxTimeout allowInactive
         interval in
     (exists k s, k < n /\ snd (attempt k) = Returned (Some s) /\
                  (forall j, j < k -> snd (attempt j) = Returned None) /\
                  snd result = Returned (Some s) /\
                  failures (fst result) = []) \/
     ((forall j, j < n -> snd (attempt j) = Returned None) /\
      snd result = Returned None /\
      failures (fst result) =
        ["Timeout reached: Unable to wait for an deployment to be successful"%string])) /\
  (forall owner repo sha environment actorName,
     let attempt :=
       waitForDeploymentToStart_attempt w owner repo sha environment actorName
         interval iterations in
     let result :=
       waitForDeploymentToStart w fuel owner repo sha environment actorName
         (Some maxTimeout) (Some interval) in
     failures (fst result) = [] /\
     ((exists k d, k < n /\ snd (attempt k) = Returned (Some d) /\
                   (forall j, j < k -> snd (attempt j) = Returned None) /\
                   snd result = Returned (Some d)) \/
      ((forall j, j < n -> snd (attempt j) = Returned None) /\
       snd result = Returned None))).
Proof.
  intros Hn Hfuel iterations.
  assert (Hlt : forall k, k < n -> lt_iterations k iterations = true).
  { intros k Hk. rewrite (lt_iterations_budget _ _ _ Hn). now apply Nat.ltb_lt. }
  split; [|split].
  - intros url path attempt result.
    destruct (first_return_or_none attempt) with (n := n)
      as [(k & [] & Hk & Hv & Hb)|Hnone].
    { intros j. destruct (waitForUrl_attempt_total w url path interval iterations j)
        as (r & Hr & _). now exists r. }
    + subst result.
      rewrite (waitForUrl_returns w url path maxTimeout interval k fuel)
        by (auto; lia).
      split; [reflexivity|left]. exists k. repeat split; trivial.
      cbn [fst]. rewrite failures_app.
      destruct (waitForUrl_retries_silent w url path maxTimeout interval 0 k)
        as [-> _].
      destruct (waitForUrl_attempt_total w url path interval iterations k)
        as (r & _ & Hf & _). exact Hf.
    + subst result.
      rewrite (waitForUrl_times_out w url path maxTimeout interval n fuel)
        by trivial.
      split; [reflexivity|right]. split; trivial.
      cbn [fst]. rewrite failures_app.
      now destruct (waitForUrl_retries_silent w url path maxTimeout interval 0 n)
        as [-> _].
  - intros owner repo deployment_id allowInactive attempt result.
    destruct (first_return_or_none attempt) with (n := n)
      as [(k & s & Hk & Hv & Hb)|Hnone].
    { intros j.
      destruct (waitForStatus_attempt_total w owner repo deployment_id
                  allowInactive interval iterations j) as (r & Hr & _).
      now exists r. }
    + left. exists k, s. subst result.
      rewrite (waitForStatus_returns w owner repo deployment_id maxTimeout
                 allowInactive interval k s fuel) by (auto; lia).
      repeat split; trivial.
      cbn [fst]. rewrite failures_app.
      destruct (waitForStatus_retries_silent w owner repo deployment_id
                  maxTimeout allowInactive interval 0 k) as [-> _].
      destruct (waitForStatus_attempt_total w owner repo deployment_id
                  allowInactive interval iterations k) as (r & _ & Hf & _).
      exact Hf.
    + right. subst result.
      rewrite (waitForStatus_times_out w owner repo deployment_id maxTimeout
                 allowInactive interval n fuel) by trivial.
      repeat split; trivial.
      cbn [fst]. rewrite failures_app.
      now destruct (waitForStatus_retries_silent w owner repo deployment_id
                      maxTimeout allowInactive interval 0 n) as [-> _].
  - intros owner repo sha environment actorName attempt result.
    destruct (first_return_or_none attempt) with (n := n)
      as [(k & d & Hk & Hv & Hb)|Hnone].
    { intros j.
      destruct (waitForDeploymentToStart_attempt_total w owner repo sha
                  environment actorName interval iterations j) as (r & Hr & _).
      now exists r. }
    + subst result.
      rewrite (waitForDeploymentToStart_returns w owner repo sha environment
                 actorName maxTimeout interval k d fuel) by (auto; lia).
      split.
      * cbn [fst]. rewrite failures_app.
        destruct (waitForDeploymentToStart_retries_silent w owner repo sha
                    environment actorName maxTimeout interval 0 k) as [-> _].
        destruct (waitForDeploymentToStart_attempt_total w owner repo sha
                    environment actorName interval iterations k)
          as (r & _ & Hf & _).
        exact Hf.
      * left. exists k, d. repeat split; trivial.
    + subst result.
      rewrite (waitForDeploymentToStart_times_out w owner repo sha environment
                 actorName maxTimeout interval n fuel) by trivial.
      split.
      * cbn [fst].
        now destruct (waitForDeploymentToStart_retries_silent w owner repo sha
                        environment actorName maxTimeout interval 0 n)
          as [-> _].
      * right. now split.
Qed.

Lemma poller_one_outcome_witness :
  budget (calculateIterations (of_Z 60%Z) (of_Z 2000%Z)) = Some 30 /\
  snd (waitForUrl Scenario.world 31 "https://preview-42.example.com"
         (of_Z 60%Z) (of_Z 2000%Z) "/") = Returned tt.
Proof.
  split; [reflexivity|].
  apply (poller_one_outcome Scenario.world (of_Z 60%Z) (of_Z 2000%Z) 30 31);
    [reflexivity | lia].
Defined.

(** The claim C1 fails for a maximum of [Infinity], which the
    [max_timeout] input can name: the iteration count is [Infinity], and a
    poller whose attempts all fail has neither returned nor signalled a
    timeout, however many iterations are followed. *)
Lemma unbounded_poller_no_outcome :
  calculateIterations (S754_infinity false) (of_Z 2000%Z) = Infty false /\
  (forall fuel,
     let result :=
       waitForUrl Failing.unreachable fuel "https://preview-42.example.com"
         (S754_infinity false) (of_Z 2000%Z) "/" in
     snd result = Running /\ failures (fst result) = []) /\
  (forall fuel,
     let result :=
       waitForStatus never_successful fuel "octo" "site" 42
         (S754_infinity false) false (of_Z 2000%Z) in
     snd result = Running /\ failures (fst result) = []) /\
  (forall fuel,
     let result :=
       waitForDeploymentToStart Failing.nobody fuel "octo" "site" "abc123"
         "preview" "bot-x" (Some (S754_infinity false)) (Some (of_Z 2000%Z)) in
     snd result = Running /\ failures (fst result) = []).
Proof.
  assert (Hinf : calculateIterations (S754_infinity false) (of_Z 2000%Z) =
                 Infty false) by reflexivity.
  split; [exact Hinf|split; [|split]]; intros fuel result; subst result.
  - unfold waitForUrl.
    rewrite for_loop_unbounded_retries;
      [|now rewrite Hinf|intros j; reflexivity].
    cbn [bind fst snd]. split; [reflexivity|].
    apply (waitForUrl_retries_silent Failing.unreachable
             "https://preview-42.example.com" "/" (S754_infinity false)
             (of_Z 2000%Z) 0 fuel).
  - unfold waitForStatus.
    rewrite for_loop_unbounded_retries;
      [|now rewrite Hinf|intros j; reflexivity].
    cbn [bind fst snd]. split; [reflexivity|].
    apply (waitForStatus_retries_silent never_successful "octo" "site" 42
             (S754_infinity false) false (of_Z 2000%Z) 0 fuel).
  - unfold waitForDeploymentToStart.
    rewrite for_loop_unbounded_retries;
      [|now rewrite Hinf|intros j; reflexivity].
    cbn [fst snd]. split; [reflexivity|].
    apply (waitForDeploymentToStart_retries_silent Failing.nobody "octo" "site"
             "abc123" "preview" "bot-x" (S754_infinity false) (of_Z 2000%Z)
             0 fuel).
Qed.

(** ** C2: the status poller's classification *)

Lemma accepted_cases allowInactive s :
  accepted allowInactive s = true <->
  (state s = "inactive"%string /\ allowInactive = true) \/
  state s = "success"%string.
Proof.
  unfold accepted.
  rewrite orb_true_iff, andb_true_iff, !String.eqb_eq. tauto.
Qed.

(** C2. One attempt of the status poller reads the first entry of the
    reply, the most recent status, and nothing after it.  No entry: retry.
    Latest state [inactive] with [allowInactive]: that status is returned.
    Latest state [inactive] without [allowInactive]: retry.  Latest state
    [success]: that status is returned.  Any other state: retry.  A retry
    prints, sleeps one interval and falls through; the invocation returns
    the status of the first attempt that accepts one. *)
Theorem status_classification (w : World) (owner repo : string)
    (deployment_id : nat) (maxTimeout : number) (allowInactive : bool)
    (interval : number) :
  let iterations := calculateIterations maxTimeout interval in
  let attempt :=
    waitForStatus_attempt w owner repo deployment_id allowInactive interval
      iterations in
  let reply := listDeploymentStatuses w owner repo deployment_id in
  let request := ListDeploymentStatuses owner repo deployment_id in
  let returned i s :=
    attempt i = ([request; ConsoleLog (StatusObject (Some s))],
                 Returned (Some s)) in
  let retried i s :=
    attempt i = ([request; ConsoleLog (StatusObject (Some s));
                  ConsoleLog (StatusRetry (i + 1) iterations); Wait interval],
                 Returned None) in
  (forall i, reply i = Resolved [] ->
     attempt i = ([request; ConsoleLog (StatusObject None);
                   ConsoleLog (StatusRetry (i + 1) iterations);
                   ConsoleLog (Text "No status was available"); Wait interval],
                  Returned None)) /\
  (forall i s older, reply i = Resolved (s :: older) ->
     (state s = "inactive"%string -> allowInactive = true -> returned i s) /\
     (state s = "inactive"%string -> allowInactive = false -> retried i s) /\
     (state s = "success"%string -> returned i s) /\
     (state s <> "inactive"%string -> state s <> "success"%string ->
      retried i s)) /\
  (forall k s older fuel,
     reply k = Resolved (s :: older) ->
     state s = "success"%string \/
       (state s = "inactive"%string /\ allowInactive = true) ->
     (forall j, j < k -> snd (attempt j) = Returned None) ->
     lt_iterations k iterations = true ->
     k < fuel ->
     snd (waitForStatus w fuel owner repo deployment_id maxTimeout
            allowInactive interval) = Returned (Some s)).
Proof.
  intros iterations attempt reply request returned retried.
  assert (Hattempt : forall i s older, reply i = Resolved (s :: older) ->
            (accepted allowInactive s = true -> returned i s) /\
            (accepted allowInactive s = false -> retried i s)).
  { intros i s older Hr. unfold returned, retried, attempt.
    rewrite waitForStatus_attempt_spec. fold (reply i). rewrite Hr.
    split; intros ->; reflexivity. }
  split; [|split].
  - intros i Hr. unfold attempt. rewrite waitForStatus_attempt_spec.
    fold (reply i). now rewrite Hr.
  - intros i s older Hr. destruct (Hattempt i s older Hr) as [Hyes Hno].
    repeat split.
    + intros Hs Ha. apply Hyes, accepted_cases. now left.
    + intros Hs Ha. apply Hno. unfold accepted.
      rewrite Ha. simpl. apply String.eqb_neq. rewrite Hs. discriminate.
    + intros Hs. apply Hyes, accepted_cases. now right.
    + intros Hi Hs. apply Hno. unfold accepted.
      apply String.eqb_neq in Hi, Hs. rewrite Hi, Hs. now destruct allowInactive.
  - intros k s older fuel Hr Hs Hb Hlt Hfuel.
    destruct (Hattempt k s older Hr) as [Hyes _].
    assert (Hk : returned k s) by (apply Hyes, accepted_cases; tauto).
    rewrite (waitForStatus_returns w owner repo deployment_id maxTimeout
               allowInactive interval k s fuel); trivial.
    fold iterations. fold attempt. now rewrite Hk.
Qed.

Lemma status_classification_witness :
  snd (waitForStatus Scenario.world 31 "octo" "site" 42 (of_Z 60%Z) false
         (of_Z 2000%Z)) = Returned (Some Scenario.succeeded).
Proof.
  destruct (status_classification Scenario.world "octo" "site" 42 (of_Z 60%Z)
              false (of_Z 2000%Z)) as (_ & _ & H).
  apply (H 1 Scenario.succeeded [Scenario.pending] 31 eq_refl).
  - now left.
  - intros j Hj. destruct j as [|j]; [reflexivity|lia].
  - reflexivity.
  - lia.
Defined.

(** ** C3: discovery returns the first match *)

Lemma calls_app t1 t2 : calls (t1 ++ t2) = calls t1 ++ calls t2.
Proof. apply filter_app. Qed.





(** A list without a deployment of the actor gives no deployment. *)
Lemma find_deployment_none actorName data :
  (forall x, In x data -> created_by actorName x = false) ->
  forall d, snd (find_deployment actorName data) <> Returned (Some d).
Proof.
  intros Hall d.
  destruct (find_deployment_cases actorName data)
    as [(pre & d' & post & -> & Hd & _ & _)|[[_ ->]|(_ & _ & _ & _ & _ & _ & ->)]];
    try discriminate.
  rewrite Hall in Hd by (apply in_elt). discriminate.
Qed.

Lemma waitForDeploymentToStart_attempt_calls w owner repo sha environment
    actorName interval iterations i :
  List.length
    (calls (fst (waitForDeploymentToStart_attempt w owner repo sha environment
                   actorName interval iterations i))) = 1.
Proof.
  rewrite waitForDeploymentToStart_attempt_spec.
  destruct (listDeployments w owner repo sha environment i) as [data|e];
    [find_cases actorName data|]; reflexivity.
Qed.

Lemma discovery_attempt_no_match w owner repo sha environment actorName
    interval iterations j :
  match listDeployments w owner repo sha environment j with
  | Resolved data => forall x, In x data -> created_by actorName x = false
  | Rejected _ => True
  end ->
  snd (waitForDeploymentToStart_attempt w owner repo sha environment actorName
         interval iterations j) = Returned None.
Proof.
  intros H. rewrite waitForDeploymentToStart_attempt_spec.
  destruct (listDeployments w owner repo sha environment j) as [data|e];
    trivial.
  pose proof (find_deployment_none actorName data H) as Hnone.
  find_cases actorName data; trivial.
  rewrite Hfind in Hnone. now destruct (Hnone _ eq_refl).
Qed.




(** ** C7: an error costs one attempt *)

(** A loop whose iterations never throw returns at its first returning
    iteration, which is at most any returning one. *)
Lemma for_loop_returns_some {R} (iterations : integral)
    (body : nat -> Eff (option R)) k v fuel :
  (forall j, exists r, snd (body j) = Returned r) ->
  snd (body k) = Returned (Some v) ->
  lt_iterations k iterations = true ->
  k < fuel ->
  exists k' v',
    k' <= k /\ snd (body k') = Returned (Some v') /\
    for_loop fuel iterations body 0 =
    (retries body 0 k' ++ fst (body k'), Returned (Some v')).
Proof.
  intros Htotal Hk Hlt Hfuel.
  destruct (first_return_or_none body Htotal (S k))
    as [(k' & v' & Hk' & Hv' & Hb)|Hnone].
  - exists k', v'. repeat split; [lia|trivial|].
    apply for_loop_returns; trivial; [|lia].
    apply (lt_iterations_mono iterations k); [lia|trivial].
  - rewrite Hnone in Hk by lia. discriminate.
Qed.

(** C7. In each poller, a rejected request at attempt [k] is caught inside
    that attempt: the attempt prints, sleeps one interval and falls through
    to attempt [k + 1], and nothing is thrown.  When attempt [k + 1] is
    within the budget and succeeds, the invocation returns a success and
    signals no timeout; when the attempts before [k] fell through as well,
    it is the payload of attempt [k + 1], reached after exactly [k + 1]
    retried attempts. *)
Theorem error_costs_one_attempt (w : World) (maxTimeout interval : number)
    (k fuel : nat) :
  let iterations := calculateIterations maxTimeout interval in
  lt_iterations (S k) iterations = true ->
  S k < fuel ->
  (forall url path href e,
     URL_href w path url = Some href ->
     axios_get w href k = Rejected e ->
     let attempt := waitForUrl_attempt w url path interval iterations in
     let result := waitForUrl w fuel url maxTimeout interval path in
     (exists logs, logs <> [] /\ Forall is_log logs /\
        attempt k = (AxiosGet href :: logs ++ [Wait interval], Returned None)) /\
     (snd (attempt (S k)) = Returned (Some tt) ->
      snd result = Returned tt /\ failures (fst result) = [] /\
      ((forall j, j < k -> snd (attempt j) = Returned None) ->
       result = (retries attempt 0 (S k) ++ fst (attempt (S k)), Returned tt)))) /\
  (forall owner repo deployment_id allowInactive e,
     listDeploymentStatuses w owner repo deployment_id k = Rejected e ->
     let attempt :=
       waitForStatus_attempt w owner repo deployment_id allowInactive interval
         iterations in
     let result :=
       waitForStatus w fuel owner repo deployment_id maxTimeout allowInactive
         interval in
     (exists logs, logs <> [] /\ Forall is_log logs /\
        attempt k =
        (ListDeploymentStatuses owner repo deployment_id :: logs ++ [Wait interval],
         Returned None)) /\
     (forall s, snd (attempt (S k)) = Returned (Some s) ->
      (exists s', snd result = Returned (Some s')) /\
      failures (fst result) = [] /\
      ((forall j, j < k -> snd (attempt j) = Returned None) ->
       result =
       (retries attempt 0 (S k) ++ fst (attempt (S k)), Returned (Some s))))) /\
  (forall owner repo sha environment actorName e,
     listDeployments w owner repo sha environment k = Rejected e ->
     let attempt :=
       waitForDeploymentToStart_attempt w owner repo sha environment actorName
         interval iterations in
     let result :=
       waitForDeploymentToStart w fuel owner repo sha environment actorName
         (Some maxTimeout) (Some interval) in
     attempt k =
       ([ListDeployments owner repo sha environment;
         ConsoleLog (FetchErrorRetry (k + 1) iterations);
         ConsoleError e; Wait interval], Returned None) /\
     (forall d, snd (attempt (S k)) = Returned (Some d) ->
      (exists d', snd result = Returned (Some d')) /\
      failures (fst result) = [] /\
      ((forall j, j < k -> snd (attempt j) = Returned None) ->
       result =
       (retries attempt 0 (S k) ++ fst (attempt (S k)), Returned (Some d))))).
Proof.
  intros iterations Hlt Hfuel.
  assert (Hall : forall {R} (body : nat -> Eff (option R)),
            snd (body k) = Returned None ->
            (forall j, j < k -> snd (body j) = Returned None) ->
            forall j, j < S k -> snd (body j) = Returned None).
  { intros R body Hk Hb j Hj.
    destruct (Nat.eq_dec j k) as [->|]; trivial. apply Hb. lia. }
  split; [|split].
  - intros url path href e Hhref Hget attempt result.
    assert (Hk : attempt k =
              (AxiosGet href :: waitForUrl_logs iterations k e ++ [Wait interval],
               Returned None)).
    { unfold attempt. now rewrite waitForUrl_attempt_spec, Hhref, Hget. }
    split.
    { exists (waitForUrl_logs iterations k e).
      destruct (waitForUrl_logs_logged iterations k e). now repeat split. }
    intros Hnext. unfold result, waitForUrl. fold iterations. fold attempt.
    destruct (for_loop_returns_some iterations attempt (S k) tt fuel)
      as (k' & [] & Hk' & Hv' & Hloop); trivial.
    { intros j. destruct (waitForUrl_attempt_total w url path interval iterations j)
        as (r & Hr & _). now exists r. }
    repeat split.
    + now rewrite Hloop.
    + rewrite Hloop, bind_returned. cbn [ret fst snd].
      rewrite !failures_app.
      destruct (waitForUrl_retries_silent w url path maxTimeout interval 0 k')
        as [Hf _]. fold iterations in Hf. fold attempt in Hf. rewrite Hf.
      destruct (waitForUrl_attempt_total w url path interval iterations k')
        as (r & _ & Hf' & _). fold attempt in Hf'. now rewrite Hf'.
    + intros Hb.
      rewrite (for_loop_returns iterations attempt (S k) tt fuel); trivial.
      * rewrite bind_returned. cbn [ret fst snd]. now rewrite app_nil_r.
      * apply Hall; trivial. now rewrite Hk.
  - intros owner repo deployment_id allowInactive e Hreply attempt result.
    assert (Hk : attempt k =
              (ListDeploymentStatuses owner repo deployment_id ::
                 waitForStatus_logs iterations k e ++ [Wait interval],
               Returned None)).
    { unfold attempt. now rewrite waitForStatus_attempt_spec, Hreply. }
    split.
    { exists (waitForStatus_logs iterations k e).
      destruct (waitForStatus_logs_logged iterations k e). now repeat split. }
    intros s Hnext. unfold result, waitForStatus. fold iterations. fold attempt.
    destruct (for_loop_returns_some iterations attempt (S k) s fuel)
      as (k' & s' & Hk' & Hv' & Hloop); trivial.
    { intros j.
      destruct (waitForStatus_attempt_total w owner repo deployment_id
                  allowInactive interval iterations j) as (r & Hr & _).
      now exists r. }
    repeat split.
    + exists s'. now rewrite Hloop.
    + rewrite Hloop, bind_returned. cbn [ret fst snd].
      rewrite !failures_app.
      destruct (waitForStatus_retries_silent w owner repo deployment_id
                  maxTimeout allowInactive interval 0 k') as [Hf _].
      fold iterations in Hf. fold attempt in Hf. rewrite Hf.
      destruct (waitForStatus_attempt_total w owner repo deployment_id
                  allowInactive interval iterations k') as (r & _ & Hf' & _).
      fold attempt in Hf'. now rewrite Hf'.
    + intros Hb.
      rewrite (for_loop_returns iterations attempt (S k) s fuel); trivial.
      * rewrite bind_returned. cbn [ret fst snd]. now rewrite app_nil_r.
      * apply Hall; trivial. now rewrite Hk.
  - intros owner repo sha environment actorName e Hreply attempt result.
    assert (Hk : attempt k =
              ([ListDeployments owner repo sha environment;
                ConsoleLog (FetchErrorRetry (k + 1) iterations);
                ConsoleError e; Wait interval], Returned None)).
    { unfold attempt. now rewrite waitForDeploymentToStart_attempt_spec, Hreply. }
    split; trivial.
    intros d Hnext. unfold result, waitForDeploymentToStart.
    fold iterations. fold attempt.
    destruct (for_loop_returns_some iterations attempt (S k) d fuel)
      as (k' & d' & Hk' & Hv' & Hloop); trivial.
    { intros j.
      destruct (waitForDeploymentToStart_attempt_total w owner repo sha
                  environment actorName interval iterations j) as (r & Hr & _).
      now exists r. }
    repeat split.
    + exists d'. now rewrite Hloop.
    + rewrite Hloop. cbn [fst]. rewrite !failures_app.
      destruct (waitForDeploymentToStart_retries_silent w owner repo sha
                  environment actorName maxTimeout interval 0 k') as [Hf _].
      fold iterations in Hf. fold attempt in Hf. rewrite Hf.
      destruct (waitForDeploymentToStart_attempt_total w owner repo sha
                  environment actorName interval iterations k')
        as (r & _ & Hf' & _).
      fold attempt in Hf'. now rewrite Hf'.
    + intros Hb.
      apply (for_loop_returns iterations attempt (S k) d fuel); trivial.
      apply Hall; trivial. now rewrite Hk.
Qed.

Lemma error_costs_one_attempt_witness :
  waitForUrl Scenario.world 31 "https://preview-42.example.com" (of_Z 60%Z)
    (of_Z 2000%Z) "/" =
  ([AxiosGet "https://preview-42.example.com/";
    ConsoleLog (GetNoResponse 0 (Int 30));
    ConsoleLog (Text "socket hang up");
    Wait (of_Z 2000%Z);
    AxiosGet "https://preview-42.example.com/";
    ConsoleLog (Text "Received success status code")], Returned tt).
Proof.
  pose proof (error_costs_one_attempt Scenario.world (of_Z 60%Z) (of_Z 2000%Z)
                0 31 eq_refl) as H.
  destruct H as [H _]; [lia|].
  destruct (H "https://preview-42.example.com"%string "/"%string
              "https://preview-42.example.com/"%string
              (AxiosError None true "socket hang up") eq_refl eq_refl)
    as [_ H'].
  destruct (H' eq_refl) as (_ & _ & Hres).
  rewrite Hres; [reflexivity | intros j Hj; lia].
Defined.

(** ** What [core.getInput] hands over *)

Lemma Boolean_empty (s : string) : Boolean s = false <-> s = ""%string.
Proof. destruct s; split; trivial; discriminate. Qed.

Lemma trimStart_blank s :
  trimStart s = ""%string <->
  forallb is_white_space (list_ascii_of_string s) = true.
Proof.
  induction s as [|c s IH]; cbn [trimStart list_ascii_of_string forallb].
  - now split.
  - destruct (is_white_space c); [exact IH|]. split; discriminate.
Qed.

Lemma trimEnd_blank s :
  trimEnd s = ""%string <->
  forallb is_white_space (list_ascii_of_string s) = true.
Proof.
  induction s as [|c s IH]; cbn [trimEnd list_ascii_of_string forallb].
  - now split.
  - destruct (trimEnd s) as [|c' kept].
    + rewrite (proj1 IH eq_refl), andb_true_r.
      destruct (is_white_space c); split; trivial; discriminate.
    + split; [discriminate|]. intros H. apply andb_true_iff in H as [_ H].
      apply IH in H. discriminate.
Qed.

Lemma trimStart_white_space s :
  forallb is_white_space (list_ascii_of_string (trimStart s)) =
  forallb is_white_space (list_ascii_of_string s).
Proof.
  induction s as [|c s IH]; trivial. cbn [trimStart].
  destruct (is_white_space c) eqn:Hc; trivial.
  cbn [list_ascii_of_string forallb]. now rewrite Hc.
Qed.

(** A string trims to nothing exactly when it holds white space only. *)
Lemma trim_blank s :
  trim s = ""%string <->
  forallb is_white_space (list_ascii_of_string s) = true.
Proof.
  unfold trim. now rewrite trimEnd_blank, trimStart_white_space.
Qed.

(** What is left of a string after trimming is not empty only if the
    string is not. *)
Lemma Boolean_trim s : Boolean (trim s) = true -> Boolean s = true.
Proof. now destruct s. Qed.

(** ** C9: the [allow_inactive] input *)

(** The claim C9 fails for an input of one space: it is not empty, and the
    flag is false, as [core.getInput] hands the input over trimmed. *)
Lemma blank_allow_inactive :
  let inp :=
    {| token := "t0ken"; environment := "preview"; actor_name := "bot-x";
       max_timeout := of_Z 60%Z; allow_inactive := " "; path := "/";
       check_interval := of_Z 2%Z |} in
  allow_inactive inp <> ""%string /\ ALLOW_INACTIVE inp = false.
Proof. split; [discriminate|reflexivity]. Qed.

(** C9, as the program has it.  The flag parsed from the [allow_inactive]
    input is the truthiness of the trimmed input: it is true for every
    input that holds a character other than white space, the string "false"
    among them, and false exactly for an input that is empty or holds white
    space only. *)
Theorem allow_inactive_is_nonblank :
  (forall inp, ALLOW_INACTIVE inp = Boolean (trim (allow_inactive inp))) /\
  (forall inp,
     ALLOW_INACTIVE inp = true <->
     forallb is_white_space (list_ascii_of_string (allow_inactive inp)) = false) /\
  (forall inp,
     ALLOW_INACTIVE inp = false <->
     forallb is_white_space (list_ascii_of_string (allow_inactive inp)) = true) /\
  (forall inp, allow_inactive inp = "false"%string -> ALLOW_INACTIVE inp = true) /\
  (forall inp, allow_inactive inp = ""%string -> ALLOW_INACTIVE inp = false).
Proof.
  assert (Hflag : forall inp,
            ALLOW_INACTIVE inp = Boolean (trim (allow_inactive inp))).
  { intros inp. unfold ALLOW_INACTIVE, getInput. apply orb_false_r. }
  assert (Hfalse : forall inp,
            ALLOW_INACTIVE inp = false <->
            forallb is_white_space (list_ascii_of_string (allow_inactive inp)) =
            true).
  { intros inp. now rewrite Hflag, Boolean_empty, trim_blank. }
  split; [exact Hflag|split; [|split; [exact Hfalse|split]]].
  - intros inp. specialize (Hfalse inp).
    destruct (ALLOW_INACTIVE inp),
      (forallb is_white_space (list_ascii_of_string (allow_inactive inp)));
      intuition congruence.
  - intros inp H. now rewrite Hflag, H.
  - intros inp H. now rewrite Hflag, H.
Qed.

(** ** The orchestrator, stage by stage *)

Lemma bind_spec {A B} (m : Eff A) (k : A -> Eff B) :
  bind m k =
  match snd m with
  | Returned a => (fst m ++ fst (k a), snd (k a))
  | Thrown e => (fst m, Thrown e)
  | Running => (fst m, Running)
  end.
Proof.
  destruct m as [t [a|e|]]; trivial. apply bind_returned.
Qed.

Lemma quiet_silent (t : trace) :
  Forall quiet t <-> failures t = [] /\ outputs t = [].
Proof.
  induction t as [|ev t IH]; [now repeat constructor|].
  split.
  - intros H. inversion H as [|? ? Hev Ht]; subst. apply IH in Ht as [Hf Ho].
    destruct ev; try contradiction; now split.
  - intros [Hf Ho]. destruct ev; try discriminate;
      constructor; try exact I; now apply IH.
Qed.

Ltac status_events :=
  repeat first
    [ apply Forall_nil
    | apply Forall_cons;
      [ split; [exact I | first [left; reflexivity | right; reflexivity]] | ] ].

Section Stages.

Variable w : World.

(** What each poller's trace is made of, however far the model follows it. *)
Lemma waitForDeploymentToStart_trace fuel owner repo sha environment actorName
    maxTimeout interval :
  let result :=
    waitForDeploymentToStart w fuel owner repo sha environment actorName
      maxTimeout interval in
  Forall (fun ev => quiet ev /\ level ev <= 1) (fst result) /\
  forall e, snd result <> Thrown e.
Proof.
  unfold waitForDeploymentToStart. split.
  - apply for_loop_Forall. intros j.
    rewrite waitForDeploymentToStart_attempt_spec.
    destruct (listDeployments w owner repo sha environment j) as [data|e];
      [find_cases actorName data|];
      repeat constructor.
  - intros e. apply for_loop_no_throw. intros j e'.
    destruct (waitForDeploymentToStart_attempt_total w owner repo sha
                environment actorName
                match interval with Some x => x | None => of_Z 2000%Z end
                (calculateIterations
                   match maxTimeout with Some x => x | None => of_Z 20%Z end
                   match interval with Some x => x | None => of_Z 2000%Z end) j)
      as (r & Hr & _).
    rewrite Hr. discriminate.
Qed.

Lemma waitForStatus_trace fuel owner repo deployment_id maxTimeout
    allowInactive interval :
  let result :=
    waitForStatus w fuel owner repo deployment_id maxTimeout allowInactive
      interval in
  Forall (fun ev => level ev = 0 \/ level ev = 2) (fst result) /\
  outputs (fst result) = [] /\
  (forall e, snd result <> Thrown e) /\
  (forall s, snd result = Returned (Some s) -> failures (fst result) = []).
Proof.
  unfold waitForStatus.
  set (iterations := calculateIterations maxTimeout interval).
  set (attempt := waitForStatus_attempt w owner repo deployment_id
                    allowInactive interval iterations).
  assert (Hloop : Forall (fun ev => quiet ev /\ (level ev = 0 \/ level ev = 2))
                    (fst (for_loop fuel iterations attempt 0))).
  { apply for_loop_Forall. intros j. unfold attempt.
    rewrite waitForStatus_attempt_spec.
    destruct (listDeploymentStatuses w owner repo deployment_id j)
      as [[|s older]|e].
    - status_events.
    - destruct (accepted allowInactive s); status_events.
    - constructor; [now split; [|right]|].
      apply Forall_app. split; [|status_events].
      unfold waitForStatus_logs.
      constructor; [now split; [|right]|].
      destruct e as [m|m|r q m|m];
        try destruct (includes no_success_prefix m); status_events. }
  assert (Hthrow : forall e, snd (for_loop fuel iterations attempt 0) <> Thrown e).
  { intros e. apply for_loop_no_throw. intros j e'.
    destruct (waitForStatus_attempt_total w owner repo deployment_id
                allowInactive interval iterations j) as (r & Hr & _).
    fold attempt in Hr. rewrite Hr. discriminate. }
  assert (Hquiet : Forall quiet (fst (for_loop fuel iterations attempt 0))).
  { eapply Forall_impl; [|exact Hloop]. now intros ev []. }
  apply quiet_silent in Hquiet as [Hf Ho].
  rewrite bind_spec.
  destruct (for_loop fuel iterations attempt 0) as [t [[s|]|e|]];
    cbn [fst snd ret setFailed emit bind app] in *.
  - rewrite app_nil_r. repeat split; trivial; try discriminate.
    eapply Forall_impl; [|exact Hloop]. now intros ev [].
  - rewrite outputs_app, Ho. repeat split; try discriminate.
    apply Forall_app. split; [|repeat constructor; now left].
    eapply Forall_impl; [|exact Hloop]. now intros ev [].
  - now destruct (Hthrow e).
  - repeat split; trivial; try discriminate.
    eapply Forall_impl; [|exact Hloop]. now intros ev [].
Qed.

Lemma waitForUrl_trace fuel url maxTimeout interval path :
  let result := waitForUrl w fuel url maxTimeout interval path in
  outputs (fst result) = [] /\
  (forall e, snd result <> Thrown e) /\
  (failures (fst result) = [] \/
   failures (fst result) =
     ["Timeout reached: Unable to connect to " ++ url]%string).
Proof.
  unfold waitForUrl.
  set (iterations := calculateIterations maxTimeout interval).
  set (attempt := waitForUrl_attempt w url path interval iterations).
  assert (Hquiet : Forall quiet (fst (for_loop fuel iterations attempt 0))).
  { apply for_loop_Forall. intros j. apply quiet_silent.
    destruct (waitForUrl_attempt_total w url path interval iterations j)
      as (r & _ & Hf & Ho). now split. }
  assert (Hthrow : forall e, snd (for_loop fuel iterations attempt 0) <> Thrown e).
  { intros e. apply for_loop_no_throw. intros j e'.
    destruct (waitForUrl_attempt_total w url path interval iterations j)
      as (r & Hr & _).
    fold attempt in Hr. rewrite Hr. discriminate. }
  apply quiet_silent in Hquiet as [Hf Ho].
  rewrite bind_spec.
  destruct (for_loop fuel iterations attempt 0) as [t [[s|]|e|]];
    cbn [fst snd ret setFailed emit bind app] in *.
  - rewrite app_nil_r. repeat split; trivial; try discriminate. now left.
  - rewrite outputs_app, failures_app, Ho, Hf.
    repeat split; try discriminate. now right.
  - now destruct (Hthrow e).
  - repeat split; trivial; try discriminate. now left.
Qed.


End Stages.

Section RunSpec.

Variable w : World.

Lemma resolve_sha_trace ctx :
  let result := resolve_sha w ctx in
  Forall (fun ev => level ev = 0) (fst result) /\
  outputs (fst result) = [] /\
  snd result <> Running /\
  (forall sha, snd result = Returned (Some sha) -> failures (fst result) = []).
Proof.
  unfold resolve_sha, getShaForPullRequest.
  assert (Hcase : forall t (c : completion (option string)),
            Forall (fun ev => level ev = 0) t ->
            outputs t = [] ->
            c <> Running ->
            (forall sha, c = Returned (Some sha) -> failures t = []) ->
            Forall (fun ev => level ev = 0) (fst (t, c)) /\
            outputs (fst (t, c)) = [] /\
            snd (t, c) <> Running /\
            (forall sha, snd (t, c) = Returned (Some sha) ->
                         failures (fst (t, c)) = [])) by now repeat split.
  destruct (pull_request ctx) as [[[|n]|]|]; eff_unfold; cbn [app].
  - apply Hcase; [repeat constructor | reflexivity | discriminate | discriminate].
  - destruct (pulls_get w (owner ctx) (repo ctx) (S n)) as [pr|e]; cbn [app].
    + destruct (negb (status pr =? 200)); cbn [app]; apply Hcase;
        try discriminate; try reflexivity; repeat constructor.
    + apply Hcase; [repeat constructor | reflexivity | discriminate | discriminate].
  - apply Hcase; [repeat constructor | reflexivity | discriminate | discriminate].
  - destruct (Boolean (sha ctx)); apply Hcase;
      try discriminate; try reflexivity; repeat constructor.
Qed.

Lemma run_with_status_spec fuel inp st :
  run_with_status w fuel inp st =
  match st with
  | None =>
      ([], Thrown (TypeError
             "Cannot read properties of undefined (reading 'environment_url')"))
  | Some s =>
      let targetUrl := js_string (environment_url s) in
      match URL_host w targetUrl with
      | None => ([], Thrown (TypeError "Invalid URL"))
      | Some targetHost =>
          if falsy (environment_url s) then
            ([SetFailed "no target_url found in the status check"], Returned tt)
          else
            let reach :=
              waitForUrl w fuel targetUrl (MAX_TIMEOUT inp)
                (CHECK_INTERVAL_IN_MS inp) (PATH inp) in
            ([ConsoleLog (TargetUrl targetUrl); ConsoleLog (TargetHost targetHost);
              SetOutput "url" targetUrl; SetOutput "host" targetHost;
              ConsoleLog (WaitingFor targetUrl)] ++ fst reach, snd reach)
      end
  end.
Proof.
  unfold run_with_status. destruct st as [s|]; [|reflexivity].
  cbn [bind ret app]. cbv zeta.
  destruct (URL_host w (js_string (environment_url s))) as [host|]; [|reflexivity].
  cbn [bind ret app].
  destruct (falsy (environment_url s)); [reflexivity|].
  eff_unfold. cbn [app].
  now destruct (waitForUrl w fuel (js_string (environment_url s)) (MAX_TIMEOUT inp)
                  (CHECK_INTERVAL_IN_MS inp) (PATH inp)).
Qed.

Lemma run_with_sha_spec fuel inp ctx tok sha :
  run_with_sha w fuel inp ctx tok sha =
  let found :=
    waitForDeploymentToStart w fuel (owner ctx) (repo ctx) sha
      (ENVIRONMENT inp) (ACTOR_NAME inp)
      (Some (MAX_TIMEOUT inp)) (Some (CHECK_INTERVAL_IN_MS inp)) in
  match snd found with
  | Returned None =>
      (fst found ++ [SetFailed "no deployment found, exiting..."], Returned tt)
  | Returned (Some d) =>
      let polled :=
        waitForStatus w fuel (owner ctx) (repo ctx) (id d) (MAX_TIMEOUT inp)
          (ALLOW_INACTIVE inp) (CHECK_INTERVAL_IN_MS inp) in
      match snd polled with
      | Returned st =>
          (fst found ++ fst polled ++ fst (run_with_status w fuel inp st),
           snd (run_with_status w fuel inp st))
      | Thrown e => (fst found ++ fst polled, Thrown e)
      | Running => (fst found ++ fst polled, Running)
      end
  | Thrown e => (fst found, Thrown e)
  | Running => (fst found, Running)
  end.
Proof.
  unfold run_with_sha. rewrite bind_spec. cbv zeta.
  destruct (snd (waitForDeploymentToStart w fuel (owner ctx) (repo ctx) sha
                   (ENVIRONMENT inp) (ACTOR_NAME inp) (Some (MAX_TIMEOUT inp))
                   (Some (CHECK_INTERVAL_IN_MS inp)))) as [[d|]|e|];
    trivial.
  rewrite bind_spec.
  destruct (snd (waitForStatus w fuel (owner ctx) (repo ctx) (id d)
                   (MAX_TIMEOUT inp) (ALLOW_INACTIVE inp)
                   (CHECK_INTERVAL_IN_MS inp))); trivial.
Qed.

Lemma run_spec fuel inp ctx :
  run w fuel inp ctx =
  if Boolean (GITHUB_TOKEN inp) then
    let resolved := resolve_sha w ctx in
    match snd resolved with
    | Returned sha =>
        if falsy sha then
          (fst resolved ++ [SetFailed "Unable to determine SHA. Exiting..."],
           Returned tt)
        else
          let rest :=
            run_with_sha w fuel inp ctx (GITHUB_TOKEN inp) (js_string sha) in
          match snd rest with
          | Thrown e =>
              (fst resolved ++ fst rest ++ [SetFailed (message e)], Returned tt)
          | c => (fst resolved ++ fst rest, c)
          end
    | Thrown e => (fst resolved ++ [SetFailed (message e)], Returned tt)
    | Running => (fst resolved, Running)
    end
  else if Boolean (token inp) then
    ([SetFailed "Required field `token` was not provided";
      SetFailed "Parameter token or opts.auth is required"], Returned tt)
  else ([SetFailed "Input required and not supplied: token"], Returned tt).
Proof.
  unfold run, getInput_required, getOctokit, GITHUB_TOKEN, getInput.
  destruct (Boolean (trim (token inp))) eqn:Htrim.
  - rewrite (Boolean_trim _ Htrim). cbn [bind ret app]. rewrite Htrim.
    cbn [bind ret app]. cbv zeta.
    destruct (resolve_sha w ctx) as [t0 [sha|e|]]; cbn [bind fst snd try_catch];
      trivial.
    destruct (falsy sha); [reflexivity|].
    destruct (run_with_sha w fuel inp ctx (trim (token inp)) (js_string sha))
      as [t [[]|e|]]; cbn [bind fst snd try_catch setFailed emit]; trivial.
    now rewrite app_assoc.
  - destruct (Boolean (token inp)); [|reflexivity].
    cbn [bind ret app]. rewrite Htrim. reflexivity.
Qed.

End RunSpec.

(** ** C6: a discovery timeout ends the run *)

Section Ordering.

Variables (w : World) (fuel : nat) (inp : Inputs) (ctx : Context).

Local Abbreviation discover := (run_discover w fuel inp ctx).
Local Abbreviation poll := (run_poll w fuel inp ctx).

(** The events of a run that follow the discovery stage: with them come a
    deployment that discovery returned and, for those that follow the
    status stage, a status that the status poller returned. *)
Lemma run_later_events ev :
  In ev (fst (run w fuel inp ctx)) ->
  2 <= level ev ->
  exists sha d,
    snd (discover sha) = Returned (Some d) /\
    (level ev = 3 ->
     exists s, snd (poll d) = Returned (Some s) /\
               falsy (environment_url s) = false).
Proof.
  intros Hin Hlev. rewrite run_spec in Hin.
  destruct (Boolean (GITHUB_TOKEN inp));
    [|destruct (Boolean (token inp));
      repeat destruct Hin as [<-|Hin]; try destruct Hin; simpl in Hlev; lia].
  destruct (resolve_sha_trace w ctx) as (H0 & _ & _ & _).
  rewrite Forall_forall in H0. cbv zeta in Hin.
  assert (Hfail : forall t msg,
            (forall x, In x t -> level x <= 1) ->
            In ev (t ++ [SetFailed msg]) -> False).
  { intros t msg Ht [Hx|[<-|[]]]%in_app_iff; [apply Ht in Hx; lia|].
    simpl in Hlev. lia. }
  assert (H0' : forall x, In x (fst (resolve_sha w ctx)) -> level x <= 1).
  { intros x Hx. rewrite (H0 x Hx). lia. }
  destruct (snd (resolve_sha w ctx)) as [sha|e|].
  2:{ now destruct (Hfail _ _ H0' Hin). }
  2:{ apply H0' in Hin. lia. }
  destruct (falsy sha); [now destruct (Hfail _ _ H0' Hin)|].
  rewrite run_with_sha_spec in Hin. cbv zeta in Hin.
  fold (discover (js_string sha)) in Hin.
  destruct (waitForDeploymentToStart_trace w fuel (owner ctx) (repo ctx)
              (js_string sha) (ENVIRONMENT inp) (ACTOR_NAME inp)
              (Some (MAX_TIMEOUT inp)) (Some (CHECK_INTERVAL_IN_MS inp)))
    as [H1 H1t].
  fold (discover (js_string sha)) in H1, H1t.
  rewrite Forall_forall in H1.
  assert (H01 : forall x, In x (fst (resolve_sha w ctx) ++
                               fst (discover (js_string sha))) ->
                level x <= 1).
  { intros x [Hx|Hx]%in_app_iff; auto. now apply H1 in Hx. }
  destruct (snd (discover (js_string sha))) as [[d|]|e|] eqn:Hd;
    cbn [fst snd] in Hin.
  2:{ rewrite app_assoc in Hin. now destruct (Hfail _ _ H01 Hin). }
  2:{ now destruct (H1t e). }
  2:{ apply H01 in Hin. lia. }
  fold (poll d) in Hin.
  destruct (waitForStatus_trace w fuel (owner ctx) (repo ctx) (id d)
              (MAX_TIMEOUT inp) (ALLOW_INACTIVE inp) (CHECK_INTERVAL_IN_MS inp))
    as (H2 & _ & H2t & _).
  fold (poll d) in H2, H2t. rewrite Forall_forall in H2.
  exists (js_string sha), d. split; trivial. intros H3.
  assert (Hpre : forall x, In x (fst (resolve_sha w ctx) ++
                                 fst (discover (js_string sha)) ++
                                 fst (poll d)) -> level x <> 3).
  { intros x [Hx|[Hx|Hx]%in_app_iff]%in_app_iff.
    - rewrite (H0 x Hx). discriminate.
    - apply H1 in Hx. lia.
    - destruct (H2 x Hx) as [->| ->]; discriminate. }
  destruct (snd (poll d)) as [st|e|] eqn:Hp; cbn [fst snd] in Hin.
  2:{ now destruct (H2t e). }
  2:{ rewrite app_assoc, <- app_assoc in Hin. now destruct (Hpre ev). }
  rewrite run_with_status_spec in Hin.
  destruct st as [s|]; cbn [fst snd] in Hin.
  2:{ exfalso. rewrite app_nil_r in Hin.
      rewrite !app_assoc in Hin.
      apply in_app_iff in Hin as [Hin|[<-|[]]]; [|discriminate].
      rewrite <- app_assoc in Hin. now destruct (Hpre ev). }
  exists s. split; trivial. cbv zeta in Hin.
  destruct (URL_host w (js_string (environment_url s))) as [host|];
    cbn [fst snd] in Hin.
  2:{ exfalso. rewrite app_nil_r in Hin.
      rewrite !app_assoc in Hin.
      apply in_app_iff in Hin as [Hin|[<-|[]]]; [|discriminate].
      rewrite <- app_assoc in Hin. now destruct (Hpre ev). }
  destruct (falsy (environment_url s)); trivial.
  exfalso. cbn [fst snd] in Hin.
  rewrite !app_assoc in Hin.
  apply in_app_iff in Hin as [Hin|[<-|[]]]; [|discriminate].
  rewrite <- app_assoc in Hin. now destruct (Hpre ev).
Qed.

End Ordering.

(** C6. When no attempt within the finite budget finds a deployment of the
    expected actor, the discovery poller returns [null] and throws nothing;
    [run] then reports its failure with "no deployment found, exiting..."
    and returns, its trace holding no event of the status stage or of what
    follows it.  In every run, an event of the status stage or later comes
    with a deployment that discovery returned, and an event after the
    status stage with a status that the status poller returned. *)
Theorem discovery_timeout_is_fatal (w : World) (fuel : nat) (inp : Inputs)
    (ctx : Context) :
  (forall n sha,
     budget (calculateIterations (MAX_TIMEOUT inp) (CHECK_INTERVAL_IN_MS inp))
       = Some n ->
     n < fuel ->
     (forall j, j < n ->
        match listDeployments w (owner ctx) (repo ctx) sha (ENVIRONMENT inp) j with
        | Resolved data =>
            forall x, In x data -> created_by (ACTOR_NAME inp) x = false
        | Rejected _ => True
        end) ->
     snd (run_discover w fuel inp ctx sha) = Returned None /\
     failures (fst (run_discover w fuel inp ctx sha)) = [] /\
     forall t0,
       Boolean (GITHUB_TOKEN inp) = true ->
       resolve_sha w ctx = (t0, Returned (Some sha)) ->
       Boolean sha = true ->
       run w fuel inp ctx =
       (t0 ++ fst (run_discover w fuel inp ctx sha) ++
          [SetFailed "no deployment found, exiting..."],
        Returned tt) /\
       failures (fst (run w fuel inp ctx)) =
         ["no deployment found, exiting..."%string] /\
       Forall (fun ev => level ev <= 1) (fst (run w fuel inp ctx))) /\
  (forall ev,
     In ev (fst (run w fuel inp ctx)) ->
     2 <= level ev ->
     exists sha d,
       snd (run_discover w fuel inp ctx sha) = Returned (Some d) /\
       (level ev = 3 ->
        exists s, snd (run_poll w fuel inp ctx d) = Returned (Some s))).
Proof.
  split.
  - intros n sha Hn Hfuel Hnone.
    assert (Hd : run_discover w fuel inp ctx sha =
              (retries (waitForDeploymentToStart_attempt w (owner ctx) (repo ctx)
                          sha (ENVIRONMENT inp) (ACTOR_NAME inp)
                          (CHECK_INTERVAL_IN_MS inp)
                          (calculateIterations (MAX_TIMEOUT inp)
                             (CHECK_INTERVAL_IN_MS inp))) 0 n,
               Returned None)).
    { apply waitForDeploymentToStart_times_out; trivial.
      intros j Hj. now apply discovery_attempt_no_match, Hnone. }
    destruct (waitForDeploymentToStart_trace w fuel (owner ctx) (repo ctx) sha
                (ENVIRONMENT inp) (ACTOR_NAME inp) (Some (MAX_TIMEOUT inp))
                (Some (CHECK_INTERVAL_IN_MS inp))) as [Ht _].
    fold (run_discover w fuel inp ctx sha) in Ht.
    assert (Hq : Forall quiet (fst (run_discover w fuel inp ctx sha))).
    { eapply Forall_impl; [|exact Ht]. now intros ev []. }
    apply quiet_silent in Hq as [Hf _].
    split; [now rewrite Hd|]. split; trivial.
    intros t0 Htok Hsha Hne.
    destruct (resolve_sha_trace w ctx) as (H0 & _ & _ & Hf0).
    rewrite Hsha in H0, Hf0. cbn [fst snd] in H0, Hf0.
    assert (Hrun : run w fuel inp ctx =
              (t0 ++ fst (run_discover w fuel inp ctx sha) ++
                 [SetFailed "no deployment found, exiting..."], Returned tt)).
    { rewrite run_spec, Htok, Hsha. cbn [fst snd falsy js_string]. cbv zeta.
      rewrite Hne. cbn [negb]. rewrite run_with_sha_spec. cbv zeta.
      fold (run_discover w fuel inp ctx sha). rewrite Hd. reflexivity. }
    split; trivial. rewrite Hrun. cbn [fst]. split.
    + rewrite !failures_app, (Hf0 sha eq_refl), Hf. reflexivity.
    + apply Forall_app. split.
      * eapply Forall_impl; [|exact H0]. intros ev ->. lia.
      * apply Forall_app. split; [|repeat constructor].
        eapply Forall_impl; [|exact Ht]. now intros ev [].
  - intros ev Hin Hlev.
    destruct (run_later_events w fuel inp ctx ev Hin Hlev) as (sha & d & Hd & H3).
    exists sha, d. split; trivial.
    intros H. destruct (H3 H) as (s & Hs & _). now exists s.
Qed.

Lemma discovery_timeout_is_fatal_witness :
  snd (run_discover Failing.nobody 3 Failing.inputs Scenario.context "abc123") =
    Returned None /\
  failures (fst (run Failing.nobody 3 Failing.inputs Scenario.context)) =
    ["no deployment found, exiting..."%string].
Proof.
  destruct (discovery_timeout_is_fatal Failing.nobody 3 Failing.inputs
              Scenario.context) as [H _].
  destruct (H 2 "abc123"%string eq_refl) as (Hnull & _ & Hrun).
  - lia.
  - intros j Hj x Hx. destruct Hx as [<-|[]]. reflexivity.
  - split; [exact Hnull|].
    now destruct (Hrun [] eq_refl eq_refl eq_refl) as (_ & Hfail & _).
Defined.

(** ** C5: outputs and failures *)




(** The end-to-end scenario of the specification: discovery finds the
    deployment at its third attempt, the status is successful at the second,
    the address answers at the second GET. *)
Example end_to_end_scenario :
  let result := run Scenario.world 31 Scenario.inputs Scenario.context in
  snd result = Returned tt /\
  failures (fst result) = [] /\
  outputs (fst result) =
    [("url", "https://preview-42.example.com");
     ("host", "preview-42.example.com")]%string /\
  List.length (calls (fst result)) = 7.
Proof. vm_compute. repeat split. Qed.

(** A maximum of [Infinity] makes the budget [Infinity]. *)
Example unbounded_budget :
  calculateIterations (S754_infinity false) (of_Z 2000%Z) = Infty false /\
  budget (Infty false) = None.
Proof. split; reflexivity. Qed.

Example discovery_timeout_run :
  run Failing.nobody 3 Failing.inputs Scenario.context =
  ([ListDeployments "octo" "site" "abc123" "preview";
    ConsoleLog (NoDeploymentRetry "bot-x" 1 (Int 2));
    Wait (of_Z 2000%Z);
    ListDeployments "octo" "site" "abc123" "preview";
    ConsoleLog (NoDeploymentRetry "bot-x" 2 (Int 2));
    Wait (of_Z 2000%Z);
    SetFailed "no deployment found, exiting..."],
   Returned tt).
Proof. reflexivity. Qed.

(** ** C8: a status without an address *)

(** C8, as the program has it.  The URL constructor rejects the empty
    string and the text of [undefined].  So, when the status poller returns
    a status whose [environment_url] is absent, line 292 throws before the
    test of line 294 is reached: the run reports "Invalid URL", once, as it
    does for any address that does not parse, and the report "no target_url
    found in the status check" of line 295 is made for no status at all. *)
Theorem absent_url_reports_invalid_url (w : World) (fuel : nat) (inp : Inputs)
    (ctx : Context) :
  URL_host w "" = None ->
  URL_host w "undefined" = None ->
  (forall s,
     falsy (environment_url s) = true ->
     run_with_status w fuel inp (Some s) = ([], Thrown (TypeError "Invalid URL"))) /\
  (forall s,
     URL_host w (js_string (environment_url s)) = None ->
     run_with_status w fuel inp (Some s) = ([], Thrown (TypeError "Invalid URL"))) /\
  (forall st,
     ~ In (SetFailed "no target_url found in the status check")
          (fst (run_with_status w fuel inp st))) /\
  (forall t0 sha d s,
     Boolean (GITHUB_TOKEN inp) = true ->
     resolve_sha w ctx = (t0, Returned (Some sha)) ->
     Boolean sha = true ->
     snd (run_discover w fuel inp ctx sha) = Returned (Some d) ->
     snd (run_poll w fuel inp ctx d) = Returned (Some s) ->
     falsy (environment_url s) = true ->
     snd (run w fuel inp ctx) = Returned tt /\
     failures (fst (run w fuel inp ctx)) = ["Invalid URL"%string]).
Proof.
  intros Hempty Hundef.
  assert (Habsent : forall s, falsy (environment_url s) = true ->
                    URL_host w (js_string (environment_url s)) = None).
  { intros s. destruct (environment_url s) as [[|c u]|]; simpl; trivial.
    discriminate. }
  assert (Hinvalid : forall s,
            URL_host w (js_string (environment_url s)) = None ->
            run_with_status w fuel inp (Some s) =
            ([], Thrown (TypeError "Invalid URL"))).
  { intros s Hs. rewrite run_with_status_spec. cbv zeta. now rewrite Hs. }
  split; [|split; [|split]]; trivial.
  - intros s Hs. apply Hinvalid, Habsent, Hs.
  - intros st Hin. rewrite run_with_status_spec in Hin.
    destruct st as [s|]; [|destruct Hin]. cbv zeta in Hin.
    destruct (URL_host w (js_string (environment_url s))) as [host|] eqn:Hhost;
      [|destruct Hin].
    destruct (falsy (environment_url s)) eqn:Hf.
    { rewrite (Habsent s Hf) in Hhost. discriminate. }
    cbn [fst] in Hin.
    assert (Hfail : In "no target_url found in the status check"%string
                      (failures
                         (fst (waitForUrl w fuel (js_string (environment_url s))
                                 (MAX_TIMEOUT inp) (CHECK_INTERVAL_IN_MS inp)
                                 (PATH inp))))).
    { apply in_app_iff in Hin as [Hin|Hin].
      - simpl in Hin. repeat destruct Hin as [Hin|Hin]; try discriminate.
        destruct Hin.
      - unfold failures. apply in_flat_map. eexists. split; [exact Hin|].
        now left. }
    destruct (waitForUrl_trace w fuel (js_string (environment_url s))
                (MAX_TIMEOUT inp) (CHECK_INTERVAL_IN_MS inp) (PATH inp))
      as (_ & _ & [Hf3|Hf3]); rewrite Hf3 in Hfail.
    + destruct Hfail.
    + destruct Hfail as [Heq|[]]. discriminate.
  - intros t0 sha d s Htok Hsha Hne Hd Hp Hs. unfold run_discover in Hd.
    unfold run_poll in Hp.
    destruct (resolve_sha_trace w ctx) as (_ & _ & _ & Hf0).
    rewrite Hsha in Hf0. cbn [fst snd] in Hf0. specialize (Hf0 _ eq_refl).
    destruct (waitForDeploymentToStart_trace w fuel (owner ctx) (repo ctx) sha
                (ENVIRONMENT inp) (ACTOR_NAME inp) (Some (MAX_TIMEOUT inp))
                (Some (CHECK_INTERVAL_IN_MS inp))) as [H1 _].
    assert (Hq : Forall quiet
                   (fst (waitForDeploymentToStart w fuel (owner ctx) (repo ctx)
                           sha (ENVIRONMENT inp) (ACTOR_NAME inp)
                           (Some (MAX_TIMEOUT inp))
                           (Some (CHECK_INTERVAL_IN_MS inp))))).
    { eapply Forall_impl; [|exact H1]. now intros ev []. }
    apply quiet_silent in Hq as [Hf1 _].
    destruct (waitForStatus_trace w fuel (owner ctx) (repo ctx) (id d)
                (MAX_TIMEOUT inp) (ALLOW_INACTIVE inp) (CHECK_INTERVAL_IN_MS inp))
      as (_ & _ & _ & Hf2).
    specialize (Hf2 _ Hp).
    rewrite run_spec, Htok, Hsha. cbn [fst snd falsy js_string]. cbv zeta.
    rewrite Hne. cbn [negb].
    rewrite run_with_sha_spec. cbv zeta. rewrite Hd, Hp.
    rewrite (Hinvalid s (Habsent s Hs)). cbn [fst snd].
    split; trivial.
    rewrite !failures_app, Hf0, Hf1, Hf2. reflexivity.
Qed.

Lemma absent_url_reports_invalid_url_witness :
  run Failing.urlless 3 Failing.inputs Scenario.context =
  ([ListDeployments "octo" "site" "abc123" "preview";
    ConsoleLog (DeploymentObject Scenario.bot_deployment);
    ListDeploymentStatuses "octo" "site" 42;
    ConsoleLog (StatusObject (Some Failing.no_url));
    SetFailed "Invalid URL"], Returned tt) /\
  run_with_status Failing.urlless 3 Failing.inputs (Some Failing.no_url) =
  ([], Thrown (TypeError "Invalid URL")).
Proof.
  split; [reflexivity|].
  apply (absent_url_reports_invalid_url Failing.urlless 3 Failing.inputs
           Scenario.context eq_refl eq_refl).
  reflexivity.
Defined.

(** ** The arithmetic of the budget *)

Module NumFacts.

Local Open Scope Z_scope.

(** A property kept by a step is kept by its iteration. *)
Lemma iter_pos_invariant {A} (f : A -> A) (P : A -> Prop) :
  (forall x, P x -> P (f x)) -> forall n x, P x -> P (iter_pos f n x).
Proof.
  intros Hf. induction n as [n IH|n IH|]; intros x Hx; simpl; auto.
Qed.

Lemma shr_1_nonneg mrs : 0 <= shr_m mrs -> 0 <= shr_m (shr_1 mrs).
Proof.
  destruct mrs as [[|[m|m|]|m] r s]; simpl; intros H; try lia.
Qed.

Lemma shr_nonneg mrs e n :
  0 <= shr_m mrs -> 0 <= shr_m (fst (shr mrs e n)).
Proof.
  intros H. destruct n as [|p|p]; simpl; trivial.
  now apply iter_pos_invariant; [apply shr_1_nonneg|].
Qed.

Lemma shr_m_of_loc m l : shr_m (shr_record_of_loc m l) = m.
Proof. now destruct l as [|[| |]]. Qed.

Lemma shr_fexp_nonneg m e l :
  0 <= m -> 0 <= shr_m (fst (shr_fexp prec emax m e l)).
Proof.
  intros H. unfold shr_fexp. apply shr_nonneg. now rewrite shr_m_of_loc.
Qed.

Lemma round_nearest_even_nonneg m l : 0 <= m -> 0 <= round_nearest_even m l.
Proof.
  intros H. destruct l as [|[| |]]; simpl; try lia.
  destruct (Z.even m); lia.
Qed.

Lemma binary_round_aux_nonnegative m e l :
  0 <= m -> nonnegative (binary_round_aux prec emax false m e l) = true.
Proof.
  intros H. unfold binary_round_aux.
  pose proof (shr_fexp_nonneg m e l H) as H1.
  destruct (shr_fexp prec emax m e l) as [mrs' e'].
  pose proof (round_nearest_even_nonneg (shr_m mrs') (loc_of_shr_record mrs') H1)
    as H2.
  pose proof (shr_fexp_nonneg _ e' loc_Exact H2) as H3.
  destruct (shr_fexp prec emax _ e' loc_Exact) as [mrs'' e''].
  cbn [fst] in H3. destruct (shr_m mrs'') as [|p|p]; trivial; [|lia].
  now destruct (e'' <=? emax - prec).
Qed.

Lemma div_core_nonneg m1 e1 m2 e2 :
  let '(q, _, _) := SFdiv_core_binary prec emax (Zpos m1) e1 (Zpos m2) e2 in
  0 <= q.
Proof.
  unfold SFdiv_core_binary.
  set (s := _ - _ - _).
  set (m' := match s with Zpos _ => Z.shiftl (Zpos m1) s | 0 => Zpos m1 | Zneg _ => 0 end).
  assert (Hm' : 0 <= m').
  { unfold m'. destruct s; try lia. apply Z.shiftl_nonneg. lia. }
  pose proof (Z.div_pos m' (Zpos m2) Hm' eq_refl) as Hq.
  unfold Z.div in Hq. now destruct (Z.div_eucl m' (Zpos m2)).
Qed.

(** The quotient of two positive numbers is not negative. *)
Lemma div_positive x y :
  positive_finite x = true -> nonnegative y = true ->
  nonnegative (div x y) = true.
Proof.
  destruct x as [| | |[|] mx ex]; try discriminate. intros _.
  destruct y as [[|]|[|]| |[|] my ey]; try discriminate; intros _; trivial.
  unfold div, SFdiv. cbn [xorb].
  pose proof (div_core_nonneg mx ex my ey) as Hq.
  destruct (SFdiv_core_binary prec emax (Zpos mx) ex (Zpos my) ey) as [[q e] l].
  now apply binary_round_aux_nonnegative.
Qed.

(** [Math.floor] is the floor of the exact value. *)
Lemma floor_spec x q : to_Q x = Some q -> floor x = Int (Qfloor q).
Proof.
  destruct x as [s| | |s m e]; simpl; intros H; inversion H; subst; clear H.
  - reflexivity.
  - destruct e as [|p|p]; f_equal.
    + rewrite Z.mul_1_r. cbn [Qpower].
      now rewrite Qmult_1_r, Qfloor_Z.
    + rewrite <- (Qfloor_Z (cond_Zopp s (Zpos m) * 2 ^ Zpos p)).
      apply Qfloor_comp.
      now rewrite inject_Z_mult, (Zpower_Qpower 2 (Zpos p)).
    + assert (Heq : (inject_Z (cond_Zopp s (Zpos m)) * Qpower 2 (Zneg p) ==
                     cond_Zopp s (Zpos m) # 2 ^ p)%Q).
      { change (Zneg p) with (- Zpos p).
        rewrite Qpower_opp, <- (Zpower_Qpower 2 (Zpos p)) by lia.
        rewrite <- Pos2Z.inj_pow. symmetry. apply Qmake_Qdiv. }
      rewrite (Qfloor_comp _ _ Heq). unfold Qfloor.
      now rewrite Pos2Z.inj_pow.
Qed.

Lemma nonnegative_to_Q x q :
  nonnegative x = true -> to_Q x = Some q -> (0 <= q)%Q.
Proof.
  destruct x as [[|]|[|]| |[|] m e]; try discriminate; intros _ H;
    inversion H; subst; clear H.
  - apply Qle_refl.
  - apply Qmult_le_0_compat; [now unfold Qle|].
    apply Qpower_pos. now unfold Qle.
Qed.

End NumFacts.

(** ** Rounding a quotient *)

(** *** Below one *)

Module Rounding.

Import NumFacts.
Local Open Scope Z_scope.

Lemma fexp_eq k : fexp prec emax k = Z.max (k - 53) (-1074).
Proof. reflexivity. Qed.

Lemma digits2_pos_bounds m :
  2 ^ (Zpos (digits2_pos m) - 1) <= Zpos m < 2 ^ Zpos (digits2_pos m).
Proof.
  induction m as [m IH|m IH|]; cbn [digits2_pos]; [| |simpl; lia];
    rewrite Pos2Z.inj_succ;
    replace (Z.succ (Zpos (digits2_pos m)) - 1) with (Z.succ (Zpos (digits2_pos m) - 1))
      by lia;
    rewrite !Z.pow_succ_r by lia; lia.
Qed.

Lemma Zdigits2_le q k : 0 <= q < 2 ^ k -> 0 <= k -> Zdigits2 q <= k.
Proof.
  intros [H0 Hq] Hk. destruct q as [|p|p]; simpl; [trivial| |lia].
  destruct (Z_le_gt_dec (Zpos (digits2_pos p)) k) as [|Hgt]; trivial.
  pose proof (digits2_pos_bounds p) as [Hlow _].
  assert (2 ^ k <= 2 ^ (Zpos (digits2_pos p) - 1))
    by (apply Z.pow_le_mono_r; lia).
  lia.
Qed.

Lemma iter_pos_nat {A} (f : A -> A) n : forall x,
  iter_pos f n x = Nat.iter (Pos.to_nat n) f x.
Proof.
  induction n as [n IH|n IH|]; intros x; cbn [iter_pos].
  - rewrite !IH, Pos2Nat.inj_xI.
    change (S (2 * Pos.to_nat n))%nat with (S (Pos.to_nat n + (Pos.to_nat n + 0)))%nat.
    rewrite Nat.add_0_r, Nat.iter_succ_r, Nat.iter_add. reflexivity.
  - rewrite !IH, Pos2Nat.inj_xO.
    change (2 * Pos.to_nat n)%nat with (Pos.to_nat n + (Pos.to_nat n + 0))%nat.
    rewrite Nat.add_0_r, Nat.iter_add. reflexivity.
  - reflexivity.
Qed.

Lemma shr_1_m mrs : 0 <= shr_m mrs -> shr_m (shr_1 mrs) = shr_m mrs / 2.
Proof.
  intros H. rewrite <- Z.div2_div.
  destruct mrs as [[|[m|m|]|m] r s]; simpl in *; trivial; lia.
Qed.

Lemma shr_nat_m n : forall mrs,
  0 <= shr_m mrs ->
  shr_m (Nat.iter n shr_1 mrs) = shr_m mrs / 2 ^ Z.of_nat n.
Proof.
  induction n as [|n IH]; intros mrs H.
  - simpl. now rewrite Z.div_1_r.
  - assert (Hpow : 0 < 2 ^ Z.of_nat n) by (apply Z.pow_pos_nonneg; lia).
    rewrite Nat.iter_succ, shr_1_m; rewrite IH; trivial.
    + rewrite Nat2Z.inj_succ, Z.pow_succ_r, Z.div_div by lia.
      f_equal. lia.
    + apply Z.div_pos; lia.
Qed.

Lemma shr_nat_exact n : forall m,
  0 <= m ->
  Nat.iter n shr_1 {| shr_m := 2 ^ Z.of_nat n * m; shr_r := false; shr_s := false |} =
  {| shr_m := m; shr_r := false; shr_s := false |}.
Proof.
  induction n as [|n IH]; intros m Hm.
  - simpl. now destruct m.
  - rewrite Nat.iter_succ, Nat2Z.inj_succ, Z.pow_succ_r by lia.
    replace (2 * 2 ^ Z.of_nat n * m) with (2 ^ Z.of_nat n * (2 * m)) by lia.
    rewrite IH by lia. now destruct m.
Qed.

(** What [shr_fexp] leaves of a mantissa, and at which exponent. *)
Lemma shr_fexp_spec m e l :
  0 <= m ->
  let n := Z.max 0 (fexp prec emax (Zdigits2 m + e) - e) in
  shr_m (fst (shr_fexp prec emax m e l)) = m / 2 ^ n /\
  snd (shr_fexp prec emax m e l) = e + n.
Proof.
  intros Hm n. unfold shr_fexp, shr. subst n.
  destruct (fexp prec emax (Zdigits2 m + e) - e) as [|p|p]; cbn [fst snd].
  - rewrite shr_m_of_loc, Z.div_1_r. split; trivial. lia.
  - rewrite iter_pos_nat, shr_nat_m by now rewrite shr_m_of_loc.
    rewrite shr_m_of_loc, positive_nat_Z.
    split; [f_equal; f_equal|]; lia.
  - rewrite shr_m_of_loc, Z.div_1_r. split; trivial. lia.
Qed.

(** An exact mantissa that loses only zero bits stays exact. *)
Lemma shr_fexp_exact m e :
  0 <= m ->
  let n := Z.max 0 (fexp prec emax (Zdigits2 m + e) - e) in
  (2 ^ n | m) ->
  loc_of_shr_record (fst (shr_fexp prec emax m e loc_Exact)) = loc_Exact.
Proof.
  intros Hm n [c Hc]. unfold shr_fexp, shr. subst n.
  destruct (fexp prec emax (Zdigits2 m + e) - e) as [|p|p]; cbn [fst];
    try reflexivity.
  rewrite iter_pos_nat. cbn [shr_record_of_loc].
  replace (Z.max 0 (Zpos p)) with (Z.of_nat (Pos.to_nat p)) in Hc
    by (rewrite positive_nat_Z; lia).
  rewrite Hc, Z.mul_comm, shr_nat_exact; [reflexivity|].
  assert (0 < 2 ^ Z.of_nat (Pos.to_nat p)) by (apply Z.pow_pos_nonneg; lia).
  nia.
Qed.

Lemma round_nearest_even_le m l :
  m <= round_nearest_even m l <= m + 1.
Proof.
  destruct l as [|[| |]]; simpl; try lia. destruct (Z.even m); lia.
Qed.

(** A quotient that is at most 1 - 2^-53, the largest number below one,
    rounds to a number below one: its floor is 0. *)
Lemma round_below_one q e l :
  e <= -53 ->
  0 <= q <= (2 ^ 53 - 1) * 2 ^ (- e - 53) ->
  (q = (2 ^ 53 - 1) * 2 ^ (- e - 53) -> l = loc_Exact) ->
  floor (binary_round_aux prec emax false q e l) = Int 0.
Proof.
  intros He [Hq0 Hq] Hexact. unfold binary_round_aux.
  assert (Hpow : 0 < 2 ^ (- e - 53)) by (apply Z.pow_pos_nonneg; lia).
  assert (Hqlt : q < 2 ^ (- e)).
  { replace (- e) with (53 + (- e - 53)) by lia. rewrite Z.pow_add_r by lia. lia. }
  assert (Hd : Zdigits2 q <= - e) by (apply Zdigits2_le; lia).
  destruct (shr_fexp_spec q e l Hq0) as [Hm0 He1].
  pose proof (shr_fexp_exact q e Hq0) as Hloc0.
  set (n1 := Z.max 0 (fexp prec emax (Zdigits2 q + e) - e)) in *.
  assert (Hn1 : 0 <= n1 <= - e - 53) by (unfold n1; rewrite fexp_eq; lia).
  set (j := - e - 53 - n1).
  assert (Hsplit : 2 ^ (- e - 53) = 2 ^ j * 2 ^ n1).
  { rewrite <- Z.pow_add_r by (unfold j; lia). f_equal. unfold j. lia. }
  assert (Hj : 0 < 2 ^ j) by (apply Z.pow_pos_nonneg; unfold j; lia).
  assert (Hp1 : 0 < 2 ^ n1) by (apply Z.pow_pos_nonneg; lia).
  assert (Hm1 : 0 <= round_nearest_even (shr_m (fst (shr_fexp prec emax q e l)))
                       (loc_of_shr_record (fst (shr_fexp prec emax q e l)))
                <= (2 ^ 53 - 1) * 2 ^ j).
  { destruct (Z.eq_dec q ((2 ^ 53 - 1) * 2 ^ (- e - 53))) as [Heq|Hne].
    - rewrite (Hexact Heq) in *. rewrite Hloc0.
      2:{ exists ((2 ^ 53 - 1) * 2 ^ j). rewrite Heq, Hsplit. lia. }
      cbn [round_nearest_even]. rewrite Hm0, Heq, Hsplit.
      rewrite Z.mul_assoc, Z.div_mul by lia. lia.
    - pose proof (round_nearest_even_le (shr_m (fst (shr_fexp prec emax q e l)))
                    (loc_of_shr_record (fst (shr_fexp prec emax q e l)))) as Hr.
      rewrite Hm0 in Hr. rewrite Hm0.
      assert (0 <= q / 2 ^ n1) by (apply Z.div_pos; lia).
      assert (q / 2 ^ n1 < (2 ^ 53 - 1) * 2 ^ j).
      { apply Z.div_lt_upper_bound; [lia|]. rewrite Hsplit in Hq, Hne. lia. }
      lia. }
  destruct (shr_fexp prec emax q e l) as [mrs' e1]. cbn [fst snd] in *.
  set (m1 := round_nearest_even (shr_m mrs') (loc_of_shr_record mrs')) in *.
  assert (Hm1lt : m1 < 2 ^ (- e1)).
  { replace (- e1) with (53 + j) by (unfold j; lia).
    rewrite Z.pow_add_r by (unfold j; lia). lia. }
  destruct (shr_fexp_spec m1 e1 loc_Exact (proj1 Hm1)) as [Hm2 He2].
  set (n2 := Z.max 0 (fexp prec emax (Zdigits2 m1 + e1) - e1)) in *.
  assert (Hn2 : 0 <= n2) by (unfold n2; lia).
  assert (Hp2 : 0 < 2 ^ n2) by (apply Z.pow_pos_nonneg; lia).
  destruct (shr_fexp prec emax m1 e1 loc_Exact) as [mrs'' e2].
  cbn [fst snd] in *.
  destruct (shr_m mrs'') as [|p|p] eqn:Hp.
  - reflexivity.
  - assert (Hge : 2 ^ n2 <= m1).
    { destruct (Z_lt_le_dec m1 (2 ^ n2)) as [Hlt|]; trivial.
      rewrite Z.div_small in Hm2 by lia. discriminate. }
    assert (Hlt2 : n2 < - e1).
    { apply (Z.pow_lt_mono_r_iff 2); lia. }
    assert (Hsmall : Zpos p < 2 ^ (- e2)).
    { rewrite Hm2. apply Z.div_lt_upper_bound; [lia|].
      rewrite <- Z.pow_add_r by lia.
      now replace (n2 + - e2) with (- e1) by lia. }
    replace (e2 <=? emax - prec) with true
      by (symmetry; apply Z.leb_le; unfold emax, prec; lia).
    destruct e2 as [|p2|p2]; try lia.
    cbn [floor cond_Zopp]. f_equal.
    apply Z.div_small. split; [lia|exact Hsmall].
  - assert (0 <= m1 / 2 ^ n2) by (apply Z.div_pos; lia). lia.
Qed.

Lemma canonical_mantissa_digits m e :
  canonical_mantissa prec emax m e = true ->
  Zpos (digits2_pos m) <= 53 /\ -1074 <= e /\
  (-1074 < e -> Zpos (digits2_pos m) = 53).
Proof.
  unfold canonical_mantissa. rewrite Z.eqb_eq, fexp_eq. lia.
Qed.

Lemma new_location_exact nb_steps : new_location nb_steps 0 = loc_Exact.
Proof.
  unfold new_location, new_location_even, new_location_odd.
  now destruct (Z.even nb_steps).
Qed.

(** The quotient of a number by a larger one is below one. *)
Lemma div_below_one mx ex my ey :
  bounded prec emax mx ex = true ->
  bounded prec emax my ey = true ->
  SFltb (S754_finite false mx ex) (S754_finite false my ey) = true ->
  floor (div (S754_finite false mx ex) (S754_finite false my ey)) = Int 0.
Proof.
  unfold bounded. rewrite !andb_true_iff. intros [Hcx _] [Hcy _] Hlt.
  apply canonical_mantissa_digits in Hcx as (Hd1 & Hex & _).
  apply canonical_mantissa_digits in Hcy as (Hd2 & Hey & Hnormal).
  pose proof (digits2_pos_bounds mx) as [Hmx_low Hmx].
  pose proof (digits2_pos_bounds my) as [Hmy_low Hmy].
  set (d1 := Zpos (digits2_pos mx)) in *.
  set (d2 := Zpos (digits2_pos my)) in *.
  assert (Hd1pos : 0 < d1) by (unfold d1; lia).
  assert (Hd2pos : 0 < d2) by (unfold d2; lia).
  assert (Hmx53 : Zpos mx <= 2 ^ 53 - 1).
  { assert (2 ^ d1 <= 2 ^ 53) by (apply Z.pow_le_mono_r; lia). lia. }
  assert (Hmy53 : Zpos my <= 2 ^ 53 - 1).
  { assert (2 ^ d2 <= 2 ^ 53) by (apply Z.pow_le_mono_r; lia). lia. }
  assert (Hcmp : (ex = ey /\ Zpos mx < Zpos my) \/ ex < ey).
  { unfold SFltb, SFcompare in Hlt.
    destruct (Z.compare_spec ex ey) as [Heq|Hlt'|Hgt]; [left|now right|discriminate].
    split; trivial.
    destruct (Pos.compare_cont Eq mx my) eqn:Hc; try discriminate.
    now apply Pos.compare_lt_iff in Hc. }
  unfold div, SFdiv, SFdiv_core_binary. cbn [xorb Zdigits2].
  fold d1. fold d2.
  set (e' := Z.min (fexp prec emax (d1 + ex - (d2 + ey))) (ex - ey)).
  set (s := ex - ey - e').
  assert (Ht : d1 + ex - (d2 + ey) <= 0).
  { destruct Hcmp as [[-> Hm]|Hlt'].
    - assert (d1 - 1 < d2); [|lia].
      apply (Z.pow_lt_mono_r_iff 2); lia.
    - rewrite Hnormal by lia. lia. }
  assert (He' : e' <= -53) by (unfold e'; rewrite fexp_eq; lia).
  assert (Hs : 0 <= s) by (unfold s, e'; lia).
  set (m' := match s with
             | 0 => Zpos mx
             | Zpos _ => Z.shiftl (Zpos mx) s
             | Zneg _ => 0
             end).
  assert (Hm' : m' = Zpos mx * 2 ^ s).
  { unfold m'. destruct s as [|p|p]; [lia| |lia].
    now rewrite Z.shiftl_mul_pow2. }
  clearbody m'.
  assert (Hpow : 0 < 2 ^ (- e' - 53)) by (apply Z.pow_pos_nonneg; lia).
  assert (HK : 2 ^ (- e') = 2 ^ 53 * 2 ^ (- e' - 53)).
  { rewrite <- Z.pow_add_r by lia. f_equal. lia. }
  assert (Hgap : 2 ^ 53 * m' <= (2 ^ 53 - 1) * Zpos my * 2 ^ (- e')).
  { rewrite Hm'. destruct Hcmp as [[Heq Hm]|Hlt'].
    - replace s with (- e') by (unfold s; lia).
      assert (0 < 2 ^ (- e')) by (apply Z.pow_pos_nonneg; lia).
      rewrite Z.mul_assoc. apply Z.mul_le_mono_nonneg_r; lia.
    - assert (Hsplit : 2 ^ (- e') = 2 ^ (ey - ex) * 2 ^ s).
      { rewrite <- Z.pow_add_r by lia. f_equal. unfold s. lia. }
      assert (0 < 2 ^ s) by (apply Z.pow_pos_nonneg; lia).
      assert (Hk : 2 <= 2 ^ (ey - ex)).
      { change 2 with (2 ^ 1) at 1. apply Z.pow_le_mono_r; lia. }
      assert (Hmy52 : 2 ^ 52 <= Zpos my).
      { rewrite Hnormal in Hmy_low by lia. exact Hmy_low. }
      assert (HW : 2 ^ 53 <= Zpos my * 2 ^ (ey - ex)) by nia.
      rewrite Hsplit.
      replace ((2 ^ 53 - 1) * Zpos my * (2 ^ (ey - ex) * 2 ^ s))
        with ((2 ^ 53 - 1) * (Zpos my * 2 ^ (ey - ex)) * 2 ^ s) by ring.
      rewrite Z.mul_assoc. apply Z.mul_le_mono_nonneg_r; [lia|].
      set (W := Zpos my * 2 ^ (ey - ex)) in *. lia. }
  assert (Hm'0 : 0 <= m') by (rewrite Hm'; apply Z.mul_nonneg_nonneg; lia).
  pose proof (Z_div_mod m' (Zpos my) eq_refl) as Hdiv.
  destruct (Z.div_eucl m' (Zpos my)) as [q r]. destruct Hdiv as [Hqr Hr].
  assert (Hq0 : 0 <= q) by nia.
  assert (Hbound : Zpos my * q <= Zpos my * ((2 ^ 53 - 1) * 2 ^ (- e' - 53))).
  { rewrite HK in Hgap.
    set (P := 2 ^ (- e' - 53)) in *.
    assert (2 ^ 53 * (Zpos my * q) <= 2 ^ 53 * (Zpos my * ((2 ^ 53 - 1) * P)));
      [|lia].
    replace (2 ^ 53 * (Zpos my * ((2 ^ 53 - 1) * P)))
      with ((2 ^ 53 - 1) * Zpos my * (2 ^ 53 * P)) by ring.
    lia. }
  apply round_below_one; trivial.
  - split; trivial. apply Z.mul_le_mono_pos_l in Hbound; lia.
  - intros Heq. rewrite Heq in Hqr.
    assert (r = 0); [|subst r; apply new_location_exact].
    rewrite HK in Hgap.
    set (P := 2 ^ (- e' - 53)) in *.
    assert (2 ^ 53 * m' <= 2 ^ 53 * (Zpos my * ((2 ^ 53 - 1) * P))).
    { replace (2 ^ 53 * (Zpos my * ((2 ^ 53 - 1) * P)))
        with ((2 ^ 53 - 1) * Zpos my * (2 ^ 53 * P)) by ring.
      lia. }
    lia.
Qed.

(** *** Every quotient is a binary64 number *)

Lemma Zdigits2_bounds q : 0 < q -> 2 ^ (Zdigits2 q - 1) <= q < 2 ^ Zdigits2 q.
Proof.
  destruct q as [|p|p]; try lia. intros _. apply digits2_pos_bounds.
Qed.

Lemma Zdigits2_nonneg q : 0 <= Zdigits2 q.
Proof. destruct q; simpl; lia. Qed.

Lemma Zdigits2_unique q d :
  0 < q -> 2 ^ (d - 1) <= q < 2 ^ d -> Zdigits2 q = d.
Proof.
  intros Hq [Hlow Hup]. pose proof (Zdigits2_bounds q Hq) as [HDlow HDup].
  destruct (Z.lt_trichotomy (Zdigits2 q) d) as [Hlt|[Heq|Hgt]]; trivial.
  - assert (2 ^ Zdigits2 q <= 2 ^ (d - 1)) by (apply Z.pow_le_mono_r; lia). lia.
  - assert (2 ^ d <= 2 ^ (Zdigits2 q - 1)) by (apply Z.pow_le_mono_r; lia). lia.
Qed.

Lemma Zdigits2_mono a b : 0 <= a <= b -> Zdigits2 a <= Zdigits2 b.
Proof.
  intros [Ha Hab]. destruct (Z.eq_dec b 0) as [->|Hb].
  - now replace a with 0 by lia.
  - apply Zdigits2_le; [|apply Zdigits2_nonneg].
    pose proof (Zdigits2_bounds b). lia.
Qed.

Lemma Zdigits2_shift q n :
  0 <= n -> 0 < q / 2 ^ n -> Zdigits2 (q / 2 ^ n) = Zdigits2 q - n.
Proof.
  intros Hn Hpos.
  assert (Hp : 0 < 2 ^ n) by (apply Z.pow_pos_nonneg; lia).
  assert (Hq : 0 < q).
  { destruct (Z_lt_le_dec 0 q) as [|Hle]; trivial.
    assert (q / 2 ^ n <= 0) by (apply Z.div_le_upper_bound; lia). lia. }
  pose proof (Zdigits2_bounds q Hq) as [Hlow Hup].
  assert (Hge : 2 ^ n <= q).
  { destruct (Z_lt_le_dec q (2 ^ n)) as [Hlt|]; trivial.
    rewrite Z.div_small in Hpos by lia. lia. }
  pose proof (Zdigits2_nonneg q) as HD0.
  assert (HD : n < Zdigits2 q) by (apply (Z.pow_lt_mono_r_iff 2); lia).
  apply Zdigits2_unique; trivial. split.
  - apply Z.div_le_lower_bound; trivial.
    rewrite <- Z.pow_add_r by lia.
    now replace (n + (Zdigits2 q - n - 1)) with (Zdigits2 q - 1) by lia.
  - apply Z.div_lt_upper_bound; trivial.
    rewrite <- Z.pow_add_r by lia.
    now replace (n + (Zdigits2 q - n)) with (Zdigits2 q) by lia.
Qed.

(** A mantissa with digits to spare comes out of [shr_fexp] canonical. *)
Lemma shr_fexp_canonical m e l :
  0 <= m ->
  e <= fexp prec emax (Zdigits2 m + e) ->
  let m' := shr_m (fst (shr_fexp prec emax m e l)) in
  let e' := snd (shr_fexp prec emax m e l) in
  0 <= m' /\
  (m' = 0 -> e' = -1074) /\
  (0 < m' -> fexp prec emax (Zdigits2 m' + e') = e').
Proof.
  intros Hm He m' e'. destruct (shr_fexp_spec m e l Hm) as [Hm' He'].
  fold m' in Hm'. fold e' in He'.
  set (n := Z.max 0 (fexp prec emax (Zdigits2 m + e) - e)) in *.
  assert (Hn : n = fexp prec emax (Zdigits2 m + e) - e) by (unfold n; lia).
  assert (Hp : 0 < 2 ^ n) by (apply Z.pow_pos_nonneg; lia).
  split; [rewrite Hm'; apply Z.div_pos; lia|]. split.
  - intros H0.
    assert (HD : Zdigits2 m <= n).
    { apply Zdigits2_le; [|lia]. split; trivial.
      destruct (Z_lt_le_dec m (2 ^ n)) as [|Hge]; trivial.
      assert (1 <= m / 2 ^ n) by (apply Z.div_le_lower_bound; lia). lia. }
    rewrite fexp_eq in Hn. lia.
  - intros Hpos. rewrite Hm' in *.
    rewrite Zdigits2_shift by (trivial; lia).
    rewrite He'. replace (Zdigits2 m - n + (e + n)) with (Zdigits2 m + e) by lia.
    lia.
Qed.

Lemma binary_round_aux_valid s q e l :
  0 <= q ->
  e <= fexp prec emax (Zdigits2 q + e) ->
  valid_binary prec emax (binary_round_aux prec emax s q e l) = true.
Proof.
  intros Hq He. unfold binary_round_aux.
  destruct (shr_fexp_canonical q e l Hq He) as (Hm0 & Hzero & Hcanon).
  destruct (shr_fexp prec emax q e l) as [mrs' e1]. cbn [fst snd] in *.
  pose proof (round_nearest_even_le (shr_m mrs') (loc_of_shr_record mrs')) as Hr.
  set (m1 := round_nearest_even (shr_m mrs') (loc_of_shr_record mrs')) in *.
  assert (Hm1 : 0 <= m1) by lia.
  assert (He1 : e1 <= fexp prec emax (Zdigits2 m1 + e1)).
  { destruct (Z.eq_dec (shr_m mrs') 0) as [H0|Hne].
    - rewrite (Hzero H0), fexp_eq. lia.
    - rewrite <- (Hcanon ltac:(lia)) at 1. rewrite !fexp_eq.
      assert (Zdigits2 (shr_m mrs') <= Zdigits2 m1) by (apply Zdigits2_mono; lia).
      lia. }
  destruct (shr_fexp_canonical m1 e1 loc_Exact Hm1 He1) as (Hm2 & _ & Hcanon2).
  destruct (shr_fexp prec emax m1 e1 loc_Exact) as [mrs'' e2].
  cbn [fst snd] in *.
  destruct (shr_m mrs'') as [|p|p]; trivial.
  destruct (e2 <=? emax - prec) eqn:Hle; trivial.
  cbn [valid_binary]. unfold bounded, canonical_mantissa.
  rewrite Hle, andb_true_r. apply Z.eqb_eq. apply Hcanon2. lia.
Qed.

Lemma div_core_precise mx ex my ey :
  let '(q, e', _) := SFdiv_core_binary prec emax (Zpos mx) ex (Zpos my) ey in
  0 <= q /\ e' <= fexp prec emax (Zdigits2 q + e').
Proof.
  unfold SFdiv_core_binary. cbn [Zdigits2].
  pose proof (digits2_pos_bounds mx) as [Hmx_low Hmx].
  pose proof (digits2_pos_bounds my) as [Hmy_low Hmy].
  set (d1 := Zpos (digits2_pos mx)) in *.
  set (d2 := Zpos (digits2_pos my)) in *.
  assert (Hd1pos : 0 < d1) by (unfold d1; lia).
  assert (Hd2pos : 0 < d2) by (unfold d2; lia).
  set (t := d1 + ex - (d2 + ey)).
  set (e' := Z.min (fexp prec emax t) (ex - ey)).
  set (s := ex - ey - e').
  assert (Hs : 0 <= s) by (unfold s, e'; lia).
  set (m' := match s with
             | 0 => Zpos mx
             | Zpos _ => Z.shiftl (Zpos mx) s
             | Zneg _ => 0
             end).
  assert (Hm' : m' = Zpos mx * 2 ^ s).
  { unfold m'. destruct s as [|p|p]; [lia| |lia].
    now rewrite Z.shiftl_mul_pow2. }
  clearbody m'.
  assert (Hps : 0 < 2 ^ s) by (apply Z.pow_pos_nonneg; lia).
  pose proof (Z_div_mod m' (Zpos my) eq_refl) as Hdiv.
  destruct (Z.div_eucl m' (Zpos my)) as [q r]. destruct Hdiv as [Hqr Hr].
  assert (Hq0 : 0 <= q) by nia.
  split; trivial.
  (* the quotient has at least [d1 + s - d2] digits *)
  assert (Hlow : 0 <= d1 - 1 + s - d2 -> 2 ^ (d1 - 1 + s - d2) <= q).
  { intros Ha.
    assert (Hprod : 2 ^ (d1 - 1 + s - d2) * 2 ^ d2 = 2 ^ (d1 - 1) * 2 ^ s).
    { rewrite <- !Z.pow_add_r by lia. f_equal. lia. }
    assert (Hpa : 0 < 2 ^ (d1 - 1 + s - d2)) by (apply Z.pow_pos_nonneg; lia).
    assert (Hlt : 2 ^ (d1 - 1 + s - d2) * Zpos my < Zpos my * (q + 1)) by nia.
    assert (2 ^ (d1 - 1 + s - d2) < q + 1); [|lia].
    apply (Z.mul_lt_mono_pos_l (Zpos my)); lia. }
  destruct (Z_lt_le_dec (d1 - 1 + s - d2) 0) as [Hneg|Hnonneg].
  - (* few digits: the exponent is at the bottom *)
    assert (He' : e' <= -1074).
    { assert (Ht : t <= e') by (unfold t, s in *; lia).
      unfold e' in *. rewrite fexp_eq in *. lia. }
    rewrite fexp_eq. lia.
  - specialize (Hlow Hnonneg).
    assert (Hq : 0 < q).
    { assert (0 < 2 ^ (d1 - 1 + s - d2)) by (apply Z.pow_pos_nonneg; lia). lia. }
    assert (HD : d1 + s - d2 <= Zdigits2 q).
    { pose proof (Zdigits2_bounds q Hq) as [_ Hup].
      assert (d1 - 1 + s - d2 < Zdigits2 q); [|lia].
      apply (Z.pow_lt_mono_r_iff 2); [lia|apply Zdigits2_nonneg|lia]. }
    assert (Ht : t <= Zdigits2 q + e') by (unfold t, s in *; lia).
    unfold e' in *. rewrite !fexp_eq in *. lia.
Qed.

(** Division never leaves the binary64 numbers. *)
Lemma div_valid x y : valid_binary prec emax (div x y) = true.
Proof.
  destruct x as [sx|sx| |sx mx ex], y as [sy|sy| |sy my ey]; trivial.
  unfold div, SFdiv.
  pose proof (div_core_precise mx ex my ey) as H.
  destruct (SFdiv_core_binary prec emax (Zpos mx) ex (Zpos my) ey) as [[q e'] l].
  destruct H as [Hq He]. now apply binary_round_aux_valid.
Qed.

(** *** Whole numbers *)

Lemma Zdigits2_mul_pow2 m j :
  0 < m -> 0 <= j -> Zdigits2 (m * 2 ^ j) = Zdigits2 m + j.
Proof.
  intros Hm Hj.
  assert (Hp : 0 < 2 ^ j) by (apply Z.pow_pos_nonneg; lia).
  pose proof (Zdigits2_bounds m Hm) as [Hlow Hup].
  pose proof (Zdigits2_nonneg m) as HD.
  assert (HD1 : 1 <= Zdigits2 m).
  { destruct (Z_le_gt_dec 1 (Zdigits2 m)) as [|Hlt]; trivial.
    replace (Zdigits2 m) with 0 in Hup by lia. simpl in Hup. lia. }
  apply Zdigits2_unique; [nia|].
  replace (Zdigits2 m + j - 1) with (Zdigits2 m - 1 + j) by lia.
  rewrite !Z.pow_add_r by lia. nia.
Qed.

(** A canonical mantissa, possibly with zero bits appended, rounds to
    itself. *)
Lemma round_exact s M E j :
  bounded prec emax M E = true ->
  0 <= j ->
  binary_round_aux prec emax s (Zpos M * 2 ^ j) (E - j) loc_Exact =
  S754_finite s M E.
Proof.
  unfold bounded, canonical_mantissa.
  rewrite andb_true_iff, Z.eqb_eq, Z.leb_le. intros [Hc HE] Hj.
  assert (Hp : 0 < 2 ^ j) by (apply Z.pow_pos_nonneg; lia).
  assert (Hq : 0 <= Zpos M * 2 ^ j) by nia.
  unfold binary_round_aux.
  destruct (shr_fexp_spec (Zpos M * 2 ^ j) (E - j) loc_Exact Hq) as [Hm0 He1].
  pose proof (shr_fexp_exact (Zpos M * 2 ^ j) (E - j) Hq) as Hloc.
  rewrite Zdigits2_mul_pow2 in Hm0, He1, Hloc by lia.
  cbn [Zdigits2] in Hm0, He1, Hloc.
  replace (Zpos (digits2_pos M) + j + (E - j)) with (Zpos (digits2_pos M) + E)
    in Hm0, He1, Hloc by lia.
  rewrite Hc in Hm0, He1, Hloc.
  replace (Z.max 0 (E - (E - j))) with j in Hm0, He1, Hloc by lia.
  rewrite Z.div_mul in Hm0 by lia.
  specialize (Hloc ltac:(exists (Zpos M); lia)).
  destruct (shr_fexp prec emax (Zpos M * 2 ^ j) (E - j) loc_Exact) as [mrs' e1].
  cbn [fst snd] in *. subst e1. rewrite Hm0, Hloc. cbn [round_nearest_even].
  replace (E - j + j) with E by lia.
  assert (Hm : 0 <= Zpos M) by lia.
  destruct (shr_fexp_spec (Zpos M) E loc_Exact Hm) as [Hm2 He2].
  cbn [Zdigits2] in Hm2, He2. rewrite Hc in Hm2, He2.
  replace (Z.max 0 (E - E)) with 0 in Hm2, He2 by lia.
  rewrite Z.div_1_r in Hm2.
  destruct (shr_fexp prec emax (Zpos M) E loc_Exact) as [mrs'' e2].
  cbn [fst snd] in *. rewrite Hm2.
  replace e2 with E by lia.
  now rewrite (proj2 (Z.leb_le _ _) HE).
Qed.

Lemma Pos_iter_xO m d : Zpos (Pos.iter xO m d) = Zpos m * 2 ^ Zpos d.
Proof.
  induction d as [|d IH] using Pos.peano_ind.
  - simpl. lia.
  - rewrite Pos.iter_succ, Pos2Z.inj_succ, Z.pow_succ_r by lia.
    rewrite Pos2Z.inj_xO, IH. lia.
Qed.

(** The binary64 number of a whole number below 2^53: 53 digits of
    mantissa, the number's digits followed by zeros. *)
Lemma of_Z_spec a :
  0 < a < 2 ^ 53 ->
  exists m,
    of_Z a = S754_finite false m (Zdigits2 a - 53) /\
    Zpos m = a * 2 ^ (53 - Zdigits2 a) /\
    Zpos (digits2_pos m) = 53 /\
    bounded prec emax m (Zdigits2 a - 53) = true.
Proof.
  intros [Ha0 Ha].
  assert (Hd : Zdigits2 a <= 53) by (apply Zdigits2_le; lia).
  assert (Hd1 : 1 <= Zdigits2 a).
  { pose proof (Zdigits2_bounds a Ha0) as [_ Hup].
    pose proof (Zdigits2_nonneg a).
    destruct (Z_le_gt_dec 1 (Zdigits2 a)) as [|Hlt]; trivial.
    replace (Zdigits2 a) with 0 in Hup by lia. simpl in Hup. lia. }
  destruct a as [|p|p]; try lia. cbn [Zdigits2] in *.
  set (d := Zpos (digits2_pos p)) in *.
  assert (Hm : exists m, Zpos m = Zpos p * 2 ^ (53 - d) /\
                         shl_align p 0 (d - 53) = (m, d - 53)).
  { unfold shl_align. destruct (d - 53 - 0) as [|q|q] eqn:Hs; try lia.
    - exists p. replace (53 - d) with 0 by lia.
      replace (d - 53) with 0 by lia. split; [lia|reflexivity].
    - exists (Pos.iter xO p q). rewrite Pos_iter_xO.
      replace (53 - d) with (Zpos q) by lia. now split. }
  destruct Hm as (m & Hmval & Halign). exists m.
  assert (Hdm : Zpos (digits2_pos m) = 53).
  { change (Zdigits2 (Zpos m) = 53). rewrite Hmval.
    rewrite Zdigits2_mul_pow2 by lia. cbn [Zdigits2]. fold d. lia. }
  assert (Hb : bounded prec emax m (d - 53) = true).
  { unfold bounded, canonical_mantissa. rewrite Hdm, fexp_eq.
    apply andb_true_iff. split; [apply Z.eqb_eq|apply Z.leb_le; unfold emax, prec];
      lia. }
  repeat split; trivial.
  unfold of_Z, binary_normalize, binary_round.
  replace (fexp prec emax (Zpos (digits2_pos p) + 0)) with (d - 53)
    by (rewrite fexp_eq; fold d; lia).
  rewrite Halign.
  pose proof (round_exact false m (d - 53) 0 Hb ltac:(lia)) as Hr.
  now rewrite Z.mul_1_r, Z.sub_0_r in Hr.
Qed.

(** A quotient of [n] and more that stays two units of the last shifted
    place below [n + 1] rounds to a number whose floor is [n]. *)
Lemma round_floor q e l n g :
  e <= 0 -> 0 <= g <= - e -> 0 <= n < 2 ^ 53 - 1 ->
  n * 2 ^ (- e) <= q <= (n + 1) * 2 ^ (- e) - 2 ^ g ->
  (q = (n + 1) * 2 ^ (- e) - 2 ^ g -> l = loc_Exact) ->
  Z.max 0 (fexp prec emax (Zdigits2 q + e) - e) <= g ->
  floor (binary_round_aux prec emax false q e l) = Int n.
Proof.
  intros He [Hg0 Hg] [Hn0 Hn] [Hlow Hup] Hexact Hshift. unfold binary_round_aux.
  assert (Hpe : 0 < 2 ^ (- e)) by (apply Z.pow_pos_nonneg; lia).
  assert (Hq0 : 0 <= q) by nia.
  destruct (shr_fexp_spec q e l Hq0) as [Hm0 He1].
  pose proof (shr_fexp_exact q e Hq0) as Hloc0.
  set (n1 := Z.max 0 (fexp prec emax (Zdigits2 q + e) - e)) in *.
  assert (Hn1 : 0 <= n1) by (unfold n1; lia).
  set (j := - e - n1).
  assert (Hj0 : 0 <= j) by (unfold j; lia).
  assert (Hsplit : 2 ^ (- e) = 2 ^ j * 2 ^ n1).
  { rewrite <- Z.pow_add_r by lia. f_equal. unfold j. lia. }
  assert (Hgsplit : 2 ^ g = 2 ^ (g - n1) * 2 ^ n1).
  { rewrite <- Z.pow_add_r by lia. f_equal. lia. }
  assert (Hpj : 0 < 2 ^ j) by (apply Z.pow_pos_nonneg; lia).
  assert (Hp1 : 0 < 2 ^ n1) by (apply Z.pow_pos_nonneg; lia).
  assert (Hpg : 0 < 2 ^ (g - n1)) by (apply Z.pow_pos_nonneg; lia).
  rewrite Hsplit in Hlow. rewrite Hsplit, Hgsplit in Hup, Hexact.
  assert (Hm1 : n * 2 ^ j
                <= round_nearest_even (shr_m (fst (shr_fexp prec emax q e l)))
                     (loc_of_shr_record (fst (shr_fexp prec emax q e l)))
                <= (n + 1) * 2 ^ j - 1).
  { destruct (Z.eq_dec q ((n + 1) * (2 ^ j * 2 ^ n1) - 2 ^ (g - n1) * 2 ^ n1))
      as [Heq|Hne].
    - assert (Hq : q = ((n + 1) * 2 ^ j - 2 ^ (g - n1)) * 2 ^ n1)
        by (rewrite Heq; ring).
      rewrite (Hexact Heq) in *. rewrite Hloc0 by (eexists; exact Hq).
      cbn [round_nearest_even]. rewrite Hm0, Hq, Z.div_mul by lia.
      split; [|lia].
      apply (Z.mul_le_mono_pos_r _ _ (2 ^ n1)); lia.
    - pose proof (round_nearest_even_le (shr_m (fst (shr_fexp prec emax q e l)))
                    (loc_of_shr_record (fst (shr_fexp prec emax q e l)))) as Hr.
      rewrite Hm0 in Hr. rewrite Hm0.
      assert (n * 2 ^ j <= q / 2 ^ n1) by (apply Z.div_le_lower_bound; lia).
      assert (q / 2 ^ n1 < (n + 1) * 2 ^ j - 2 ^ (g - n1))
        by (apply Z.div_lt_upper_bound; lia).
      lia. }
  destruct (shr_fexp prec emax q e l) as [mrs' e1]. cbn [fst snd] in *.
  set (m1 := round_nearest_even (shr_m mrs') (loc_of_shr_record mrs')) in *.
  assert (Hm1nn : 0 <= m1) by nia.
  destruct (shr_fexp_spec m1 e1 loc_Exact Hm1nn) as [Hm2 He2].
  set (n2 := Z.max 0 (fexp prec emax (Zdigits2 m1 + e1) - e1)) in *.
  assert (Hn2 : 0 <= n2 <= j).
  { split; [unfold n2; lia|].
    assert (Hd : Zdigits2 m1 <= 53 + j).
    { apply Zdigits2_le; [|lia]. split; [lia|].
      rewrite Z.pow_add_r by lia. nia. }
    unfold n2. rewrite fexp_eq. unfold j in *. lia. }
  assert (Hp2 : 0 < 2 ^ n2) by (apply Z.pow_pos_nonneg; lia).
  assert (Hsplit2 : 2 ^ j = 2 ^ n2 * 2 ^ (j - n2)).
  { rewrite <- Z.pow_add_r by lia. f_equal. lia. }
  assert (Hpj2 : 0 < 2 ^ (j - n2)) by (apply Z.pow_pos_nonneg; lia).
  assert (Hfloor : m1 / 2 ^ n2 / 2 ^ (j - n2) = n).
  { rewrite Z.div_div, <- Hsplit2 by lia. symmetry.
    apply (Z.div_unique m1 (2 ^ j) n (m1 - n * 2 ^ j)); lia. }
  destruct (shr_fexp prec emax m1 e1 loc_Exact) as [mrs'' e2].
  cbn [fst snd] in *. rewrite <- Hm2 in Hfloor.
  destruct (shr_m mrs'') as [|p|p] eqn:Hp.
  - cbn [floor]. f_equal. rewrite Z.div_0_l in Hfloor by lia. lia.
  - replace (e2 <=? emax - prec) with true
      by (symmetry; apply Z.leb_le; unfold emax, prec, j in *; lia).
    destruct e2 as [|p2|p2]; [| unfold j in *; lia |]; cbn [floor cond_Zopp]; f_equal.
    + replace (j - n2) with 0 in Hfloor by (unfold j in *; lia).
      change (2 ^ 0) with 1 in *. rewrite Z.div_1_r in Hfloor. lia.
    + replace (j - n2) with (Zpos p2) in Hfloor by (unfold j in *; lia).
      exact Hfloor.
  - assert (0 <= m1 / 2 ^ n2) by (apply Z.div_pos; lia). lia.
Qed.

(** The quotient of two numbers of 53-digit mantissas: the first
    mantissa is shifted by 53 places, divided, and the result rounded. *)
Lemma div_normal mx ex my ey :
  Zpos (digits2_pos mx) = 53 -> Zpos (digits2_pos my) = 53 ->
  -1021 <= ex - ey ->
  div (S754_finite false mx ex) (S754_finite false my ey) =
  binary_round_aux prec emax false (Zpos mx * 2 ^ 53 / Zpos my) (ex - ey - 53)
    (new_location (Zpos my) ((Zpos mx * 2 ^ 53) mod Zpos my)).
Proof.
  intros Hdx Hdy He.
  unfold div, SFdiv, SFdiv_core_binary. cbn [xorb Zdigits2]. rewrite Hdx, Hdy.
  replace (Z.min (fexp prec emax (53 + ex - (53 + ey))) (ex - ey))
    with (ex - ey - 53) by (rewrite fexp_eq; lia).
  replace (ex - ey - (ex - ey - 53)) with 53 by lia.
  cbv beta iota. rewrite Z.shiftl_mul_pow2 by lia.
  unfold Z.div, Z.modulo.
  now destruct (Z.div_eucl (Zpos mx * 2 ^ 53) (Zpos my)).
Qed.

Lemma Zdigits2_ge_1 q : 0 < q -> 1 <= Zdigits2 q.
Proof. destruct q as [|p|p]; try lia. intros _. simpl. lia. Qed.

(** Dividing a whole number by a whole number: the floor of the rounded
    quotient is the quotient of the integer division. *)
Lemma div_whole a k :
  0 < a < 2 ^ 52 -> 0 < k < 2 ^ 53 ->
  floor (div (of_Z a) (of_Z k)) = Int (a / k).
Proof.
  intros [Ha0 Ha] [Hk0 Hk].
  destruct (of_Z_spec a ltac:(lia)) as (mx & -> & Hmx & Hdx & _).
  destruct (of_Z_spec k ltac:(lia)) as (my & -> & Hmy & Hdy & _).
  pose proof (Zdigits2_ge_1 a Ha0) as Hda1.
  pose proof (Zdigits2_ge_1 k Hk0) as Hdk1.
  assert (Hda : Zdigits2 a <= 52) by (apply Zdigits2_le; lia).
  assert (Hdk : Zdigits2 k <= 53) by (apply Zdigits2_le; lia).
  pose proof (Zdigits2_bounds k Hk0) as [_ Hkup].
  pose proof (digits2_pos_bounds mx) as [_ Hmxup]. rewrite Hdx in Hmxup.
  pose proof (digits2_pos_bounds my) as [Hmylow _]. rewrite Hdy in Hmylow.
  set (da := Zdigits2 a) in *. set (dk := Zdigits2 k) in *.
  rewrite div_normal by lia.
  replace (da - 53 - (dk - 53) - 53) with (da - dk - 53) by lia.
  set (m' := Zpos mx * 2 ^ 53).
  set (E := 2 ^ (- (da - dk - 53))).
  assert (HE : E = 2 ^ (53 - da) * 2 ^ dk).
  { unfold E. rewrite <- Z.pow_add_r by lia. f_equal. lia. }
  assert (H2 : 2 <= 2 ^ (53 - da)).
  { change 2 with (2 ^ 1) at 1. apply Z.pow_le_mono_r; lia. }
  assert (HE2 : 2 * k < E) by nia.
  assert (HR : k * m' = Zpos my * (a * E)).
  { unfold m'. rewrite Hmx, Hmy, HE.
    replace (2 ^ 53) with (2 ^ (53 - dk) * 2 ^ dk); [ring|].
    rewrite <- Z.pow_add_r by lia. f_equal. lia. }
  pose proof (Z.div_mod a k ltac:(lia)) as Hak.
  pose proof (Z.mod_pos_bound a k Hk0) as Hakr.
  set (n := a / k) in *.
  assert (Hn0 : 0 <= n) by (apply Z.div_pos; lia).
  assert (Hna : n <= a) by nia.
  assert (Hm'0 : 0 <= m') by (unfold m'; lia).
  pose proof (Z.div_mod m' (Zpos my) ltac:(lia)) as Hqm.
  pose proof (Z.mod_pos_bound m' (Zpos my) ltac:(lia)) as Hqr.
  assert (Hq0 : 0 <= m' / Zpos my) by (apply Z.div_pos; lia).
  set (q := m' / Zpos my) in *.
  assert (Hlow : n * E <= q).
  { apply Z.div_le_lower_bound; [lia|].
    apply (Z.mul_le_mono_pos_l _ _ k); [lia|]. rewrite HR.
    replace (k * (Zpos my * (n * E))) with (Zpos my * (k * n * E)) by ring.
    apply Z.mul_le_mono_nonneg_l; [lia|].
    apply Z.mul_le_mono_nonneg_r; lia. }
  assert (Hup : q < (n + 1) * E - 2).
  { assert (H1 : Zpos my * (k * q) <= Zpos my * (a * E)).
    { rewrite <- HR.
      replace (Zpos my * (k * q)) with (k * (Zpos my * q)) by ring.
      apply Z.mul_le_mono_nonneg_l; lia. }
    apply Z.mul_le_mono_pos_l in H1; [|lia].
    assert (H3 : a * E <= (k * n + k - 1) * E)
      by (apply Z.mul_le_mono_nonneg_r; lia).
    apply (Z.mul_lt_mono_pos_l k); lia. }
  apply (round_floor _ _ _ n 1); try lia.
  assert (Hd : Zdigits2 q <= 54).
  { apply Zdigits2_le; [|lia]. split; [lia|].
    assert (q * 2 ^ 52 <= q * Zpos my) by (apply Z.mul_le_mono_nonneg_l; lia).
    assert (m' < 2 ^ 53 * 2 ^ 53) by (unfold m'; lia).
    lia. }
  rewrite fexp_eq. lia.
Qed.

(** Dividing a whole multiple of a whole number by that number is exact. *)
Lemma div_exact_multiple c k :
  0 < c -> 0 < k -> c * k < 2 ^ 53 ->
  div (of_Z (c * k)) (of_Z c) = of_Z k.
Proof.
  intros Hc0 Hk0 Hck.
  assert (Hc : c < 2 ^ 53) by nia.
  assert (Hk : k < 2 ^ 53) by nia.
  assert (Hck0 : 0 < c * k) by nia.
  destruct (of_Z_spec (c * k) ltac:(lia)) as (mx & -> & Hmx & Hdx & _).
  destruct (of_Z_spec c ltac:(lia)) as (my & -> & Hmy & Hdy & _).
  destruct (of_Z_spec k ltac:(lia)) as (mk & -> & Hmk & _ & Hbk).
  pose proof (Zdigits2_ge_1 _ Hck0) as HdX1.
  pose proof (Zdigits2_ge_1 c Hc0) as Hdc1.
  pose proof (Zdigits2_ge_1 k Hk0) as Hdk1.
  assert (HdX : Zdigits2 (c * k) <= 53) by (apply Zdigits2_le; lia).
  assert (Hdc : Zdigits2 c <= 53) by (apply Zdigits2_le; lia).
  assert (Hdk : Zdigits2 k <= 53) by (apply Zdigits2_le; lia).
  pose proof (Zdigits2_bounds c Hc0) as [_ Hcup].
  pose proof (Zdigits2_bounds k Hk0) as [_ Hkup].
  assert (Hsum : Zdigits2 (c * k) <= Zdigits2 c + Zdigits2 k).
  { apply Zdigits2_le; [|lia]. split; [lia|].
    rewrite Z.pow_add_r by lia. nia. }
  set (dX := Zdigits2 (c * k)) in *. set (dc := Zdigits2 c) in *.
  set (dk := Zdigits2 k) in *.
  rewrite div_normal by lia.
  set (j := dk - dX + dc).
  assert (Hm' : Zpos mx * 2 ^ 53 = Zpos mk * 2 ^ j * Zpos my).
  { assert (HP : 2 ^ (53 - dX) * 2 ^ 53 = 2 ^ (53 - dk) * 2 ^ j * 2 ^ (53 - dc)).
    { rewrite <- !Z.pow_add_r by (unfold j; lia). f_equal. unfold j. lia. }
    rewrite Hmx, Hmy, Hmk, <- Z.mul_assoc, HP. ring. }
  rewrite Hm', Z.div_mul, Z.mod_mul, new_location_exact by lia.
  replace (dX - 53 - (dc - 53) - 53) with (dk - 53 - j) by (unfold j; lia).
  apply round_exact; [exact Hbk|unfold j; lia].
Qed.

(** The value of the binary64 number of a whole number below 2^53 is that
    whole number. *)
Lemma to_Q_of_Z a :
  0 < a < 2 ^ 53 ->
  exists q, to_Q (of_Z a) = Some q /\ (q == inject_Z a)%Q.
Proof.
  intros Ha. pose proof (Zdigits2_ge_1 a (proj1 Ha)) as Hd1.
  assert (Hd : Zdigits2 a <= 53) by (apply Zdigits2_le; lia).
  destruct (of_Z_spec a Ha) as (m & -> & Hm & _).
  eexists. split; [reflexivity|]. cbn [cond_Zopp].
  rewrite Hm, inject_Z_mult, Zpower_Qpower, <- Qmult_assoc by lia.
  rewrite <- Qpower_plus by discriminate.
  replace (53 - Zdigits2 a + (Zdigits2 a - 53)) with 0 by lia.
  apply Qmult_1_r.
Qed.

End Rounding.

(** ** C4: the value of the budget *)

(** The claim C4 fails at 7 seconds and 35 milliseconds: 35/1000 rounds to
    a number above 0.035, the quotient 7/0.035 to 199.99999999999997, and
    its floor is 199, not 200. *)
Lemma seven_seconds_every_35_ms :
  positive_finite (of_Z 7%Z) = true /\
  positive_finite (of_Z 35%Z) = true /\
  claimed_iterations (of_Z 7%Z) (of_Z 35%Z) = Some 200%Z /\
  calculateIterations (of_Z 7%Z) (of_Z 35%Z) = Int 199%Z.
Proof. vm_compute. repeat split. Qed.

(** A quotient past the largest number is [Infinity], and so is its floor:
    1e308 seconds at 1e-5 milliseconds. *)
Example budget_overflows :
  let maxTimeout := S754_finite false 5010420900022432 971 in
  let interval := S754_finite false 5902958103587057 (-69) in
  valid_binary prec emax maxTimeout = true /\
  valid_binary prec emax interval = true /\
  calculateIterations maxTimeout interval = Infty false.
Proof. vm_compute. repeat split. Qed.

(** C4, as the program has it.  For positive finite [maxTimeoutSec] and
    [checkIntervalInMilliseconds] the calculator returns the floor of the
    binary64 quotient [maxTimeoutSec / (checkIntervalInMilliseconds / 1000)],
    each division rounded to nearest: a non-negative integer when that
    quotient is finite, and [Infinity] when it overflows.  For a whole
    number of seconds below 2^52 and an interval of a whole number [k] of
    seconds, [1000 * k] milliseconds below 2^53, no rounding is felt: the
    count is the integer quotient of the seconds by [k], which is the count
    the claim names. *)
Theorem budget_is_floor_of_rounded_quotient :
  (forall maxTimeoutSec interval : number,
     positive_finite maxTimeoutSec = true ->
     positive_finite interval = true ->
     let quotient := div maxTimeoutSec (div interval (of_Z 1000%Z)) in
     match to_Q quotient with
     | Some q =>
         calculateIterations maxTimeoutSec interval = Int (Qfloor q) /\
         (0 <= Qfloor q)%Z
     | None =>
         quotient = S754_infinity false /\
         calculateIterations maxTimeoutSec interval = Infty false
     end) /\
  (forall a k : Z,
     (0 < a < 2 ^ 52)%Z -> (0 < k)%Z -> (1000 * k < 2 ^ 53)%Z ->
     calculateIterations (of_Z a) (of_Z (1000 * k)) = Int (a / k) /\
     claimed_iterations (of_Z a) (of_Z (1000 * k)) = Some (a / k)%Z).
Proof.
  split.
  - intros maxTimeoutSec interval Hmax Hint quotient.
    assert (Hq : nonnegative quotient = true).
    { apply NumFacts.div_positive; trivial.
      now apply NumFacts.div_positive. }
    unfold calculateIterations. fold quotient.
    destruct (to_Q quotient) as [q|] eqn:HQ.
    + split; [now apply NumFacts.floor_spec|].
      change 0%Z with (Qfloor 0). apply Qfloor_resp_le.
      now apply (NumFacts.nonnegative_to_Q quotient).
    + destruct quotient as [[|]|[|]| |[|] m e]; try discriminate. now split.
  - intros a k Ha Hk Hik. split.
    + unfold calculateIterations.
      rewrite Rounding.div_exact_multiple by lia.
      apply Rounding.div_whole; lia.
    + unfold claimed_iterations.
      destruct (Rounding.to_Q_of_Z a ltac:(lia)) as (qa & -> & Hqa).
      destruct (Rounding.to_Q_of_Z (1000 * k) ltac:(lia)) as (qi & -> & Hqi).
      f_equal. rewrite Zdiv_Qdiv. apply Qfloor_comp.
      rewrite Hqa, Hqi, inject_Z_mult.
      assert (Hk0 : ~ (inject_Z k == 0)%Q).
      { unfold Qeq. simpl. lia. }
      change (inject_Z 1000) with 1000%Q. now field.
Qed.

Lemma budget_is_floor_of_rounded_quotient_witness :
  (calculateIterations (of_Z 60%Z) (of_Z 2000%Z) = Int 30%Z /\ (0 <= 30)%Z) /\
  (calculateIterations (of_Z 60%Z) (of_Z (1000 * 2)%Z) = Int (60 / 2)%Z /\
   claimed_iterations (of_Z 60%Z) (of_Z (1000 * 2)%Z) = Some (60 / 2)%Z).
Proof.
  destruct budget_is_floor_of_rounded_quotient as [Hgeneral Hwhole]. split.
  - exact (Hgeneral (of_Z 60%Z) (of_Z 2000%Z) eq_refl eq_refl).
  - apply Hwhole; lia.
Defined.

(** ** C10: a timeout shorter than the interval *)

(** The claim C10 fails in two ways.  At -1 second and 2000 milliseconds
    the count is -1, not 0.  At 1.01 seconds and 1010.0000000000001
    milliseconds, where also the product [1.01 * 1000] computed by the
    program is below the interval, the interval divided by 1000 rounds to
    1.01, the count is 1, and the discovery poller makes a request. *)
Lemma short_timeout_counterexample :
  times_1000_below (of_Z (-1)%Z) (of_Z 2000%Z) /\
  calculateIterations (of_Z (-1)%Z) (of_Z 2000%Z) = Int (-1)%Z /\
  let maxTimeout := S754_finite false 4548635623644201 (-52) in
  let interval := S754_finite false 8884053952430081 (-43) in
  valid_binary prec emax maxTimeout = true /\
  valid_binary prec emax interval = true /\
  times_1000_below maxTimeout interval /\
  ltb (mul maxTimeout (of_Z 1000%Z)) interval = true /\
  calculateIterations maxTimeout interval = Int 1%Z /\
  waitForDeploymentToStart Failing.nobody 3 "octo" "site" "abc123" "preview"
    "bot-x" (Some maxTimeout) (Some interval) =
  ([ListDeployments "octo" "site" "abc123" "preview";
    ConsoleLog (NoDeploymentRetry "bot-x" 1 (Int 1%Z));
    Wait interval], Returned None).
Proof. vm_compute. repeat split. Qed.

Lemma floor_div_below x y :
  valid_binary prec emax x = true ->
  valid_binary prec emax y = true ->
  nonnegative_finite x = true ->
  ltb x y = true ->
  floor (div x y) = Int 0%Z.
Proof.
  intros Hvx Hvy Hx Hlt.
  destruct x as [sx| | |[|] mx ex]; try discriminate;
    destruct y as [sy|[|]| |[|] my ey]; try discriminate; trivial.
  now apply Rounding.div_below_one.
Qed.

(** C10, as the program has it.  For a binary64 [maxTimeoutSec] that is
    finite, not negative and below [checkIntervalInMilliseconds / 1000] as
    the program computes that quotient, as 1 second is at the default
    interval of 2000 milliseconds, the iteration count is 0.  With a count
    of 0, as with a negative one or NaN, every poller makes no attempt: no
    request goes out, and the poller yields its timeout or absent outcome
    at once. *)
Theorem short_timeout_no_attempt :
  (forall maxTimeoutSec interval,
     valid_binary prec emax maxTimeoutSec = true ->
     nonnegative_finite maxTimeoutSec = true ->
     ltb maxTimeoutSec (div interval (of_Z 1000%Z)) = true ->
     calculateIterations maxTimeoutSec interval = Int 0%Z) /\
  calculateIterations (of_Z 1%Z) (of_Z 2000%Z) = Int 0%Z /\
  (forall (w : World) maxTimeoutSec interval fuel,
     budget (calculateIterations maxTimeoutSec interval) = Some 0 ->
     0 < fuel ->
     (forall url path,
        waitForUrl w fuel url maxTimeoutSec interval path =
        ([SetFailed ("Timeout reached: Unable to connect to " ++ url)],
         Returned tt)) /\
     (forall owner repo deployment_id allowInactive,
        waitForStatus w fuel owner repo deployment_id maxTimeoutSec
          allowInactive interval =
        ([SetFailed
            "Timeout reached: Unable to wait for an deployment to be successful"],
         Returned None)) /\
     (forall owner repo sha environment actorName,
        waitForDeploymentToStart w fuel owner repo sha environment actorName
          (Some maxTimeoutSec) (Some interval) = ([], Returned None))).
Proof.
  split; [|split; [reflexivity|]].
  - intros maxTimeoutSec interval Hvm Hm Hlt.
    apply floor_div_below; trivial. apply Rounding.div_valid.
  - intros w maxTimeoutSec interval fuel Hn Hfuel.
    split; [|split].
    + intros url path.
      rewrite (waitForUrl_times_out w url path maxTimeoutSec interval 0 fuel);
        trivial. intros j Hj. lia.
    + intros owner repo deployment_id allowInactive.
      rewrite (waitForStatus_times_out w owner repo deployment_id maxTimeoutSec
                 allowInactive interval 0 fuel); trivial.
      intros j Hj. lia.
    + intros owner repo sha environment actorName.
      rewrite (waitForDeploymentToStart_times_out w owner repo sha environment
                 actorName maxTimeoutSec interval 0 fuel); trivial.
      intros j Hj. lia.
Qed.

Lemma short_timeout_no_attempt_witness :
  calculateIterations (of_Z 1%Z) (of_Z 2000%Z) = Int 0%Z /\
  waitForDeploymentToStart Failing.nobody 1 "octo" "site" "abc123" "preview"
    "bot-x" (Some (of_Z 1%Z)) (Some (of_Z 2000%Z)) = ([], Returned None).
Proof.
  destruct short_timeout_no_attempt as (Hzero & _ & Hpollers). split.
  - apply Hzero; reflexivity.
  - apply (Hpollers Failing.nobody (of_Z 1%Z) (of_Z 2000%Z) 1); [reflexivity|lia].
Defined.

(** * Further properties of the code *)

(** ** The shape of a loop's trace *)

Lemma waits_app t1 t2 : waits (t1 ++ t2) = waits t1 ++ waits t2.
Proof. apply flat_map_app. Qed.

Lemma logs_no_waits (l : trace) : Forall is_log l -> waits l = [].
Proof.
  induction 1 as [|ev l Hev _ IH]; trivial.
  destruct ev; try contradiction; exact IH.
Qed.

Section LoopShape.

Context {R : Type}.
Variable iterations : integral.
Variable body : nat -> Eff (option R).
Hypothesis body_total : forall j, exists r, snd (body j) = Returned r.

(** However far the model follows it, a loop has made some [k] iterations
    that fell through, one after the other, and then either found the bound
    reached, or made an iteration that returned, or is still running. *)
Lemma for_loop_shape fuel : forall i,
  exists k,
    (forall j, i <= j < i + k ->
       snd (body j) = Returned None /\ lt_iterations j iterations = true) /\
    ((for_loop fuel iterations body i = (retries body i k, Returned None) /\
      lt_iterations (i + k) iterations = false) \/
     (exists v,
        for_loop fuel iterations body i =
          (retries body i k ++ fst (body (i + k)), Returned (Some v)) /\
        snd (body (i + k)) = Returned (Some v) /\
        lt_iterations (i + k) iterations = true) \/
     (for_loop fuel iterations body i = (retries body i k, Running) /\
      k = fuel)).
Proof.
  induction fuel as [|fuel IH]; intros i.
  - exists 0. split; [intros j Hj; lia|]. right. right. now split.
  - cbn [for_loop]. destruct (lt_iterations i iterations) eqn:Hlt.
    2:{ exists 0. split; [intros j Hj; lia|]. left.
        rewrite Nat.add_0_r. now split. }
    destruct (body_total i) as [[v|] Hr];
      rewrite (bind_eq _ _ (fst (body i)) _
                 (eq_trans (surjective_eff (body i)) (f_equal _ Hr))).
    + exists 0. split; [intros j Hj; lia|]. right. left. exists v.
      rewrite Nat.add_0_r. cbn [ret fst snd retries seq flat_map app].
      rewrite app_nil_r. now repeat split.
    + destruct (IH (S i)) as (k & Hbefore & Hend). exists (S k). split.
      * intros j Hj. destruct (Nat.eq_dec j i) as [->|Hne]; [now split|].
        apply Hbefore. lia.
      * replace (i + S k) with (S i + k) by lia. rewrite retries_S.
        destruct Hend as [[-> Hlast]|[(v & -> & Hv & Hlast)|[-> ->]]];
          cbn [fst snd].
        -- left. now split.
        -- right. left. exists v. rewrite app_assoc. now repeat split.
        -- right. right. now split.
Qed.

(** With a finite budget [n] and steps enough, the loop has ended: after
    [n] iterations that fell through, or at an iteration below [n] that
    returned. *)
Lemma for_loop_ends n fuel :
  budget iterations = Some n ->
  n < fuel ->
  exists k,
    (forall j, j < k -> snd (body j) = Returned None) /\
    ((k = n /\ for_loop fuel iterations body 0 = (retries body 0 n, Returned None)) \/
     (k < n /\ exists v,
        for_loop fuel iterations body 0 =
          (retries body 0 k ++ fst (body k), Returned (Some v)) /\
        snd (body k) = Returned (Some v))).
Proof.
  intros Hn Hfuel. destruct (for_loop_shape fuel 0) as (k & Hbefore & Hend).
  cbn [Nat.add] in *.
  assert (Hk : k <= n).
  { destruct (Nat.le_gt_cases k n) as [|Hgt]; trivial.
    destruct (Hbefore n ltac:(lia)) as [_ Hlt].
    rewrite (lt_iterations_budget _ _ _ Hn), Nat.ltb_irrefl in Hlt.
    discriminate. }
  exists k. split; [intros j Hj; apply Hbefore; lia|].
  destruct Hend as [[Hloop Hlast]|[(v & Hloop & Hv & Hlast)|[_ ->]]]; [| |lia].
  - rewrite (lt_iterations_budget _ _ _ Hn) in Hlast.
    apply Nat.ltb_ge in Hlast. assert (k = n) by lia. subst k. now left.
  - rewrite (lt_iterations_budget _ _ _ Hn) in Hlast.
    apply Nat.ltb_lt in Hlast. right. split; trivial. now exists v.
Qed.

End LoopShape.

Lemma retries_waits {R} (body : nat -> Eff (option R)) interval k : forall i,
  (forall j, i <= j < i + k -> snd (body j) = Returned None) ->
  (forall j, snd (body j) = Returned None -> waits (fst (body j)) = [interval]) ->
  waits (retries body i k) = repeat interval k.
Proof.
  induction k as [|k IH]; intros i Hnone Hsleep; trivial.
  rewrite retries_S, waits_app, Hsleep by (apply Hnone; lia).
  rewrite IH; trivial. intros j Hj. apply Hnone. lia.
Qed.

(** ** An attempt that falls through ends by sleeping *)

Section AttemptSleeps.

Variable w : World.

Lemma waitForUrl_attempt_sleep url path interval iterations i :
  let attempt := waitForUrl_attempt w url path interval iterations i in
  match snd attempt with
  | Returned None =>
      exists t', fst attempt = t' ++ [Wait interval] /\ waits t' = []
  | _ => waits (fst attempt) = []
  end.
Proof.
  cbv zeta. rewrite waitForUrl_attempt_spec.
  destruct (URL_href w path url) as [href|].
  - destruct (axios_get w href i) as [[]|e]; cbn [fst snd]; [reflexivity|].
    exists (AxiosGet href :: waitForUrl_logs iterations i e).
    split; [reflexivity|].
    change (waits (waitForUrl_logs iterations i e) = []).
    apply logs_no_waits, waitForUrl_logs_logged.
  - now exists [ConsoleLog (ErrorObject (TypeError "Invalid URL"))].
Qed.

Lemma waitForStatus_attempt_sleep owner repo deployment_id allowInactive
    interval iterations i :
  let attempt :=
    waitForStatus_attempt w owner repo deployment_id allowInactive interval
      iterations i in
  match snd attempt with
  | Returned None =>
      exists t', fst attempt = t' ++ [Wait interval] /\ waits t' = []
  | _ => waits (fst attempt) = []
  end.
Proof.
  cbv zeta. rewrite waitForStatus_attempt_spec.
  destruct (listDeploymentStatuses w owner repo deployment_id i)
    as [[|s older]|e]; cbn [fst snd].
  - now eexists [_; _; _; _].
  - destruct (accepted allowInactive s); cbn [fst snd]; [reflexivity|].
    now eexists [_; _; _].
  - exists (ListDeploymentStatuses owner repo deployment_id ::
            waitForStatus_logs iterations i e).
    split; [reflexivity|].
    change (waits (waitForStatus_logs iterations i e) = []).
    apply logs_no_waits, waitForStatus_logs_logged.
Qed.

Lemma waitForDeploymentToStart_attempt_sleep owner repo sha environment
    actorName interval iterations i :
  let attempt :=
    waitForDeploymentToStart_attempt w owner repo sha environment actorName
      interval iterations i in
  match snd attempt with
  | Returned None =>
      exists t', fst attempt = t' ++ [Wait interval] /\ waits t' = []
  | _ => waits (fst attempt) = []
  end.
Proof.
  cbv zeta. rewrite waitForDeploymentToStart_attempt_spec.
  destruct (listDeployments w owner repo sha environment i) as [data|e];
    [find_cases actorName data|]; cbn [fst snd].
  - reflexivity.
  - now eexists [_; _].
  - now eexists [_; _; _].
  - now eexists [_; _; _].
Qed.

End AttemptSleeps.

(** What a body that sleeps so gives a loop: [k] sleeps for [k] iterations
    that fell through, none for the one that returned. *)
Lemma sleeping_body {R} (body : nat -> Eff (option R)) interval :
  (forall j,
     match snd (body j) with
     | Returned None =>
         exists t', fst (body j) = t' ++ [Wait interval] /\ waits t' = []
     | _ => waits (fst (body j)) = []
     end) ->
  (forall j, snd (body j) = Returned None -> waits (fst (body j)) = [interval]) /\
  (forall j v, snd (body j) = Returned (Some v) -> waits (fst (body j)) = []) /\
  (forall i k, (forall j, i <= j < i + S k -> snd (body j) = Returned None) ->
     exists t', retries body i (S k) = t' ++ [Wait interval]).
Proof.
  intros Hsleep. repeat split.
  - intros j Hj. specialize (Hsleep j). rewrite Hj in Hsleep.
    destruct Hsleep as (t' & -> & Ht'). now rewrite waits_app, Ht'.
  - intros j v Hj. specialize (Hsleep j). now rewrite Hj in Hsleep.
  - intros i k Hnone. rewrite retries_snoc.
    specialize (Hsleep (i + k)). rewrite Hnone in Hsleep by lia.
    destruct Hsleep as (t' & -> & _).
    exists (retries body i k ++ t'). now rewrite app_assoc.
Qed.

Lemma for_loop_sleeps {R} (iterations : integral) (body : nat -> Eff (option R))
    interval n fuel :
  (forall j, exists r, snd (body j) = Returned r) ->
  (forall j,
     match snd (body j) with
     | Returned None =>
         exists t', fst (body j) = t' ++ [Wait interval] /\ waits t' = []
     | _ => waits (fst (body j)) = []
     end) ->
  budget iterations = Some n ->
  n < fuel ->
  let loop := for_loop fuel iterations body 0 in
  exists k,
    waits (fst loop) = repeat interval k /\
    ((k = n /\ snd loop = Returned None /\
      (0 < n -> exists t', fst loop = t' ++ [Wait interval])) \/
     (k < n /\ exists v, snd loop = Returned (Some v))).
Proof.
  intros Htotal Hsleep Hn Hfuel loop. subst loop.
  destruct (sleeping_body body interval Hsleep) as (Hnone & Hsome & Hlast).
  destruct (for_loop_ends iterations body Htotal n fuel Hn Hfuel)
    as (k & Hbefore & [[Hk Hloop]|(Hk & v & Hloop & Hv)]);
    exists k; rewrite Hloop; cbn [fst snd].
  - subst k.
    split; [apply retries_waits; trivial; intros j Hj; apply Hbefore; lia|].
    left. repeat split. intros Hpos. destruct n as [|n]; [lia|].
    apply Hlast. intros j Hj. apply Hbefore. lia.
  - split; [|right; split; trivial; now exists v].
    rewrite waits_app, (Hsome k v Hv), app_nil_r.
    apply retries_waits; trivial. intros j Hj. apply Hbefore. lia.
Qed.

(** ** The sleeps of a poller *)

Section PollerSleeps.

Variables (w : World) (maxTimeout interval : number) (n fuel : nat).
Hypothesis finite_budget :
  budget (calculateIterations maxTimeout interval) = Some n.
Hypothesis enough_fuel : n < fuel.

Lemma waitForUrl_sleeps url path :
  let result := waitForUrl w fuel url maxTimeout interval path in
  let timeout := ("Timeout reached: Unable to connect to " ++ url)%string in
  snd result = Returned tt /\
  exists k,
    waits (fst result) = repeat interval k /\
    ((k = n /\ failures (fst result) = [timeout] /\
      (0 < n ->
       exists t', fst result = t' ++ [Wait interval; SetFailed timeout])) \/
     (k < n /\ failures (fst result) = [])).
Proof.
  cbv zeta. unfold waitForUrl.
  set (iterations := calculateIterations maxTimeout interval) in *.
  set (attempt := waitForUrl_attempt w url path interval iterations).
  assert (Htotal : forall j, exists r, snd (attempt j) = Returned r).
  { intros j. destruct (waitForUrl_attempt_total w url path interval iterations j)
      as (r & Hr & _). now exists r. }
  destruct (for_loop_sleeps iterations attempt interval n fuel Htotal
              (waitForUrl_attempt_sleep w url path interval iterations)
              finite_budget enough_fuel) as (k & Hw & Hend).
  assert (Hquiet : failures (fst (for_loop fuel iterations attempt 0)) = []).
  { apply quiet_silent, for_loop_Forall. intros j. apply quiet_silent.
    destruct (waitForUrl_attempt_total w url path interval iterations j)
      as (r & _ & Hf & Ho). now split. }
  rewrite bind_spec.
  destruct Hend as [(-> & Hnone & Hlast)|(Hk & [] & Hsome)].
  - rewrite Hnone. cbn [setFailed emit fst snd]. split; trivial.
    exists n. rewrite waits_app, Hw, failures_app, Hquiet, app_nil_r.
    split; trivial. left. repeat split. intros Hpos.
    destruct (Hlast Hpos) as (t' & ->). exists t'. now rewrite <- app_assoc.
  - rewrite Hsome. cbn [ret fst snd]. rewrite app_nil_r. split; trivial.
    exists k. split; trivial. now right.
Qed.

Lemma waitForStatus_sleeps owner repo deployment_id allowInactive :
  let result :=
    waitForStatus w fuel owner repo deployment_id maxTimeout allowInactive
      interval in
  let timeout :=
    "Timeout reached: Unable to wait for an deployment to be successful"%string in
  exists k,
    waits (fst result) = repeat interval k /\
    ((k = n /\ snd result = Returned None /\
      (0 < n ->
       exists t', fst result = t' ++ [Wait interval; SetFailed timeout])) \/
     (k < n /\ exists s, snd result = Returned (Some s))).
Proof.
  cbv zeta. unfold waitForStatus.
  set (iterations := calculateIterations maxTimeout interval) in *.
  set (attempt := waitForStatus_attempt w owner repo deployment_id allowInactive
                    interval iterations).
  assert (Htotal : forall j, exists r, snd (attempt j) = Returned r).
  { intros j. destruct (waitForStatus_attempt_total w owner repo deployment_id
                          allowInactive interval iterations j) as (r & Hr & _).
    now exists r. }
  destruct (for_loop_sleeps iterations attempt interval n fuel Htotal
              (waitForStatus_attempt_sleep w owner repo deployment_id
                 allowInactive interval iterations)
              finite_budget enough_fuel) as (k & Hw & Hend).
  rewrite bind_spec.
  destruct Hend as [(-> & Hnone & Hlast)|(Hk & s & Hsome)].
  - rewrite Hnone. cbn [bind ret setFailed emit fst snd app].
    exists n. rewrite waits_app, Hw, app_nil_r.
    split; trivial. left. repeat split. intros Hpos.
    destruct (Hlast Hpos) as (t' & ->). exists t'. now rewrite <- app_assoc.
  - rewrite Hsome. cbn [ret fst snd]. rewrite app_nil_r.
    exists k. split; trivial. right. split; trivial. now exists s.
Qed.

Lemma waitForDeploymentToStart_sleeps owner repo sha environment actorName :
  let result :=
    waitForDeploymentToStart w fuel owner repo sha environment actorName
      (Some maxTimeout) (Some interval) in
  exists k,
    waits (fst result) = repeat interval k /\
    ((k = n /\ snd result = Returned None /\
      (0 < n -> exists t', fst result = t' ++ [Wait interval])) \/
     (k < n /\ exists d, snd result = Returned (Some d))).
Proof.
  cbv zeta. unfold waitForDeploymentToStart.
  apply for_loop_sleeps; trivial.
  - intros j. destruct (waitForDeploymentToStart_attempt_total w owner repo sha
                          environment actorName interval
                          (calculateIterations maxTimeout interval) j)
      as (r & Hr & _). now exists r.
  - apply waitForDeploymentToStart_attempt_sleep.
Qed.

End PollerSleeps.

(** X7. A poller sleeps exactly once for each attempt that falls through,
    always for the interval, and never after an attempt that succeeds.  With
    a finite budget [n], an invocation that succeeds has slept fewer than
    [n] times; one that times out has slept [n] times, the last sleep
    coming right before the timeout is reported. *)
Theorem poller_sleeps_once_per_failed_attempt (w : World)
    (maxTimeout interval : number) (n fuel : nat) :
  budget (calculateIterations maxTimeout interval) = Some n ->
  n < fuel ->
  (forall url path,
     let result := waitForUrl w fuel url maxTimeout interval path in
     let timeout := ("Timeout reached: Unable to connect to " ++ url)%string in
     exists k,
       waits (fst result) = repeat interval k /\
       ((k = n /\ failures (fst result) = [timeout] /\
         (0 < n ->
          exists t', fst result = t' ++ [Wait interval; SetFailed timeout])) \/
        (k < n /\ failures (fst result) = []))) /\
  (forall owner repo deployment_id allowInactive,
     let result :=
       waitForStatus w fuel owner repo deployment_id maxTimeout allowInactive
         interval in
     let timeout :=
       "Timeout reached: Unable to wait for an deployment to be successful"%string in
     exists k,
       waits (fst result) = repeat interval k /\
       ((k = n /\ snd result = Returned None /\
         (0 < n ->
          exists t', fst result = t' ++ [Wait interval; SetFailed timeout])) \/
        (k < n /\ exists s, snd result = Returned (Some s)))) /\
  (forall owner repo sha environment actorName,
     let result :=
       waitForDeploymentToStart w fuel owner repo sha environment actorName
         (Some maxTimeout) (Some interval) in
     exists k,
       waits (fst result) = repeat interval k /\
       ((k = n /\ snd result = Returned None /\
         (0 < n -> exists t', fst result = t' ++ [Wait interval])) \/
        (k < n /\ exists d, snd result = Returned (Some d)))).
Proof.
  intros Hn Hfuel. split; [|split].
  - intros url path. apply (waitForUrl_sleeps w maxTimeout interval n fuel Hn Hfuel).
  - intros owner repo deployment_id allowInactive.
    apply (waitForStatus_sleeps w maxTimeout interval n fuel Hn Hfuel).
  - intros owner repo sha environment actorName.
    apply (waitForDeploymentToStart_sleeps w maxTimeout interval n fuel Hn Hfuel).
Qed.

Lemma poller_sleeps_once_per_failed_attempt_witness :
  budget (calculateIterations (of_Z 4%Z) (of_Z 2000%Z)) = Some 2 /\
  exists k,
    waits (fst (waitForUrl Failing.unreachable 3 "https://preview-42.example.com"
                  (of_Z 4%Z) (of_Z 2000%Z) "/")) = repeat (of_Z 2000%Z) k.
Proof.
  split; [reflexivity|].
  destruct (poller_sleeps_once_per_failed_attempt Failing.unreachable
              (of_Z 4%Z) (of_Z 2000%Z) 2 3 eq_refl ltac:(lia)) as (Hurl & _).
  destruct (Hurl "https://preview-42.example.com"%string "/"%string)
    as (k & Hk & _).
  now exists k.
Defined.

(** ** An address that cannot be parsed *)

Lemma retries_constant {R} (body : nat -> Eff (option R)) (t : trace) n :
  forall i, (forall j, fst (body j) = t) ->
  retries body i n = List.concat (repeat t n).
Proof.
  induction n as [|n IH]; intros i Hbody; trivial.
  rewrite retries_S, Hbody, IH; trivial.
Qed.

Lemma calls_repeat (t : trace) n : calls t = [] -> calls (List.concat (repeat t n)) = [].
Proof.
  intros Ht. induction n as [|n IH]; trivial.
  cbn [repeat List.concat]. now rewrite calls_app, Ht, IH.
Qed.

(** X6. When [new URL(path, url)] throws, as it does for an address
    without a scheme, the reachability poller never sends a request: each
    of its [n] attempts prints the error and sleeps for the interval, and
    the timeout is reported after [n] sleeps. *)
Theorem malformed_address_never_requests (w : World) (url path : string)
    (maxTimeout interval : number) (n fuel : nat) :
  URL_href w path url = None ->
  budget (calculateIterations maxTimeout interval) = Some n ->
  n < fuel ->
  let result := waitForUrl w fuel url maxTimeout interval path in
  result =
    (List.concat (repeat [ConsoleLog (ErrorObject (TypeError "Invalid URL"));
                     Wait interval] n) ++
     [SetFailed ("Timeout reached: Unable to connect to " ++ url)],
     Returned tt) /\
  calls (fst result) = [] /\
  waits (fst result) = repeat interval n.
Proof.
  intros Hurl Hn Hfuel result.
  assert (Hattempt : forall j,
            waitForUrl_attempt w url path interval
              (calculateIterations maxTimeout interval) j =
            ([ConsoleLog (ErrorObject (TypeError "Invalid URL")); Wait interval],
             Returned None)).
  { intros j. now rewrite waitForUrl_attempt_spec, Hurl. }
  assert (Hres : result =
            (List.concat (repeat [ConsoleLog (ErrorObject (TypeError "Invalid URL"));
                             Wait interval] n) ++
             [SetFailed ("Timeout reached: Unable to connect to " ++ url)],
             Returned tt)).
  { unfold result. rewrite (waitForUrl_times_out w url path maxTimeout interval n fuel);
      trivial.
    - f_equal. f_equal. apply retries_constant. intros j. now rewrite Hattempt.
    - intros j _. now rewrite Hattempt. }
  split; trivial. rewrite Hres. cbn [fst]. split.
  - rewrite calls_app. now rewrite calls_repeat.
  - rewrite waits_app, app_nil_r. clear. induction n as [|n IH]; trivial.
    cbn [repeat List.concat]. rewrite waits_app, IH. reflexivity.
Qed.

Lemma malformed_address_never_requests_witness :
  calls (fst (waitForUrl Failing.unreachable 3 "preview-42.example.com"
                (of_Z 4%Z) (of_Z 2000%Z) "/")) = [] /\
  waits (fst (waitForUrl Failing.unreachable 3 "preview-42.example.com"
                (of_Z 4%Z) (of_Z 2000%Z) "/")) = [of_Z 2000%Z; of_Z 2000%Z].
Proof.
  destruct (malformed_address_never_requests Failing.unreachable
              "preview-42.example.com" "/" (of_Z 4%Z) (of_Z 2000%Z) 2 3
              eq_refl eq_refl ltac:(lia)) as (_ & Hcalls & Hwaits).
  split; [exact Hcalls|exact Hwaits].
Defined.

(** ** The classification of a status *)

(** X9. The classification of a reply throws one of two errors only: "No
    status was available" for an empty list, and the one on the state
    "success" otherwise.  The error "Unknown status error" of line 98 is
    never thrown, and an attempt whose request is answered never prints
    it. *)
Theorem unknown_status_error_unreachable (w : World) (owner repo : string)
    (deployment_id : nat) (allowInactive : bool) (interval : number)
    (iterations : integral) (i : nat) (data : list deployment_status) :
  listDeploymentStatuses w owner repo deployment_id i = Resolved data ->
  (forall e,
     snd (waitForStatus_classify allowInactive data) = Thrown e ->
     (data = [] /\ e = StatusError "No status was available") \/
     (exists s older,
        data = s :: older /\ accepted allowInactive s = false /\
        e = StatusError (no_success_prefix ++ " was available"))) /\
  snd (waitForStatus_classify allowInactive data) <>
    Thrown (StatusError "Unknown status error") /\
  ~ In (ConsoleLog (Text "Unknown status error"))
       (fst (waitForStatus_attempt w owner repo deployment_id allowInactive
               interval iterations i)).
Proof.
  intros Hreply. rewrite waitForStatus_attempt_spec, Hreply.
  rewrite waitForStatus_classify_spec.
  destruct data as [|s older]; cbn [fst snd].
  - repeat split.
    + intros e He. left. split; trivial. now inversion He.
    + discriminate.
    + intros [H|[H|[H|[H|[H|[]]]]]]; discriminate.
  - destruct (accepted allowInactive s) eqn:Hacc; cbn [fst snd]; repeat split;
      try discriminate.
    + intros [H|[H|[]]]; discriminate.
    + intros e He. right. exists s, older. repeat split; trivial. now inversion He.
    + intros [H|[H|[H|[H|[]]]]]; discriminate.
Qed.

Lemma unknown_status_error_unreachable_witness :
  snd (waitForStatus_classify false [Scenario.pending]) <>
    Thrown (StatusError "Unknown status error").
Proof.
  exact (proj1 (proj2 (unknown_status_error_unreachable Scenario.world "octo"
                         "site" 42 false (of_Z 2000%Z) (Int 30%Z) 0
                         [Scenario.pending] eq_refl))).
Defined.

(** ** A timeout of [Infinity] *)

Lemma for_loop_running {R} (iterations : integral) (body : nat -> Eff (option R))
    fuel :
  budget iterations = None ->
  (forall j, snd (body j) = Returned None) ->
  for_loop fuel iterations body 0 = (retries body 0 fuel, Running).
Proof.
  intros Hinf Hnone.
  destruct (for_loop_shape iterations body
              (fun j => ex_intro _ None (Hnone j)) fuel 0)
    as (k & _ & [[_ Hlast]|[(v & _ & Hv & _)|[Hloop ->]]]); trivial.
  - now rewrite (lt_iterations_unbounded _ _ Hinf) in Hlast.
  - now rewrite Hnone in Hv.
Qed.

(** X12. With a maximum of [Infinity] and an interval whose thousandth is
    a positive finite number, the iteration count is [Infinity], and a
    poller whose attempts all fall through never gives up: however many
    iterations the model follows, the poller has slept that many times, has
    reported no timeout and has not returned. *)
Theorem infinite_timeout_never_gives_up (w : World) (interval : number)
    (fuel : nat) :
  positive_finite (div interval (of_Z 1000%Z)) = true ->
  let maxTimeout := S754_infinity false in
  let iterations := calculateIterations maxTimeout interval in
  iterations = Infty false /\
  (forall url path,
     (forall j, snd (waitForUrl_attempt w url path interval iterations j) =
                Returned None) ->
     let result := waitForUrl w fuel url maxTimeout interval path in
     snd result = Running /\ failures (fst result) = [] /\
     waits (fst result) = repeat interval fuel) /\
  (forall owner repo deployment_id allowInactive,
     (forall j, snd (waitForStatus_attempt w owner repo deployment_id
                       allowInactive interval iterations j) = Returned None) ->
     let result :=
       waitForStatus w fuel owner repo deployment_id maxTimeout allowInactive
         interval in
     snd result = Running /\ failures (fst result) = [] /\
     waits (fst result) = repeat interval fuel) /\
  (forall owner repo sha environment actorName,
     (forall j, snd (waitForDeploymentToStart_attempt w owner repo sha
                       environment actorName interval iterations j) =
                Returned None) ->
     let result :=
       waitForDeploymentToStart w fuel owner repo sha environment actorName
         (Some maxTimeout) (Some interval) in
     snd result = Running /\ waits (fst result) = repeat interval fuel).
Proof.
  intros Hpos maxTimeout iterations.
  assert (Hinf : iterations = Infty false).
  { unfold iterations, calculateIterations, maxTimeout.
    now destruct (div interval (of_Z 1000%Z)) as [| | |[|] m e]. }
  assert (Hbudget : budget iterations = None) by now rewrite Hinf.
  split; trivial. split; [|split].
  - intros url path Hnone result. unfold result, waitForUrl.
    fold iterations. rewrite (for_loop_running iterations _ fuel Hbudget Hnone).
    cbn [bind fst snd]. split; trivial.
    destruct (waitForUrl_retries_silent w url path maxTimeout interval 0 fuel)
      as [Hf _].
    split; trivial. apply retries_waits; [intros j _; apply Hnone|].
    apply (sleeping_body _ interval
             (waitForUrl_attempt_sleep w url path interval iterations)).
  - intros owner repo deployment_id allowInactive Hnone result.
    unfold result, waitForStatus.
    fold iterations. rewrite (for_loop_running iterations _ fuel Hbudget Hnone).
    cbn [bind fst snd]. split; trivial.
    destruct (waitForStatus_retries_silent w owner repo deployment_id maxTimeout
                allowInactive interval 0 fuel) as [Hf _].
    split; trivial. apply retries_waits; [intros j _; apply Hnone|].
    apply (sleeping_body _ interval
             (waitForStatus_attempt_sleep w owner repo deployment_id
                allowInactive interval iterations)).
  - intros owner repo sha environment actorName Hnone result.
    unfold result, waitForDeploymentToStart.
    fold iterations. rewrite (for_loop_running iterations _ fuel Hbudget Hnone).
    cbn [fst snd]. split; trivial.
    apply retries_waits; [intros j _; apply Hnone|].
    apply (sleeping_body _ interval
             (waitForDeploymentToStart_attempt_sleep w owner repo sha
                environment actorName interval iterations)).
Qed.

Lemma infinite_timeout_never_gives_up_witness :
  calculateIterations (S754_infinity false) (of_Z 2000%Z) = Infty false /\
  snd (waitForDeploymentToStart Failing.nobody 100 "octo" "site" "abc123"
         "preview" "bot-x" (Some (S754_infinity false)) (Some (of_Z 2000%Z))) =
  Running.
Proof.
  destruct (infinite_timeout_never_gives_up Failing.nobody (of_Z 2000%Z) 100
              eq_refl) as (Hinf & _ & _ & Hdiscovery).
  split; [exact Hinf|].
  apply (Hdiscovery "octo" "site" "abc123" "preview" "bot-x")%string.
  intros j. reflexivity.
Defined.

(** ** The defaults of the discovery poller *)

(** X13. Called without [maxTimeout] and [checkIntervalInMilliseconds],
    the discovery poller takes 20 seconds and 2000 milliseconds: when no
    deployment of the actor shows up it returns [null] after exactly 10
    requests and 10 sleeps of 2000 milliseconds. *)
Theorem discovery_default_budget (w : World)
    (owner repo sha environment actorName : string) (fuel : nat) :
  10 < fuel ->
  (forall j, j < 10 ->
     match listDeployments w owner repo sha environment j with
     | Resolved data => forall x, In x data -> created_by actorName x = false
     | Rejected _ => True
     end) ->
  let result :=
    waitForDeploymentToStart w fuel owner repo sha environment actorName
      None None in
  snd result = Returned None /\
  calls (fst result) =
    repeat (ListDeployments owner repo sha environment) 10 /\
  waits (fst result) = repeat (of_Z 2000%Z) 10.
Proof.
  intros Hfuel Hnone result.
  assert (Hres : result =
            (retries (waitForDeploymentToStart_attempt w owner repo sha
                        environment actorName (of_Z 2000%Z)
                        (calculateIterations (of_Z 20%Z) (of_Z 2000%Z))) 0 10,
             Returned None)).
  { apply (waitForDeploymentToStart_times_out w owner repo sha environment
             actorName (of_Z 20%Z) (of_Z 2000%Z) 10 fuel); trivial.
    intros j Hj. now apply discovery_attempt_no_match, Hnone. }
  rewrite Hres. cbn [fst snd]. split; trivial.
  assert (Hcalls : forall j, j < 10 ->
            calls (fst (waitForDeploymentToStart_attempt w owner repo sha
                          environment actorName (of_Z 2000%Z)
                          (calculateIterations (of_Z 20%Z) (of_Z 2000%Z)) j)) =
            [ListDeployments owner repo sha environment]).
  { intros j Hj. rewrite waitForDeploymentToStart_attempt_spec.
    destruct (listDeployments w owner repo sha environment j) as [data|e];
      [find_cases actorName data|]; reflexivity. }
  split.
  - unfold retries. cbn [seq flat_map]. rewrite !calls_app, !Hcalls by lia.
    reflexivity.
  - apply retries_waits.
    + intros j Hj. apply discovery_attempt_no_match, Hnone. lia.
    + apply (sleeping_body _ (of_Z 2000%Z)
               (waitForDeploymentToStart_attempt_sleep w owner repo sha
                  environment actorName (of_Z 2000%Z)
                  (calculateIterations (of_Z 20%Z) (of_Z 2000%Z)))).
Qed.

Lemma discovery_default_budget_witness :
  snd (waitForDeploymentToStart Failing.nobody 11 "octo" "site" "abc123"
         "preview" "bot-x" None None) = Returned None /\
  List.length
    (calls (fst (waitForDeploymentToStart Failing.nobody 11 "octo" "site"
                   "abc123" "preview" "bot-x" None None))) = 10.
Proof.
  destruct (discovery_default_budget Failing.nobody "octo" "site" "abc123"
              "preview" "bot-x" 11 ltac:(lia)) as (Hnull & Hcalls & _).
  - intros j _ x [<-|[]]. reflexivity.
  - split; [exact Hnull|]. now rewrite Hcalls.
Defined.

(** ** The commit of a run *)

(** The commit a run looks deployments up for, by what the context holds
    and what the pull request lookup is answered with. *)
Lemma resolve_sha_spec (w : World) (ctx : Context) :
  resolve_sha w ctx =
  match pull_request ctx with
  | None => ([], Returned (if Boolean (sha ctx) then Some (sha ctx) else None))
  | Some None | Some (Some 0) =>
      ([SetFailed "No pull request number was found"], Returned None)
  | Some (Some (S n)) =>
      let request := PullsGet (owner ctx) (repo ctx) (S n) in
      match pulls_get w (owner ctx) (repo ctx) (S n) with
      | Rejected e => ([request], Thrown e)
      | Resolved pr =>
          if (status pr =? 200)%nat then ([request], Returned (Some (head_sha pr)))
          else
            ([request;
              SetFailed "Could not get information about the current pull request"],
             Returned None)
      end
  end.
Proof.
  unfold resolve_sha, getShaForPullRequest.
  destruct (pull_request ctx) as [[[|n]|]|]; eff_unfold; cbn [app]; trivial.
  - destruct (pulls_get w (owner ctx) (repo ctx) (S n)) as [pr|e]; trivial.
    cbn [app]. now destruct (status pr =? 200)%nat.
  - now destruct (Boolean (sha ctx)).
Qed.

(** X4. With a token that is not empty once trimmed, when the commit
    cannot be determined the run ends before any deployment is looked up,
    and all but one of the ways report two failures: a pull request payload
    without a number (or with number 0), and a lookup answered with a status
    other than 200, are each reported and followed by "Unable to determine
    SHA. Exiting...".  A rejected lookup is reported once, with the error's
    message; a lookup that names no head commit, and a push without a
    commit, are reported once. *)
Theorem commit_resolution_failures (w : World) (fuel : nat) (inp : Inputs)
    (ctx : Context) :
  Boolean (GITHUB_TOKEN inp) = true ->
  let undetermined := SetFailed "Unable to determine SHA. Exiting..." in
  (pull_request ctx = Some None \/ pull_request ctx = Some (Some 0) ->
   run w fuel inp ctx =
   ([SetFailed "No pull request number was found"; undetermined], Returned tt)) /\
  (forall n pr,
     pull_request ctx = Some (Some (S n)) ->
     pulls_get w (owner ctx) (repo ctx) (S n) = Resolved pr ->
     status pr <> 200 ->
     run w fuel inp ctx =
     ([PullsGet (owner ctx) (repo ctx) (S n);
       SetFailed "Could not get information about the current pull request";
       undetermined], Returned tt)) /\
  (forall n e,
     pull_request ctx = Some (Some (S n)) ->
     pulls_get w (owner ctx) (repo ctx) (S n) = Rejected e ->
     run w fuel inp ctx =
     ([PullsGet (owner ctx) (repo ctx) (S n); SetFailed (message e)],
      Returned tt)) /\
  (forall n pr,
     pull_request ctx = Some (Some (S n)) ->
     pulls_get w (owner ctx) (repo ctx) (S n) = Resolved pr ->
     status pr = 200 -> head_sha pr = ""%string ->
     run w fuel inp ctx =
     ([PullsGet (owner ctx) (repo ctx) (S n); undetermined], Returned tt)) /\
  (pull_request ctx = None -> sha ctx = ""%string ->
   run w fuel inp ctx = ([undetermined], Returned tt)).
Proof.
  intros Htok undetermined. rewrite run_spec, Htok, resolve_sha_spec.
  repeat split.
  - intros [-> | ->]; reflexivity.
  - intros n pr -> -> Hstatus.
    now rewrite (proj2 (Nat.eqb_neq _ _) Hstatus).
  - now intros n e -> ->.
  - intros n pr -> -> -> Hsha. cbn [Nat.eqb fst snd falsy]. cbv zeta.
    cbn [fst snd falsy]. now rewrite (proj2 (Boolean_empty _) Hsha).
  - intros -> Hsha. now rewrite (proj2 (Boolean_empty _) Hsha).
Qed.

Lemma commit_resolution_failures_witness :
  failures (fst (run PullRequest.world 3 Scenario.inputs PullRequest.unnumbered)) =
    ["No pull request number was found";
     "Unable to determine SHA. Exiting..."]%string /\
  failures (fst (run PullRequest.world 3 Scenario.inputs PullRequest.unknown)) =
    ["Could not get information about the current pull request";
     "Unable to determine SHA. Exiting..."]%string /\
  failures (fst (run PullRequest.down 3 Scenario.inputs PullRequest.context)) =
    ["Bad credentials"%string].
Proof.
  destruct (commit_resolution_failures PullRequest.world 3 Scenario.inputs
              PullRequest.unnumbered eq_refl) as (Hnumber & _).
  destruct (commit_resolution_failures PullRequest.world 3 Scenario.inputs
              PullRequest.unknown eq_refl) as (_ & Hstatus & _).
  destruct (commit_resolution_failures PullRequest.down 3 Scenario.inputs
              PullRequest.context eq_refl) as (_ & _ & Hdown & _).
  rewrite (Hnumber (or_introl eq_refl)).
  rewrite (Hstatus 7 {| status := 404; head_sha := "" |} eq_refl eq_refl)
    by discriminate.
  rewrite (Hdown 6 (Error "Bad credentials") eq_refl eq_refl).
  repeat split.
Defined.

(** X14. On a pull request whose lookup is answered 200 with a head
    commit, the run looks deployments up for that head commit, whatever
    commit the context names: its trace is the lookup followed by the trace
    of discovery for the head commit.  Without a pull request payload no
    lookup is made, and discovery is for the commit of the context. *)
Theorem commit_comes_from_pull_request (w : World) (fuel : nat) (inp : Inputs)
    (ctx : Context) :
  Boolean (GITHUB_TOKEN inp) = true ->
  (forall n pr,
     pull_request ctx = Some (Some (S n)) ->
     pulls_get w (owner ctx) (repo ctx) (S n) = Resolved pr ->
     status pr = 200 -> head_sha pr <> ""%string ->
     resolve_sha w ctx =
       ([PullsGet (owner ctx) (repo ctx) (S n)], Returned (Some (head_sha pr))) /\
     exists t',
       fst (run w fuel inp ctx) =
       PullsGet (owner ctx) (repo ctx) (S n) ::
       fst (run_discover w fuel inp ctx (head_sha pr)) ++ t') /\
  (pull_request ctx = None -> sha ctx <> ""%string ->
   resolve_sha w ctx = ([], Returned (Some (sha ctx))) /\
   exists t',
     fst (run w fuel inp ctx) = fst (run_discover w fuel inp ctx (sha ctx)) ++ t').
Proof.
  intros Htok.
  assert (Hrun : forall t0 c,
            resolve_sha w ctx = (t0, Returned (Some c)) -> c <> ""%string ->
            exists t', fst (run w fuel inp ctx) =
                       t0 ++ fst (run_discover w fuel inp ctx c) ++ t').
  { intros t0 c Hres Hc. rewrite run_spec, Htok, Hres. cbn [fst snd falsy js_string].
    cbv zeta. destruct (Boolean c) eqn:Hb; [|now apply Boolean_empty in Hb].
    cbn [negb]. rewrite run_with_sha_spec. cbv zeta.
    fold (run_discover w fuel inp ctx c).
    destruct (snd (run_discover w fuel inp ctx c)) as [[d|]|e|]; cbn [fst snd].
    - destruct (snd (waitForStatus w fuel (owner ctx) (repo ctx) (id d)
                       (MAX_TIMEOUT inp) (ALLOW_INACTIVE inp)
                       (CHECK_INTERVAL_IN_MS inp))) as [st|e|]; cbn [fst snd].
      + destruct (snd (run_with_status w fuel inp st)); cbn [fst snd];
          rewrite <- ?app_assoc; eexists; reflexivity.
      + rewrite <- ?app_assoc; eexists; reflexivity.
      + eexists; reflexivity.
    - eexists; reflexivity.
    - rewrite <- ?app_assoc. eexists; reflexivity.
    - exists []. now rewrite app_nil_r. }
  split.
  - intros n pr Hpr Hget Hstatus Hsha.
    assert (Hres : resolve_sha w ctx =
              ([PullsGet (owner ctx) (repo ctx) (S n)],
               Returned (Some (head_sha pr)))).
    { rewrite resolve_sha_spec, Hpr. cbv zeta. now rewrite Hget, Hstatus. }
    split; trivial. apply (Hrun _ _ Hres Hsha).
  - intros Hpr Hsha.
    assert (Hres : resolve_sha w ctx = ([], Returned (Some (sha ctx)))).
    { rewrite resolve_sha_spec, Hpr.
      destruct (Boolean (sha ctx)) eqn:Hb; trivial.
      now apply Boolean_empty in Hb. }
    split; trivial. apply (Hrun _ _ Hres Hsha).
Qed.

Lemma commit_comes_from_pull_request_witness :
  resolve_sha PullRequest.world PullRequest.context =
    ([PullsGet "octo" "site" 7], Returned (Some "def456"%string)) /\
  resolve_sha PullRequest.world Scenario.context =
    ([], Returned (Some "abc123"%string)).
Proof.
  destruct (commit_comes_from_pull_request PullRequest.world 3 Scenario.inputs
              PullRequest.context eq_refl) as (Hpull & _).
  destruct (commit_comes_from_pull_request PullRequest.world 3 Scenario.inputs
              Scenario.context eq_refl) as (_ & Hpush).
  split.
  - apply (Hpull 6 {| status := 200; head_sha := "def456" |} eq_refl eq_refl
             eq_refl). discriminate.
  - apply Hpush; [reflexivity|discriminate].
Defined.

(** ** The token *)

(** X5. The [token] input.  With an empty input the run reports "Input
    required and not supplied: token", the error [core.getInput] throws for
    a required input, and does nothing else.  [core.getInput] tests the
    input as given and returns it trimmed: an input of white space only
    passes its test and comes back empty, so the test of line 232 holds and
    the run reports "Required field `token` was not provided"; the guard
    does not return, [github.getOctokit] throws for the empty token, and
    the run reports "Parameter token or opts.auth is required" and ends.
    Without a token left after trimming, a run makes no request and sets no
    output; with one, it goes on to determine the commit. *)
Theorem missing_token_fails_at_once (w : World) (fuel : nat) (inp : Inputs)
    (ctx : Context) :
  (token inp = ""%string ->
   run w fuel inp ctx =
   ([SetFailed "Input required and not supplied: token"], Returned tt)) /\
  (token inp <> ""%string -> trim (token inp) = ""%string ->
   run w fuel inp ctx =
   ([SetFailed "Required field `token` was not provided";
     SetFailed "Parameter token or opts.auth is required"], Returned tt)) /\
  (trim (token inp) = ""%string ->
   calls (fst (run w fuel inp ctx)) = [] /\
   outputs (fst (run w fuel inp ctx)) = [] /\
   snd (run w fuel inp ctx) = Returned tt) /\
  (trim (token inp) <> ""%string ->
   exists rest, fst (run w fuel inp ctx) = fst (resolve_sha w ctx) ++ rest).
Proof.
  split; [|split; [|split]].
  - intros Htok. rewrite run_spec. unfold GITHUB_TOKEN, getInput.
    now rewrite Htok.
  - intros Hraw Hblank.
    rewrite run_spec. unfold GITHUB_TOKEN, getInput. rewrite Hblank.
    destruct (Boolean (token inp)) eqn:Hb; [reflexivity|].
    now apply Boolean_empty in Hb.
  - intros Hblank. rewrite run_spec. unfold GITHUB_TOKEN, getInput.
    rewrite Hblank. now destruct (Boolean (token inp)).
  - intros Htok. rewrite run_spec. unfold GITHUB_TOKEN, getInput.
    destruct (Boolean (trim (token inp))) eqn:Hb;
      [|now apply Boolean_empty in Hb].
    cbv zeta. destruct (snd (resolve_sha w ctx)) as [commit|e|].
    + destruct (falsy commit); [eexists; reflexivity|].
      destruct (snd (run_with_sha w fuel inp ctx (trim (token inp))
                       (js_string commit))) as [[]|e|];
        cbn [fst]; eexists; reflexivity.
    + eexists; reflexivity.
    + exists []. now rewrite app_nil_r.
Qed.

Lemma missing_token_fails_at_once_witness :
  run Scenario.world 31
    {| token := ""; environment := "preview"; actor_name := "bot-x";
       max_timeout := of_Z 60%Z; allow_inactive := ""; path := "/";
       check_interval := of_Z 2%Z |} Scenario.context =
  ([SetFailed "Input required and not supplied: token"], Returned tt) /\
  run Scenario.world 31
    {| token := "  "; environment := "preview"; actor_name := "bot-x";
       max_timeout := of_Z 60%Z; allow_inactive := ""; path := "/";
       check_interval := of_Z 2%Z |} Scenario.context =
  ([SetFailed "Required field `token` was not provided";
    SetFailed "Parameter token or opts.auth is required"], Returned tt).
Proof.
  split.
  - apply (proj1 (missing_token_fails_at_once Scenario.world 31
                    {| token := ""; environment := "preview";
                       actor_name := "bot-x"; max_timeout := of_Z 60%Z;
                       allow_inactive := ""; path := "/";
                       check_interval := of_Z 2%Z |} Scenario.context)).
    reflexivity.
  - apply (proj1 (proj2 (missing_token_fails_at_once Scenario.world 31
                    {| token := "  "; environment := "preview";
                       actor_name := "bot-x"; max_timeout := of_Z 60%Z;
                       allow_inactive := ""; path := "/";
                       check_interval := of_Z 2%Z |} Scenario.context)));
      [discriminate|reflexivity].
Defined.

(** ** A run within a finite budget *)

Section RunBounded.

Variables (w : World) (fuel : nat) (inp : Inputs) (ctx : Context) (n : nat).
Hypothesis finite_budget :
  budget (calculateIterations (MAX_TIMEOUT inp) (CHECK_INTERVAL_IN_MS inp)) =
  Some n.
Hypothesis enough_fuel : n < fuel.

Local Abbreviation interval := (CHECK_INTERVAL_IN_MS inp).

Lemma run_with_status_bounded st :
  let rest := run_with_status w fuel inp st in
  snd rest <> Running /\
  exists k, waits (fst rest) = repeat interval k /\ k <= n.
Proof.
  cbv zeta. rewrite run_with_status_spec.
  destruct st as [s|]; [|split; [discriminate|now exists 0; split; [|lia]]].
  cbv zeta. destruct (URL_host w (js_string (environment_url s))) as [host|];
    [|split; [discriminate|now exists 0; split; [|lia]]].
  destruct (falsy (environment_url s));
    [split; [discriminate|now exists 0; split; [|lia]]|].
  destruct (waitForUrl_sleeps w (MAX_TIMEOUT inp) interval n fuel finite_budget
              enough_fuel (js_string (environment_url s)) (PATH inp))
    as (Hret & k & Hw & Hk).
  cbn [fst snd]. rewrite Hret. split; [discriminate|].
  exists k. rewrite waits_app, Hw. split; [reflexivity|].
  destruct Hk as [[-> _]|[Hk _]]; lia.
Qed.

Lemma run_with_sha_bounded tok commit :
  let rest := run_with_sha w fuel inp ctx tok commit in
  snd rest <> Running /\
  exists k, waits (fst rest) = repeat interval k /\ k <= 3 * n - 2.
Proof.
  cbv zeta. rewrite run_with_sha_spec. cbv zeta.
  destruct (waitForDeploymentToStart_sleeps w (MAX_TIMEOUT inp) interval n fuel
              finite_budget enough_fuel (owner ctx) (repo ctx) commit
              (ENVIRONMENT inp) (ACTOR_NAME inp))
    as (k1 & Hw1 & [(-> & Hnone & _)|(Hk1 & d & Hsome)]).
  - rewrite Hnone. split; [discriminate|]. exists n. cbn [fst].
    rewrite waits_app, Hw1, app_nil_r. split; [reflexivity|lia].
  - rewrite Hsome.
    destruct (waitForStatus_sleeps w (MAX_TIMEOUT inp) interval n fuel
                finite_budget enough_fuel (owner ctx) (repo ctx) (id d)
                (ALLOW_INACTIVE inp))
      as (k2 & Hw2 & [(-> & Hnone & _)|(Hk2 & s & Hs)]).
    + rewrite Hnone. rewrite run_with_status_spec. cbn [fst snd].
      split; [discriminate|]. exists (k1 + n).
      rewrite !waits_app, Hw1, Hw2, app_nil_r, <- repeat_app.
      split; [reflexivity|lia].
    + rewrite Hs.
      destruct (run_with_status_bounded (Some s)) as (Hrun & k3 & Hw3 & Hk3).
      cbn [fst snd]. split; trivial. exists (k1 + (k2 + k3)).
      rewrite !waits_app, Hw1, Hw2, Hw3, <- !repeat_app.
      split; [reflexivity|lia].
Qed.

Lemma resolve_sha_no_waits : waits (fst (resolve_sha w ctx)) = [].
Proof.
  rewrite resolve_sha_spec.
  destruct (pull_request ctx) as [[[|m]|]|]; trivial. cbv zeta.
  destruct (pulls_get w (owner ctx) (repo ctx) (S m)) as [pr|e]; trivial.
  now destruct (status pr =? 200)%nat.
Qed.

Lemma run_bounded :
  snd (run w fuel inp ctx) = Returned tt /\
  exists k, waits (fst (run w fuel inp ctx)) = repeat interval k /\
            k <= 3 * n - 2.
Proof.
  rewrite run_spec. destruct (Boolean (GITHUB_TOKEN inp));
    [|destruct (Boolean (token inp)); split; trivial; exists 0;
      (split; [reflexivity|lia])].
  cbv zeta. pose proof resolve_sha_no_waits as Hw0.
  destruct (resolve_sha_trace w ctx) as (_ & _ & Hrun0 & _).
  destruct (snd (resolve_sha w ctx)) as [commit|e|]; [| |now destruct Hrun0].
  - destruct (falsy commit).
    + cbn [fst snd]. split; trivial. exists 0.
      rewrite waits_app, Hw0. split; [reflexivity|lia].
    + destruct (run_with_sha_bounded (GITHUB_TOKEN inp) (js_string commit))
        as (Hrun & k & Hw & Hk).
      destruct (snd (run_with_sha w fuel inp ctx (GITHUB_TOKEN inp) (js_string commit)))
        as [[]|e|]; [| |now destruct Hrun]; cbn [fst snd]; split; trivial;
        exists k; rewrite !waits_app, Hw0, Hw, ?app_nil_r; now split.
  - cbn [fst snd]. split; trivial. exists 0.
    rewrite waits_app, Hw0. split; [reflexivity|lia].
Qed.

End RunBounded.



(** X8. The timeout bounds each stage by itself, not the run.  With an
    iteration budget of [n] a run sleeps at most [3 * n - 2] times, each
    time for the check interval: the discovery and the status poller can
    each fail [n - 1] times before they succeed, and the reachability
    poller [n] times.  The bound is reached, with 4 sleeps for a budget
    of 2. *)
Theorem run_sleeps_at_most (w : World) (fuel : nat) (inp : Inputs)
    (ctx : Context) (n : nat) :
  budget (calculateIterations (MAX_TIMEOUT inp) (CHECK_INTERVAL_IN_MS inp)) =
  Some n ->
  n < fuel ->
  (exists k,
     waits (fst (run w fuel inp ctx)) = repeat (CHECK_INTERVAL_IN_MS inp) k /\
     k <= 3 * n - 2) /\
  budget (calculateIterations (MAX_TIMEOUT Failing.inputs)
            (CHECK_INTERVAL_IN_MS Failing.inputs)) = Some 2 /\
  waits (fst (run slowest 3 Failing.inputs Scenario.context)) =
    repeat (CHECK_INTERVAL_IN_MS Failing.inputs) 4.
Proof.
  intros Hn Hfuel. split; [|split; reflexivity].
  apply (run_bounded w fuel inp ctx n Hn Hfuel).
Qed.

Lemma run_sleeps_at_most_witness :
  exists k,
    waits (fst (run Failing.unreachable 3 Failing.inputs Scenario.context)) =
      repeat (of_Z 2000%Z) k /\ k <= 4.
Proof.
  exact (proj1 (run_sleeps_at_most Failing.unreachable 3 Failing.inputs
                  Scenario.context 2 eq_refl ltac:(lia))).
Defined.

(** ** What a poller returns, and what it asks for *)

(** A loop that returned a value did so at an iteration that returned it. *)
Lemma for_loop_returned {R} (iterations : integral)
    (body : nat -> Eff (option R)) fuel v :
  (forall j, exists r, snd (body j) = Returned r) ->
  snd (for_loop fuel iterations body 0) = Returned (Some v) ->
  exists k,
    snd (body k) = Returned (Some v) /\
    fst (for_loop fuel iterations body 0) = retries body 0 k ++ fst (body k).
Proof.
  intros Htotal Hv.
  destruct (for_loop_shape iterations body Htotal fuel 0)
    as (k & _ & [[Hloop _]|[(v' & Hloop & Hk & _)|[Hloop _]]]);
    rewrite Hloop in Hv |- *; cbn [fst snd] in *; try discriminate.
  exists k. inversion Hv. subst v'. now split.
Qed.

Lemma is_log_no_stage ev : is_log ev -> stage ev = None.
Proof. now destruct ev. Qed.

Section PollerResults.

Variable w : World.

Lemma waitForDeploymentToStart_result fuel owner repo sha environment actorName
    maxTimeout interval d :
  snd (waitForDeploymentToStart w fuel owner repo sha environment actorName
         maxTimeout interval) = Returned (Some d) ->
  created_by actorName d = true /\
  exists i data,
    listDeployments w owner repo sha environment i = Resolved data /\
    In d data.
Proof.
  unfold waitForDeploymentToStart. intros Hd.
  apply for_loop_returned in Hd as (k & Hk & _).
  2:{ intros j. destruct (waitForDeploymentToStart_attempt_total w owner repo
                            sha environment actorName
                            match interval with Some x => x | None => of_Z 2000%Z end
                            (calculateIterations
                               match maxTimeout with Some x => x | None => of_Z 20%Z end
                               match interval with Some x => x | None => of_Z 2000%Z end)
                            j) as (r & Hr & _). now exists r. }
  rewrite waitForDeploymentToStart_attempt_spec in Hk.
  destruct (listDeployments w owner repo sha environment k) as [data|e] eqn:Hreply;
    [|discriminate].
  destruct (find_deployment_cases actorName data)
    as [(pre & d' & post & Hdata & Hd' & _ & Hfind)
       |[[_ Hfind]|(pre & x & post & _ & _ & _ & Hfind)]];
    rewrite Hfind in Hk; cbn [snd] in Hk; try discriminate.
  inversion Hk. subst d'. split; trivial.
  exists k, data. split; trivial. rewrite Hdata. apply in_elt.
Qed.

Lemma waitForStatus_result fuel owner repo deployment_id maxTimeout
    allowInactive interval s :
  snd (waitForStatus w fuel owner repo deployment_id maxTimeout allowInactive
         interval) = Returned (Some s) ->
  accepted allowInactive s = true /\
  exists i older,
    listDeploymentStatuses w owner repo deployment_id i = Resolved (s :: older).
Proof.
  unfold waitForStatus. rewrite bind_spec.
  destruct (snd (for_loop fuel (calculateIterations maxTimeout interval)
                   (waitForStatus_attempt w owner repo deployment_id
                      allowInactive interval
                      (calculateIterations maxTimeout interval)) 0))
    as [[s'|]|e|] eqn:Hloop; cbn [ret setFailed emit bind fst snd];
    try discriminate.
  intros Hs. inversion Hs. subst s'.
  apply for_loop_returned in Hloop as (k & Hk & _).
  2:{ intros j. destruct (waitForStatus_attempt_total w owner repo deployment_id
                            allowInactive interval
                            (calculateIterations maxTimeout interval) j)
        as (r & Hr & _). now exists r. }
  rewrite waitForStatus_attempt_spec in Hk.
  destruct (listDeploymentStatuses w owner repo deployment_id k)
    as [[|s' older]|e] eqn:Hreply; try discriminate.
  destruct (accepted allowInactive s') eqn:Hacc; [|discriminate].
  inversion Hk. subst s'. split; trivial. now exists k, older.
Qed.

Lemma waitForUrl_result fuel url maxTimeout interval path :
  let result := waitForUrl w fuel url maxTimeout interval path in
  snd result = Returned tt ->
  failures (fst result) = [] ->
  exists href i t',
    URL_href w path url = Some href /\
    axios_get w href i = Resolved tt /\
    fst result =
      t' ++ [AxiosGet href; ConsoleLog (Text "Received success status code")].
Proof.
  cbv zeta. unfold waitForUrl. rewrite bind_spec.
  destruct (snd (for_loop fuel (calculateIterations maxTimeout interval)
                   (waitForUrl_attempt w url path interval
                      (calculateIterations maxTimeout interval)) 0))
    as [[[]|]|e|] eqn:Hloop; cbn [ret setFailed emit fst snd];
    try discriminate.
  - intros _ _. rewrite app_nil_r.
    apply for_loop_returned in Hloop as (k & Hk & ->).
    2:{ intros j. destruct (waitForUrl_attempt_total w url path interval
                              (calculateIterations maxTimeout interval) j)
          as (r & Hr & _). now exists r. }
    rewrite waitForUrl_attempt_spec in Hk |- *.
    destruct (URL_href w path url) as [href|]; [|discriminate].
    destruct (axios_get w href k) as [[]|e] eqn:Hget; [|discriminate].
    exists href, k. eexists. repeat split; trivial.
  - intros _ Hf. rewrite failures_app in Hf.
    now apply app_eq_nil in Hf as [_ Hf].
Qed.

(** The requests of each poller are its own, with the parameters it was
    called with. *)
Lemma waitForDeploymentToStart_requests fuel owner repo sha environment
    actorName maxTimeout interval :
  Forall (fun ev => forall k, stage ev = Some k ->
                    ev = ListDeployments owner repo sha environment)
    (fst (waitForDeploymentToStart w fuel owner repo sha environment actorName
            maxTimeout interval)).
Proof.
  unfold waitForDeploymentToStart. apply for_loop_Forall. intros j.
  rewrite waitForDeploymentToStart_attempt_spec.
  destruct (listDeployments w owner repo sha environment j) as [data|e];
    [find_cases actorName data|];
    repeat constructor; intros k Hk; trivial; discriminate.
Qed.

Lemma waitForStatus_requests fuel owner repo deployment_id maxTimeout
    allowInactive interval :
  Forall (fun ev => forall k, stage ev = Some k ->
                    ev = ListDeploymentStatuses owner repo deployment_id)
    (fst (waitForStatus w fuel owner repo deployment_id maxTimeout allowInactive
            interval)).
Proof.
  unfold waitForStatus. rewrite bind_spec.
  assert (Hloop : Forall (fun ev => forall k, stage ev = Some k ->
                            ev = ListDeploymentStatuses owner repo deployment_id)
                    (fst (for_loop fuel (calculateIterations maxTimeout interval)
                            (waitForStatus_attempt w owner repo deployment_id
                               allowInactive interval
                               (calculateIterations maxTimeout interval)) 0))).
  { apply for_loop_Forall. intros j. rewrite waitForStatus_attempt_spec.
    destruct (listDeploymentStatuses w owner repo deployment_id j)
      as [[|s older]|e].
    - repeat constructor; intros k Hk; trivial; discriminate.
    - destruct (accepted allowInactive s);
        repeat constructor; intros k Hk; trivial; discriminate.
    - constructor; [trivial|]. apply Forall_app. split.
      + destruct (waitForStatus_logs_logged
                    (calculateIterations maxTimeout interval) j e) as [_ Hl].
        eapply Forall_impl; [|exact Hl]. intros ev Hev k Hk.
        now rewrite (is_log_no_stage ev Hev) in Hk.
      + repeat constructor; intros k Hk; discriminate. }
  destruct (snd (for_loop _ _ _ _)) as [[s|]|e|];
    cbn [ret setFailed emit bind fst snd app]; trivial.
  - now rewrite app_nil_r.
  - apply Forall_app. split; trivial.
    repeat constructor; intros k Hk; discriminate.
Qed.

Lemma waitForUrl_requests fuel url maxTimeout interval path :
  Forall (fun ev => forall k, stage ev = Some k ->
                    exists href,
                      URL_href w path url = Some href /\ ev = AxiosGet href)
    (fst (waitForUrl w fuel url maxTimeout interval path)).
Proof.
  unfold waitForUrl. rewrite bind_spec.
  assert (Hloop : Forall (fun ev => forall k, stage ev = Some k ->
                            exists href,
                              URL_href w path url = Some href /\
                              ev = AxiosGet href)
                    (fst (for_loop fuel (calculateIterations maxTimeout interval)
                            (waitForUrl_attempt w url path interval
                               (calculateIterations maxTimeout interval)) 0))).
  { apply for_loop_Forall. intros j. rewrite waitForUrl_attempt_spec.
    destruct (URL_href w path url) as [href|].
    - destruct (axios_get w href j) as [[]|e].
      + repeat constructor; intros k Hk; try discriminate. now exists href.
      + constructor; [intros k Hk; now exists href|].
        apply Forall_app. split.
        * destruct (waitForUrl_logs_logged
                      (calculateIterations maxTimeout interval) j e) as [_ Hl].
          eapply Forall_impl; [|exact Hl]. intros ev Hev k Hk.
          now rewrite (is_log_no_stage ev Hev) in Hk.
        * repeat constructor; intros k Hk; discriminate.
    - repeat constructor; intros k Hk; discriminate. }
  destruct (snd (for_loop _ _ _ _)) as [[s|]|e|];
    cbn [ret setFailed emit bind fst snd app]; trivial.
  - now rewrite app_nil_r.
  - apply Forall_app. split; trivial.
    repeat constructor; intros k Hk; discriminate.
Qed.

End PollerResults.

(** ** A run that reports no failure *)

Lemma failures_snoc_nonempty (t : trace) msg : failures (t ++ [SetFailed msg]) <> [].
Proof.
  rewrite failures_app. intros H. now apply app_eq_nil in H as [_ H].
Qed.

(** A branch of a run that did not return, or that reported a failure
    last. *)
Ltac dead_run :=
  let Hret := fresh in
  let Hfail := fresh in
  cbn [fst snd]; intros Hret Hfail;
  first [ discriminate Hret
        | exfalso; rewrite ?app_assoc in Hfail;
          first [ now apply failures_snoc_nonempty in Hfail
                | discriminate Hfail ] ].

(** X2. A run that returns and has reported no failure has done all of
    this: it determined a commit; discovery returned a deployment created
    by the expected actor; the status poller returned a status of that
    deployment that is successful (or inactive, when inactive ones are
    allowed) and names a non-empty address; the address parsed; the
    outputs [url] and [host] were set, in this order, to the address and
    its host, and no other output; and the last thing the run did was a GET
    of the path on that address that was answered with success. *)
Theorem run_success_contract (w : World) (fuel : nat) (inp : Inputs)
    (ctx : Context) :
  snd (run w fuel inp ctx) = Returned tt ->
  failures (fst (run w fuel inp ctx)) = [] ->
  exists commit d s url host href t',
    snd (resolve_sha w ctx) = Returned (Some commit) /\
    snd (run_discover w fuel inp ctx commit) = Returned (Some d) /\
    created_by (ACTOR_NAME inp) d = true /\
    snd (run_poll w fuel inp ctx d) = Returned (Some s) /\
    accepted (ALLOW_INACTIVE inp) s = true /\
    environment_url s = Some url /\ url <> ""%string /\
    URL_host w url = Some host /\
    URL_href w (PATH inp) url = Some href /\
    outputs (fst (run w fuel inp ctx)) =
      [("url", url); ("host", host)]%string /\
    fst (run w fuel inp ctx) =
      t' ++ [AxiosGet href; ConsoleLog (Text "Received success status code")].
Proof.
  rewrite run_spec.
  destruct (Boolean (GITHUB_TOKEN inp));
    [|destruct (Boolean (token inp)); dead_run].
  cbv zeta. destruct (resolve_sha_trace w ctx) as (_ & Ho0 & _ & _).
  destruct (snd (resolve_sha w ctx)) as [[commit|]|e|]; try dead_run.
  destruct (falsy (Some commit)) eqn:Hcommit; [dead_run|].
  cbn [js_string]. rewrite run_with_sha_spec. cbv zeta.
  fold (run_discover w fuel inp ctx commit).
  destruct (waitForDeploymentToStart_trace w fuel (owner ctx) (repo ctx) commit
              (ENVIRONMENT inp) (ACTOR_NAME inp) (Some (MAX_TIMEOUT inp))
              (Some (CHECK_INTERVAL_IN_MS inp))) as [H1 _].
  assert (Ho1 : outputs (fst (run_discover w fuel inp ctx commit)) = []).
  { apply (quiet_silent (fst (run_discover w fuel inp ctx commit))).
    eapply Forall_impl; [|exact H1]. now intros ev []. }
  clear H1.
  destruct (snd (run_discover w fuel inp ctx commit)) as [[d|]|e|] eqn:Hd;
    try dead_run.
  apply waitForDeploymentToStart_result in Hd as Hactor.
  destruct Hactor as [Hactor _].
  fold (run_poll w fuel inp ctx d).
  destruct (waitForStatus_trace w fuel (owner ctx) (repo ctx) (id d)
              (MAX_TIMEOUT inp) (ALLOW_INACTIVE inp) (CHECK_INTERVAL_IN_MS inp))
    as (_ & Ho2 & _ & _).
  fold (run_poll w fuel inp ctx d) in Ho2.
  destruct (snd (run_poll w fuel inp ctx d)) as [[s|]|e|] eqn:Hs;
    rewrite ?run_with_status_spec; try dead_run.
  apply waitForStatus_result in Hs as Hacc. destruct Hacc as [Hacc _].
  cbv zeta.
  destruct (environment_url s) as [url|] eqn:Hurl; cbn [js_string falsy].
  2:{ destruct (URL_host w "undefined"); dead_run. }
  destruct (URL_host w url) as [host|] eqn:Hhost; [|dead_run].
  destruct (Boolean url) eqn:Hne; cbn [negb]; [|dead_run].
  destruct (waitForUrl_trace w fuel url (MAX_TIMEOUT inp)
              (CHECK_INTERVAL_IN_MS inp) (PATH inp)) as (Ho3 & _ & _).
  pose proof (waitForUrl_result w fuel url (MAX_TIMEOUT inp)
                (CHECK_INTERVAL_IN_MS inp) (PATH inp)) as Hreach.
  cbv zeta in Hreach.
  destruct (snd (waitForUrl w fuel url (MAX_TIMEOUT inp)
                   (CHECK_INTERVAL_IN_MS inp) (PATH inp))) as [[]|e|];
    try dead_run.
  cbn [fst snd]. intros _ Hf.
  destruct Hreach as (href & i & t' & Hhref & _ & Hlast); trivial.
  { rewrite !failures_app in Hf.
    repeat (apply app_eq_nil in Hf as [_ Hf]). exact Hf. }
  exists commit, d, s, url, host, href.
  exists (fst (resolve_sha w ctx) ++ fst (run_discover w fuel inp ctx commit) ++
          fst (run_poll w fuel inp ctx d) ++
          [ConsoleLog (TargetUrl url); ConsoleLog (TargetHost host);
           SetOutput "url" url; SetOutput "host" host;
           ConsoleLog (WaitingFor url)] ++ t').
  repeat split; trivial.
  - intros ->. discriminate.
  - rewrite !outputs_app, Ho0, Ho1, Ho2, Ho3. reflexivity.
  - rewrite Hlast, <- !app_assoc. reflexivity.
Qed.

Lemma run_success_contract_witness :
  exists commit d s url host href t',
    snd (resolve_sha Scenario.world Scenario.context) = Returned (Some commit) /\
    snd (run_discover Scenario.world 31 Scenario.inputs Scenario.context commit) =
      Returned (Some d) /\
    created_by (ACTOR_NAME Scenario.inputs) d = true /\
    snd (run_poll Scenario.world 31 Scenario.inputs Scenario.context d) =
      Returned (Some s) /\
    accepted (ALLOW_INACTIVE Scenario.inputs) s = true /\
    environment_url s = Some url /\ url <> ""%string /\
    URL_host Scenario.world url = Some host /\
    URL_href Scenario.world (PATH Scenario.inputs) url = Some href /\
    outputs (fst (run Scenario.world 31 Scenario.inputs Scenario.context)) =
      [("url", url); ("host", host)]%string /\
    fst (run Scenario.world 31 Scenario.inputs Scenario.context) =
      t' ++ [AxiosGet href; ConsoleLog (Text "Received success status code")].
Proof.
  apply (run_success_contract Scenario.world 31 Scenario.inputs Scenario.context);
    reflexivity.
Defined.

(** ** The requests of a run *)

(** Events that are no requests. *)
Ltac silent_events :=
  repeat first
    [ apply Forall_nil
    | apply Forall_cons;
      [ let k := fresh in let H := fresh in intros k H; discriminate H | ] ].

Lemma Forall_requests_snoc (P : event -> nat -> Prop) (t : trace) msg :
  Forall (fun ev => forall k, stage ev = Some k -> P ev k) t ->
  Forall (fun ev => forall k, stage ev = Some k -> P ev k) (t ++ [SetFailed msg]).
Proof.
  intros Ht. apply Forall_app. split; trivial. silent_events.
Qed.

Lemma resolve_sha_requests (w : World) (ctx : Context) :
  Forall (fun ev => forall k, stage ev = Some k ->
            k = 0 /\
            exists n, pull_request ctx = Some (Some n) /\
                      ev = PullsGet (owner ctx) (repo ctx) n)
    (fst (resolve_sha w ctx)).
Proof.
  rewrite resolve_sha_spec.
  destruct (pull_request ctx) as [[[|n]|]|]; cbn [fst];
    try solve [silent_events].
  cbv zeta.
  assert (Hreq : forall k, stage (PullsGet (owner ctx) (repo ctx) (S n)) = Some k ->
            k = 0 /\
            exists m, Some (Some (S n)) = Some (Some m) /\
                      PullsGet (owner ctx) (repo ctx) (S n) =
                      PullsGet (owner ctx) (repo ctx) m).
  { intros k Hk. inversion Hk. split; trivial. now exists (S n). }
  destruct (pulls_get w (owner ctx) (repo ctx) (S n)) as [pr|e];
    [destruct (status pr =? 200)%nat|]; cbn [fst];
    (apply Forall_cons; [exact Hreq|silent_events]).
Qed.

Section RunRequests.

Variables (w : World) (fuel : nat) (inp : Inputs) (ctx : Context).

Local Abbreviation lookup_request := (fun (ev : event) (k : nat) =>
  k = 0 /\
  exists n, pull_request ctx = Some (Some n) /\
            ev = PullsGet (owner ctx) (repo ctx) n).

Local Abbreviation discovery_request := (fun (ev : event) (k : nat) =>
  k = 1 /\
  exists commit,
    snd (resolve_sha w ctx) = Returned (Some commit) /\
    ev = ListDeployments (owner ctx) (repo ctx) commit (ENVIRONMENT inp)).

Local Abbreviation status_request := (fun (ev : event) (k : nat) =>
  k = 2 /\
  exists commit d,
    snd (run_discover w fuel inp ctx commit) = Returned (Some d) /\
    created_by (ACTOR_NAME inp) d = true /\
    ev = ListDeploymentStatuses (owner ctx) (repo ctx) (id d)).

Local Abbreviation reachability_request := (fun (ev : event) (k : nat) =>
  k = 3 /\
  exists d s url href,
    snd (run_poll w fuel inp ctx d) = Returned (Some s) /\
    accepted (ALLOW_INACTIVE inp) s = true /\
    environment_url s = Some url /\
    URL_href w (PATH inp) url = Some href /\
    ev = AxiosGet href).

Lemma run_with_status_requests d st :
  snd (run_poll w fuel inp ctx d) = Returned st ->
  Forall (fun ev => forall k, stage ev = Some k -> reachability_request ev k)
    (fst (run_with_status w fuel inp st)).
Proof.
  intros Hpoll. rewrite run_with_status_spec.
  destruct st as [s|]; [|constructor]. cbv zeta.
  destruct (environment_url s) as [url|] eqn:Hurl; cbn [js_string falsy].
  2:{ destruct (URL_host w "undefined"); cbn [fst]; silent_events. }
  destruct (URL_host w url) as [host|]; [|constructor].
  destruct (negb (Boolean url)); cbn [fst]; [silent_events|].
  apply waitForStatus_result in Hpoll as Hacc. destruct Hacc as [Hacc _].
  silent_events.
  eapply Forall_impl;
    [|apply (waitForUrl_requests w fuel url (MAX_TIMEOUT inp)
               (CHECK_INTERVAL_IN_MS inp) (PATH inp))].
  intros ev Hev k Hk. destruct (Hev k Hk) as (href & Hhref & ->).
  inversion Hk. split; trivial. now exists d, s, url, href.
Qed.

Lemma run_with_sha_requests tok commit :
  snd (resolve_sha w ctx) = Returned (Some commit) ->
  exists t1 t2 t3,
    fst (run_with_sha w fuel inp ctx tok commit) = t1 ++ t2 ++ t3 /\
    Forall (fun ev => forall k, stage ev = Some k -> discovery_request ev k) t1 /\
    Forall (fun ev => forall k, stage ev = Some k -> status_request ev k) t2 /\
    Forall (fun ev => forall k, stage ev = Some k -> reachability_request ev k) t3.
Proof.
  intros Hres. rewrite run_with_sha_spec. cbv zeta.
  fold (run_discover w fuel inp ctx commit).
  assert (H1 : Forall (fun ev => forall k, stage ev = Some k ->
                         discovery_request ev k)
                 (fst (run_discover w fuel inp ctx commit))).
  { eapply Forall_impl;
      [|apply (waitForDeploymentToStart_requests w fuel (owner ctx) (repo ctx)
                 commit (ENVIRONMENT inp) (ACTOR_NAME inp)
                 (Some (MAX_TIMEOUT inp)) (Some (CHECK_INTERVAL_IN_MS inp)))].
    intros ev Hev k Hk. rewrite (Hev k Hk) in Hk |- *. inversion Hk.
    split; trivial. now exists commit. }
  destruct (snd (run_discover w fuel inp ctx commit)) as [[d|]|e|] eqn:Hd.
  2:{ exists (fst (run_discover w fuel inp ctx commit) ++
              [SetFailed "no deployment found, exiting..."]), [], [].
      cbn [fst]. rewrite !app_nil_r. repeat split; try constructor.
      now apply (Forall_requests_snoc discovery_request). }
  2:{ exists (fst (run_discover w fuel inp ctx commit)), [], [].
      cbn [fst]. rewrite !app_nil_r. repeat split; trivial; constructor. }
  2:{ exists (fst (run_discover w fuel inp ctx commit)), [], [].
      cbn [fst]. rewrite !app_nil_r. repeat split; trivial; constructor. }
  fold (run_poll w fuel inp ctx d).
  assert (H2 : Forall (fun ev => forall k, stage ev = Some k ->
                         status_request ev k)
                 (fst (run_poll w fuel inp ctx d))).
  { apply waitForDeploymentToStart_result in Hd as Hactor.
    destruct Hactor as [Hactor _].
    eapply Forall_impl;
      [|apply (waitForStatus_requests w fuel (owner ctx) (repo ctx) (id d)
                 (MAX_TIMEOUT inp) (ALLOW_INACTIVE inp)
                 (CHECK_INTERVAL_IN_MS inp))].
    intros ev Hev k Hk. rewrite (Hev k Hk) in Hk |- *. inversion Hk.
    split; trivial. now exists commit, d. }
  exists (fst (run_discover w fuel inp ctx commit)),
         (fst (run_poll w fuel inp ctx d)).
  destruct (snd (run_poll w fuel inp ctx d)) as [st|e|] eqn:Hs.
  - exists (fst (run_with_status w fuel inp st)). cbn [fst].
    repeat split; trivial. now apply (run_with_status_requests d).
  - exists []. cbn [fst]. rewrite app_nil_r. repeat split; trivial; constructor.
  - exists []. cbn [fst]. rewrite app_nil_r. repeat split; trivial; constructor.
Qed.

Lemma run_requests :
  exists t0 t1 t2 t3,
    fst (run w fuel inp ctx) = t0 ++ t1 ++ t2 ++ t3 /\
    Forall (fun ev => forall k, stage ev = Some k -> lookup_request ev k) t0 /\
    Forall (fun ev => forall k, stage ev = Some k -> discovery_request ev k) t1 /\
    Forall (fun ev => forall k, stage ev = Some k -> status_request ev k) t2 /\
    Forall (fun ev => forall k, stage ev = Some k -> reachability_request ev k) t3.
Proof.
  rewrite run_spec. destruct (Boolean (GITHUB_TOKEN inp)).
  2:{ destruct (Boolean (token inp)); eexists _, [], [], []; cbn [fst];
        rewrite !app_nil_r; (split; [reflexivity|]); repeat split;
        silent_events. }
  cbv zeta. pose proof (resolve_sha_requests w ctx) as H0.
  assert (Hearly : forall msg c,
            exists t0 t1 t2 t3,
              fst (fst (resolve_sha w ctx) ++ [SetFailed msg], c : completion unit) =
                t0 ++ t1 ++ t2 ++ t3 /\
              Forall (fun ev => forall k, stage ev = Some k ->
                                lookup_request ev k) t0 /\
              Forall (fun ev => forall k, stage ev = Some k ->
                                discovery_request ev k) t1 /\
              Forall (fun ev => forall k, stage ev = Some k ->
                                status_request ev k) t2 /\
              Forall (fun ev => forall k, stage ev = Some k ->
                                reachability_request ev k) t3).
  { intros msg c. exists (fst (resolve_sha w ctx) ++ [SetFailed msg]), [], [], [].
    cbn [fst]. rewrite !app_nil_r. repeat split; try constructor.
    now apply (Forall_requests_snoc lookup_request). }
  destruct (snd (resolve_sha w ctx)) as [[commit|]|e|] eqn:Hres;
    try apply Hearly.
  2:{ exists (fst (resolve_sha w ctx)), [], [], []. cbn [fst].
      rewrite !app_nil_r. repeat split; trivial; constructor. }
  destruct (falsy (Some commit)); [apply Hearly|]. cbn [js_string].
  destruct (run_with_sha_requests (GITHUB_TOKEN inp) commit Hres)
    as (t1 & t2 & t3 & Hrest & H1 & H2 & H3).
  rewrite Hres in H1.
  exists (fst (resolve_sha w ctx)), t1, t2.
  destruct (snd (run_with_sha w fuel inp ctx (GITHUB_TOKEN inp) commit)) as [[]|e|];
    cbn [fst]; rewrite Hrest.
  - exists t3. now repeat split.
  - exists (t3 ++ [SetFailed (message e)]). rewrite <- !app_assoc.
    repeat split; trivial.
    now apply (Forall_requests_snoc reachability_request).
  - exists t3. now repeat split.
Qed.

End RunRequests.

Lemma stages_app t1 t2 : stages (t1 ++ t2) = stages t1 ++ stages t2.
Proof. apply flat_map_app. Qed.

Lemma stages_of_one_stage (P : event -> Prop) (j : nat) (t : trace) :
  Forall (fun ev => forall k, stage ev = Some k -> k = j /\ P ev) t ->
  exists a, stages t = repeat j a.
Proof.
  induction 1 as [|ev t Hev _ [a IH]]; [now exists 0|].
  change (stages (ev :: t)) with
    (match stage ev with Some k => [k] | None => [] end ++ stages t).
  destruct (stage ev) as [k|] eqn:Hk.
  - destruct (Hev k eq_refl) as [-> _]. exists (S a). now rewrite IH.
  - now exists a.
Qed.

(** X3. The trace of a run is made of four parts, in this order: the pull
    request lookup, discovery, the status poller, and what follows a status.
    The only requests of each part are those of its stage, and their
    parameters are fixed by the context, the inputs and the result of the
    stage before: the lookup is for the number of the payload; deployments
    are listed for the commit that was determined and for the [environment]
    input; statuses are listed for the [id] of a deployment that discovery
    returned, created by the expected actor; and the GET goes to the [path]
    input on the address of a status that the status poller returned.  So
    the stages of a run's requests never go back. *)
Theorem run_requests_in_stage_order (w : World) (fuel : nat) (inp : Inputs)
    (ctx : Context) :
  (exists t0 t1 t2 t3,
     fst (run w fuel inp ctx) = t0 ++ t1 ++ t2 ++ t3 /\
     Forall (fun ev => forall k, stage ev = Some k ->
               k = 0 /\
               exists n, pull_request ctx = Some (Some n) /\
                         ev = PullsGet (owner ctx) (repo ctx) n) t0 /\
     Forall (fun ev => forall k, stage ev = Some k ->
               k = 1 /\
               exists commit,
                 snd (resolve_sha w ctx) = Returned (Some commit) /\
                 ev = ListDeployments (owner ctx) (repo ctx) commit
                        (ENVIRONMENT inp)) t1 /\
     Forall (fun ev => forall k, stage ev = Some k ->
               k = 2 /\
               exists commit d,
                 snd (run_discover w fuel inp ctx commit) = Returned (Some d) /\
                 created_by (ACTOR_NAME inp) d = true /\
                 ev = ListDeploymentStatuses (owner ctx) (repo ctx) (id d)) t2 /\
     Forall (fun ev => forall k, stage ev = Some k ->
               k = 3 /\
               exists d s url href,
                 snd (run_poll w fuel inp ctx d) = Returned (Some s) /\
                 accepted (ALLOW_INACTIVE inp) s = true /\
                 environment_url s = Some url /\
                 URL_href w (PATH inp) url = Some href /\
                 ev = AxiosGet href) t3) /\
  exists a b c d,
    stages (fst (run w fuel inp ctx)) =
    repeat 0 a ++ repeat 1 b ++ repeat 2 c ++ repeat 3 d.
Proof.
  destruct (run_requests w fuel inp ctx)
    as (t0 & t1 & t2 & t3 & Hrun & H0 & H1 & H2 & H3).
  split; [now exists t0, t1, t2, t3|].
  apply stages_of_one_stage in H0 as [a Ha].
  apply stages_of_one_stage in H1 as [b Hb].
  apply stages_of_one_stage in H2 as [c Hc].
  apply stages_of_one_stage in H3 as [d Hd].
  exists a, b, c, d. now rewrite Hrun, !stages_app, Ha, Hb, Hc, Hd.
Qed.

(** ** A timeout below zero *)

(** Rounding keeps the sign it is given. *)
Lemma binary_round_aux_sign s m e l :
  match binary_round_aux prec emax s m e l with
  | S754_zero s' | S754_infinity s' | S754_finite s' _ _ => s' = s
  | S754_nan => True
  end.
Proof.
  unfold binary_round_aux.
  destruct (shr_fexp prec emax m e l) as [mrs' e'].
  destruct (shr_fexp prec emax _ e' loc_Exact) as [mrs'' e''].
  destruct (shr_m mrs'') as [|p|p]; trivial.
  now destruct (e'' <=? emax - prec)%Z.
Qed.

(** The floor of a number that is not above zero leaves no iteration. *)
Lemma budget_floor_nonpositive x :
  match x with
  | S754_finite false _ _ | S754_infinity false => False
  | _ => True
  end ->
  budget (floor x) = Some 0.
Proof.
  destruct x as [s|[|]| |[|] m e]; try contradiction; intros _; trivial.
  assert (Hnat : forall z, (z <= 0)%Z -> Some (Z.to_nat z) = Some 0).
  { intros z Hz. f_equal. destruct z; trivial. lia. }
  cbn [floor cond_Zopp]. destruct e as [|p|p]; cbn [budget]; apply Hnat.
  - lia.
  - assert (0 < 2 ^ Zpos p)%Z by (apply Z.pow_pos_nonneg; lia). nia.
  - apply Z.div_le_upper_bound; [apply Z.pow_pos_nonneg|]; lia.
Qed.

Lemma div_by_1000_nonnegative x :
  nonnegative x = true -> nonnegative (div x (of_Z 1000%Z)) = true.
Proof.
  intros Hx. destruct x as [[|]|[|]| |[|] m e]; try discriminate; trivial.
  now apply NumFacts.div_positive.
Qed.

Lemma negative_timeout_budget maxTimeout interval :
  ltb maxTimeout (of_Z 0%Z) = true ->
  nonnegative interval = true ->
  budget (calculateIterations maxTimeout interval) = Some 0.
Proof.
  intros Hneg Hint. apply div_by_1000_nonnegative in Hint.
  unfold calculateIterations. apply budget_floor_nonpositive.
  destruct (div interval (of_Z 1000%Z)) as [[|]|[|]| |[|] my ey];
    try discriminate;
    destruct maxTimeout as [sx|[|]| |[|] mx ex]; try discriminate;
    try exact I.
  unfold div, SFdiv.
  destruct (SFdiv_core_binary prec emax (Zpos mx) ex (Zpos my) ey) as [[q e] l].
  pose proof (binary_round_aux_sign (xorb true false) q e l) as Hs.
  destruct (binary_round_aux prec emax (xorb true false) q e l)
    as [s|s| |s m' e']; trivial; now subst s.
Qed.

(** The interval a run polls at is not negative unless the
    [check_interval] input is. *)
Lemma CHECK_INTERVAL_IN_MS_nonnegative inp :
  ltb (check_interval inp) (of_Z 0%Z) = false ->
  nonnegative (CHECK_INTERVAL_IN_MS inp) = true.
Proof.
  unfold CHECK_INTERVAL_IN_MS, number_or.
  destruct (check_interval inp) as [s|[|]| |[|] m e]; try discriminate;
    intros _; trivial; cbn [truthy].
  change (of_Z 1000%Z) with (S754_finite false 8796093022208000 (-43)).
  unfold mul, SFmul.
  apply NumFacts.binary_round_aux_nonnegative. lia.
Qed.

(** X10. A maximum below zero and the intervals that are not below zero.
    When the interval is positive, +0, +Infinity or NaN, that is, not below
    zero and not -0, no iteration is left: the quotient is negative, a
    negative zero, minus infinity or NaN, and the loop test fails at once.
    When the interval is -0 the count is +Infinity, and the loop is not
    bounded.  The interval of a run is never -0 or NaN, [||] replacing such
    a [check_interval] input by 2: a run with a token, a negative
    [max_timeout] input and a [check_interval] input that is not below zero
    makes no request for deployments and reports "no deployment found,
    exiting..." as soon as it has determined the commit. *)
Theorem negative_timeout_no_attempt :
  (forall maxTimeout interval,
     ltb maxTimeout (of_Z 0%Z) = true ->
     ltb interval (of_Z 0%Z) = false ->
     interval <> S754_zero true ->
     budget (calculateIterations maxTimeout interval) = Some 0) /\
  (forall maxTimeout,
     ltb maxTimeout (of_Z 0%Z) = true ->
     calculateIterations maxTimeout (S754_zero true) = Infty false /\
     budget (calculateIterations maxTimeout (S754_zero true)) = None) /\
  (forall (w : World) (fuel : nat) (inp : Inputs) (ctx : Context) t0 commit,
     ltb (max_timeout inp) (of_Z 0%Z) = true ->
     ltb (check_interval inp) (of_Z 0%Z) = false ->
     0 < fuel ->
     GITHUB_TOKEN inp <> ""%string ->
     resolve_sha w ctx = (t0, Returned (Some commit)) ->
     commit <> ""%string ->
     run w fuel inp ctx =
     (t0 ++ [SetFailed "no deployment found, exiting..."], Returned tt)).
Proof.
  split; [|split].
  - intros maxTimeout interval Hneg Hint Hzero.
    destruct interval as [[|]|[|]| |[|] m e]; try discriminate;
      try congruence; try (now apply negative_timeout_budget).
    now destruct maxTimeout as [sx|[|]| |[|] mx ex].
  - intros maxTimeout Hneg.
    now destruct maxTimeout as [sx|[|]| |[|] mx ex].
  - intros w fuel inp ctx t0 commit Hmax Hint Hfuel Htok Hres Hcommit.
    assert (Hbudget : budget (calculateIterations (MAX_TIMEOUT inp)
                                (CHECK_INTERVAL_IN_MS inp)) = Some 0).
    { apply negative_timeout_budget.
      - unfold MAX_TIMEOUT, number_or.
        now destruct (max_timeout inp) as [s|[|]| |[|] m e].
      - now apply CHECK_INTERVAL_IN_MS_nonnegative. }
    rewrite run_spec.
    destruct (Boolean (GITHUB_TOKEN inp)) eqn:Hb;
      [|now apply Boolean_empty in Hb].
    rewrite Hres. cbn [fst snd falsy js_string]. cbv zeta.
    destruct (Boolean commit) eqn:Hc; [|now apply Boolean_empty in Hc].
    cbn [negb]. rewrite run_with_sha_spec. cbv zeta.
    rewrite (waitForDeploymentToStart_times_out w (owner ctx) (repo ctx) commit
               (ENVIRONMENT inp) (ACTOR_NAME inp) (MAX_TIMEOUT inp)
               (CHECK_INTERVAL_IN_MS inp) 0 fuel Hbudget); trivial.
    intros j Hj. lia.
Qed.

Lemma negative_timeout_no_attempt_witness :
  budget (calculateIterations (of_Z (-5)%Z) (of_Z 2000%Z)) = Some 0 /\
  budget (calculateIterations (of_Z (-5)%Z) S754_nan) = Some 0 /\
  calculateIterations (of_Z (-5)%Z) (S754_zero true) = Infty false /\
  run Scenario.world 31
    {| token := "t0ken"; environment := "preview"; actor_name := "bot-x";
       max_timeout := of_Z (-5)%Z; allow_inactive := ""; path := "/";
       check_interval := of_Z 2%Z |} Scenario.context =
  ([SetFailed "no deployment found, exiting..."], Returned tt).
Proof.
  destruct negative_timeout_no_attempt as (Hbudget & Hzero & Hrun).
  split; [|split; [|split]].
  - apply Hbudget; [reflexivity|reflexivity|discriminate].
  - apply Hbudget; [reflexivity|reflexivity|discriminate].
  - apply Hzero. reflexivity.
  - apply (Hrun Scenario.world 31 _ Scenario.context [] "abc123"%string);
      try reflexivity; try discriminate. lia.
Defined.

(** ** The inputs a run works with *)

(** A number of magnitude 2^-1074 or more does not round to zero. *)
Lemma binary_round_aux_truthy s q e l :
  (0 < q)%Z ->
  (e <= fexp prec emax (Zdigits2 q + e))%Z ->
  (-1074 <= e + Zdigits2 q - 1)%Z ->
  truthy (binary_round_aux prec emax s q e l) = true.
Proof.
  intros Hq He Hmag. unfold binary_round_aux.
  assert (Hq0 : (0 <= q)%Z) by lia.
  destruct (Rounding.shr_fexp_spec q e l Hq0) as [Hm0 He1].
  destruct (Rounding.shr_fexp_canonical q e l Hq0 He) as (_ & _ & Hcanon).
  pose proof (Rounding.Zdigits2_bounds q Hq) as [Hlow _].
  set (n1 := Z.max 0 (fexp prec emax (Zdigits2 q + e) - e)) in *.
  assert (Hn1 : (0 <= n1 <= Zdigits2 q - 1)%Z).
  { unfold n1. rewrite Rounding.fexp_eq.
    pose proof (Rounding.Zdigits2_ge_1 q Hq). lia. }
  assert (Hm0pos : (1 <= q / 2 ^ n1)%Z).
  { apply Z.div_le_lower_bound; [apply Z.pow_pos_nonneg; lia|].
    rewrite Z.mul_1_r.
    apply Z.le_trans with (2 ^ (Zdigits2 q - 1))%Z; trivial.
    apply Z.pow_le_mono_r; lia. }
  destruct (shr_fexp prec emax q e l) as [mrs' e1]. cbn [fst snd] in *.
  pose proof (Rounding.round_nearest_even_le (shr_m mrs') (loc_of_shr_record mrs'))
    as Hr.
  set (m1 := round_nearest_even (shr_m mrs') (loc_of_shr_record mrs')) in *.
  specialize (Hcanon ltac:(lia)).
  assert (Hm1 : (0 <= m1)%Z) by lia.
  destruct (Rounding.shr_fexp_spec m1 e1 loc_Exact Hm1) as [Hm2 _].
  pose proof (Rounding.Zdigits2_bounds m1 ltac:(lia)) as [Hlow1 Hup1].
  assert (Hd : (Zdigits2 m1 <= Zdigits2 (shr_m mrs') + 1)%Z).
  { apply Rounding.Zdigits2_le; [|pose proof (Rounding.Zdigits2_nonneg (shr_m mrs')); lia].
    pose proof (Rounding.Zdigits2_bounds (shr_m mrs') ltac:(lia)) as [_ Hup0].
    rewrite Z.pow_add_r by (pose proof (Rounding.Zdigits2_nonneg (shr_m mrs')); lia).
    lia. }
  set (n2 := Z.max 0 (fexp prec emax (Zdigits2 m1 + e1) - e1)) in *.
  assert (Hn2 : (0 <= n2 <= Zdigits2 m1 - 1)%Z).
  { unfold n2. rewrite Rounding.fexp_eq in *.
    pose proof (Rounding.Zdigits2_ge_1 m1 ltac:(lia)). lia. }
  assert (Hm2pos : (1 <= m1 / 2 ^ n2)%Z).
  { apply Z.div_le_lower_bound; [apply Z.pow_pos_nonneg; lia|].
    rewrite Z.mul_1_r.
    apply Z.le_trans with (2 ^ (Zdigits2 m1 - 1))%Z; trivial.
    apply Z.pow_le_mono_r; lia. }
  destruct (shr_fexp prec emax m1 e1 loc_Exact) as [mrs'' e2].
  cbn [fst snd] in *. rewrite Hm2.
  destruct (m1 / 2 ^ n2)%Z as [|p|p]; try lia.
  now destruct (e2 <=? emax - prec)%Z.
Qed.

(** A number that is not zero times 1000 is not zero. *)
Lemma mul_1000_truthy c :
  valid_binary prec emax c = true ->
  truthy c = true ->
  truthy (mul c (of_Z 1000%Z)) = true.
Proof.
  intros Hvalid Hc. destruct c as [s|s| |s m e]; try discriminate; trivial.
  change (of_Z 1000%Z) with (S754_finite false 8796093022208000 (-43)).
  unfold mul, SFmul. cbn [valid_binary] in Hvalid. unfold bounded in Hvalid.
  apply andb_true_iff in Hvalid as [Hcanon _].
  apply Rounding.canonical_mantissa_digits in Hcanon as (_ & He & _).
  pose proof (Rounding.digits2_pos_bounds m) as [Hlow _].
  assert (Hd1 : (1 <= Zpos (digits2_pos m))%Z) by lia.
  assert (Hprod : (2 ^ (Zpos (digits2_pos m) + 51) <=
                   Zpos (m * 8796093022208000))%Z).
  { replace (Zpos (digits2_pos m) + 51)%Z with (Zpos (digits2_pos m) - 1 + 52)%Z
      by lia.
    rewrite Z.pow_add_r, Pos2Z.inj_mul by lia.
    apply Z.mul_le_mono_nonneg; try lia. }
  assert (Hdq : (Zpos (digits2_pos m) + 52 <=
                 Zdigits2 (Zpos (m * 8796093022208000)))%Z).
  { pose proof (Rounding.Zdigits2_bounds (Zpos (m * 8796093022208000))
                  ltac:(lia)) as [_ Hup].
    destruct (Z_lt_le_dec (Zdigits2 (Zpos (m * 8796093022208000)))
                (Zpos (digits2_pos m) + 52)) as [Hlt|]; trivial.
    assert (2 ^ Zdigits2 (Zpos (m * 8796093022208000)) <=
            2 ^ (Zpos (digits2_pos m) + 51))%Z
      by (apply Z.pow_le_mono_r; lia).
    lia. }
  apply binary_round_aux_truthy; [lia| |lia].
  rewrite Rounding.fexp_eq. lia.
Qed.

(** X11. The numbers a run works with are never zero and never NaN.  A
    [max_timeout] input that is 0 or not a number is replaced by 60 seconds,
    any other is kept as it is, a negative one too; a [check_interval] that
    is 0 or not a number is replaced by 2 seconds, 2000 milliseconds; the
    interval in milliseconds of every other [check_interval] is not zero
    either; an empty [path] is replaced by "/".  With both numbers
    replaced, every poller has 30 iterations. *)
Theorem input_defaults (inp : Inputs) :
  truthy (MAX_TIMEOUT inp) = true /\
  (truthy (max_timeout inp) = false -> MAX_TIMEOUT inp = of_Z 60%Z) /\
  (truthy (max_timeout inp) = true -> MAX_TIMEOUT inp = max_timeout inp) /\
  (truthy (check_interval inp) = false ->
   CHECK_INTERVAL_IN_MS inp = of_Z 2000%Z) /\
  (valid_binary prec emax (check_interval inp) = true ->
   truthy (CHECK_INTERVAL_IN_MS inp) = true) /\
  PATH inp <> ""%string /\
  (path inp = ""%string -> PATH inp = "/"%string) /\
  (truthy (max_timeout inp) = false -> truthy (check_interval inp) = false ->
   calculateIterations (MAX_TIMEOUT inp) (CHECK_INTERVAL_IN_MS inp) = Int 30%Z).
Proof.
  unfold MAX_TIMEOUT, CHECK_INTERVAL_IN_MS, PATH, number_or, string_or.
  repeat split.
  - now destruct (truthy (max_timeout inp)) eqn:H.
  - now intros ->.
  - now intros ->.
  - now intros ->.
  - intros Hvalid. destruct (truthy (check_interval inp)) eqn:H; [|reflexivity].
    now apply mul_1000_truthy.
  - destruct (getInput (path inp)); discriminate.
  - now intros ->.
  - now intros -> ->.
Qed.

Lemma input_defaults_witness :
  MAX_TIMEOUT Failing.inputs = of_Z 4%Z /\
  CHECK_INTERVAL_IN_MS Failing.inputs = of_Z 2000%Z /\
  PATH Failing.inputs = "/"%string /\
  truthy (CHECK_INTERVAL_IN_MS Scenario.inputs) = true.
Proof.
  destruct (input_defaults Failing.inputs)
    as (_ & _ & Hmax & Hinterval & _ & _ & Hpath & _).
  destruct (input_defaults Scenario.inputs) as (_ & _ & _ & _ & Htruthy & _).
  split; [|split; [|split]].
  - apply Hmax. reflexivity.
  - apply Hinterval. reflexivity.
  - apply Hpath. reflexivity.
  - apply Htruthy. reflexivity.
Defined.

(** ** A timeout of the status poller *)

(** X15. When the status poller times out it reports its timeout and
    returns [undefined]; the run goes on to read [environment_url] of that
    result, which throws, and the run reports that error too.  So a status
    timeout is reported twice: the run returns with the two failures
    "Timeout reached: Unable to wait for an deployment to be successful" and
    "Cannot read properties of undefined (reading 'environment_url')", in
    this order, with no output set, and nothing is done after the status
    poller. *)
Theorem status_timeout_reports_twice (w : World) (fuel : nat) (inp : Inputs)
    (ctx : Context) (n : nat) (t0 : trace) (commit : string) (d : deployment) :
  let iterations :=
    calculateIterations (MAX_TIMEOUT inp) (CHECK_INTERVAL_IN_MS inp) in
  budget iterations = Some n ->
  n < fuel ->
  GITHUB_TOKEN inp <> ""%string ->
  resolve_sha w ctx = (t0, Returned (Some commit)) ->
  commit <> ""%string ->
  snd (run_discover w fuel inp ctx commit) = Returned (Some d) ->
  (forall j, j < n ->
     snd (waitForStatus_attempt w (owner ctx) (repo ctx) (id d)
            (ALLOW_INACTIVE inp) (CHECK_INTERVAL_IN_MS inp) iterations j) =
     Returned None) ->
  run w fuel inp ctx =
    (t0 ++ fst (run_discover w fuel inp ctx commit) ++
     fst (run_poll w fuel inp ctx d) ++
     [SetFailed "Cannot read properties of undefined (reading 'environment_url')"],
     Returned tt) /\
  failures (fst (run w fuel inp ctx)) =
    ["Timeout reached: Unable to wait for an deployment to be successful";
     "Cannot read properties of undefined (reading 'environment_url')"]%string /\
  outputs (fst (run w fuel inp ctx)) = [].
Proof.
  intros iterations Hn Hfuel Htok Hres Hcommit Hd Hnone.
  assert (Hpoll : run_poll w fuel inp ctx d =
            (retries (waitForStatus_attempt w (owner ctx) (repo ctx) (id d)
                        (ALLOW_INACTIVE inp) (CHECK_INTERVAL_IN_MS inp)
                        iterations) 0 n ++
             [SetFailed
                "Timeout reached: Unable to wait for an deployment to be successful"],
             Returned None)).
  { now apply waitForStatus_times_out. }
  assert (Hrun : run w fuel inp ctx =
            (t0 ++ fst (run_discover w fuel inp ctx commit) ++
             fst (run_poll w fuel inp ctx d) ++
             [SetFailed
                "Cannot read properties of undefined (reading 'environment_url')"],
             Returned tt)).
  { rewrite run_spec.
    destruct (Boolean (GITHUB_TOKEN inp)) eqn:Hb;
      [|now apply Boolean_empty in Hb].
    rewrite Hres. cbn [fst snd falsy js_string]. cbv zeta.
    destruct (Boolean commit) eqn:Hc; [|now apply Boolean_empty in Hc].
    cbn [negb]. rewrite run_with_sha_spec. cbv zeta.
    fold (run_discover w fuel inp ctx commit). rewrite Hd.
    fold (run_poll w fuel inp ctx d). rewrite Hpoll. cbn [fst snd].
    rewrite run_with_status_spec. cbn [fst snd message].
    now rewrite !app_nil_r, <- !app_assoc. }
  split; trivial. rewrite Hrun. cbn [fst].
  destruct (resolve_sha_trace w ctx) as (_ & Ho0 & _ & Hf0).
  rewrite Hres in Ho0, Hf0. cbn [fst snd] in Ho0, Hf0.
  destruct (waitForDeploymentToStart_trace w fuel (owner ctx) (repo ctx) commit
              (ENVIRONMENT inp) (ACTOR_NAME inp) (Some (MAX_TIMEOUT inp))
              (Some (CHECK_INTERVAL_IN_MS inp))) as [H1 _].
  assert (Hq : Forall quiet (fst (run_discover w fuel inp ctx commit))).
  { eapply Forall_impl; [|exact H1]. now intros ev []. }
  apply quiet_silent in Hq as [Hf1 Ho1].
  destruct (waitForStatus_retries_silent w (owner ctx) (repo ctx) (id d)
              (MAX_TIMEOUT inp) (ALLOW_INACTIVE inp) (CHECK_INTERVAL_IN_MS inp)
              0 n) as [Hf2 Ho2].
  fold iterations in Hf2, Ho2.
  rewrite Hpoll. cbn [fst].
  rewrite !failures_app, !outputs_app, (Hf0 commit eq_refl), Ho0, Hf1, Ho1,
    Hf2, Ho2.
  now split.
Qed.

Lemma status_timeout_reports_twice_witness :
  failures (fst (run never_successful 3 Failing.inputs Scenario.context)) =
  ["Timeout reached: Unable to wait for an deployment to be successful";
   "Cannot read properties of undefined (reading 'environment_url')"]%string.
Proof.
  refine (proj1 (proj2 (status_timeout_reports_twice never_successful 3
                          Failing.inputs Scenario.context 2 [] "abc123"
                          Scenario.bot_deployment eq_refl _ _ eq_refl _ eq_refl
                          _))).
  - lia.
  - discriminate.
  - discriminate.
  - intros j Hj. reflexivity.
Defined.

(** ** The number of requests *)

Lemma calls_length_retries {R} (body : nat -> Eff (option R)) :
  (forall j, List.length (calls (fst (body j))) <= 1) ->
  forall n i, List.length (calls (retries body i n)) <= n.
Proof.
  intros Hone. induction n as [|n IH]; intros i; trivial.
  rewrite retries_S, calls_app, length_app.
  specialize (Hone i). specialize (IH (S i)). lia.
Qed.

Lemma for_loop_calls {R} (iterations : integral) (body : nat -> Eff (option R))
    n fuel :
  (forall j, exists r, snd (body j) = Returned r) ->
  (forall j, List.length (calls (fst (body j))) <= 1) ->
  budget iterations = Some n ->
  n < fuel ->
  List.length (calls (fst (for_loop fuel iterations body 0))) <= n.
Proof.
  intros Htotal Hone Hn Hfuel.
  destruct (for_loop_ends iterations body Htotal n fuel Hn Hfuel)
    as (k & _ & [[_ Hloop]|(Hk & v & Hloop & _)]); rewrite Hloop; cbn [fst].
  - now apply calls_length_retries.
  - rewrite calls_app, length_app.
    pose proof (calls_length_retries body Hone k 0). specialize (Hone k). lia.
Qed.

Lemma logs_no_calls (l : trace) : Forall is_log l -> calls l = [].
Proof.
  induction 1 as [|ev l Hev _ IH]; trivial.
  destruct ev; try contradiction; exact IH.
Qed.

Section AttemptCalls.

Variable w : World.

Lemma waitForUrl_attempt_calls url path interval iterations i :
  List.length
    (calls (fst (waitForUrl_attempt w url path interval iterations i))) <= 1.
Proof.
  rewrite waitForUrl_attempt_spec.
  destruct (URL_href w path url) as [href|]; [|cbn; lia].
  destruct (axios_get w href i) as [[]|e]; [cbn; lia|]. cbn [fst].
  change (AxiosGet href :: ?l) with ([AxiosGet href] ++ l).
  rewrite !calls_app, !length_app.
  rewrite (logs_no_calls _ (proj2 (waitForUrl_logs_logged iterations i e))).
  cbn. lia.
Qed.

Lemma waitForStatus_attempt_calls owner repo deployment_id allowInactive
    interval iterations i :
  List.length
    (calls (fst (waitForStatus_attempt w owner repo deployment_id allowInactive
                   interval iterations i))) <= 1.
Proof.
  rewrite waitForStatus_attempt_spec.
  destruct (listDeploymentStatuses w owner repo deployment_id i)
    as [[|s older]|e]; [cbn; lia|destruct (accepted allowInactive s); cbn; lia|].
  cbn [fst].
  change (?x :: ?l ++ ?r) with ([x] ++ l ++ r).
  rewrite !calls_app, !length_app.
  rewrite (logs_no_calls _ (proj2 (waitForStatus_logs_logged iterations i e))).
  cbn. lia.
Qed.

End AttemptCalls.

Section RunCalls.

Variables (w : World) (fuel : nat) (inp : Inputs) (ctx : Context) (n : nat).
Hypothesis finite_budget :
  budget (calculateIterations (MAX_TIMEOUT inp) (CHECK_INTERVAL_IN_MS inp)) =
  Some n.
Hypothesis enough_fuel : n < fuel.

Local Abbreviation iterations :=
  (calculateIterations (MAX_TIMEOUT inp) (CHECK_INTERVAL_IN_MS inp)).

Lemma waitForUrl_calls url path :
  List.length
    (calls (fst (waitForUrl w fuel url (MAX_TIMEOUT inp)
                   (CHECK_INTERVAL_IN_MS inp) path))) <= n.
Proof.
  unfold waitForUrl. rewrite bind_spec.
  assert (Hloop : List.length
                    (calls (fst (for_loop fuel iterations
                                   (waitForUrl_attempt w url path
                                      (CHECK_INTERVAL_IN_MS inp) iterations) 0)))
                  <= n).
  { apply for_loop_calls; trivial.
    - intros j. destruct (waitForUrl_attempt_total w url path
                            (CHECK_INTERVAL_IN_MS inp) iterations j)
        as (r & Hr & _). now exists r.
    - intros j. apply waitForUrl_attempt_calls. }
  destruct (snd (for_loop _ _ _ _)) as [[[]|]|e|];
    cbn [ret setFailed emit fst snd]; rewrite ?calls_app, ?length_app, ?app_nil_r;
    cbn [calls filter is_call List.length]; lia.
Qed.

Lemma waitForStatus_calls owner repo deployment_id allowInactive :
  List.length
    (calls (fst (waitForStatus w fuel owner repo deployment_id (MAX_TIMEOUT inp)
                   allowInactive (CHECK_INTERVAL_IN_MS inp)))) <= n.
Proof.
  unfold waitForStatus. rewrite bind_spec.
  assert (Hloop : List.length
                    (calls (fst (for_loop fuel iterations
                                   (waitForStatus_attempt w owner repo
                                      deployment_id allowInactive
                                      (CHECK_INTERVAL_IN_MS inp) iterations) 0)))
                  <= n).
  { apply for_loop_calls; trivial.
    - intros j. destruct (waitForStatus_attempt_total w owner repo deployment_id
                            allowInactive (CHECK_INTERVAL_IN_MS inp) iterations j)
        as (r & Hr & _). now exists r.
    - intros j. apply waitForStatus_attempt_calls. }
  destruct (snd (for_loop _ _ _ _)) as [[s|]|e|];
    cbn [ret setFailed emit bind fst snd app];
    rewrite ?calls_app, ?length_app, ?app_nil_r;
    cbn [calls filter is_call List.length]; lia.
Qed.

Lemma waitForDeploymentToStart_calls owner repo commit environment actorName :
  List.length
    (calls (fst (waitForDeploymentToStart w fuel owner repo commit environment
                   actorName (Some (MAX_TIMEOUT inp))
                   (Some (CHECK_INTERVAL_IN_MS inp))))) <= n.
Proof.
  unfold waitForDeploymentToStart. apply for_loop_calls; trivial.
  - intros j. destruct (waitForDeploymentToStart_attempt_total w owner repo
                          commit environment actorName (CHECK_INTERVAL_IN_MS inp)
                          iterations j) as (r & Hr & _). now exists r.
  - intros j. rewrite waitForDeploymentToStart_attempt_calls. lia.
Qed.

Lemma resolve_sha_calls :
  List.length (calls (fst (resolve_sha w ctx))) <= 1 /\
  (pull_request ctx = None -> calls (fst (resolve_sha w ctx)) = []).
Proof.
  rewrite resolve_sha_spec.
  destruct (pull_request ctx) as [[[|m]|]|]; cbn; try (split; [lia|trivial]);
    try discriminate.
  destruct (pulls_get w (owner ctx) (repo ctx) (S m)) as [pr|e];
    [destruct (status pr =? 200)%nat|]; cbn; split; try lia; discriminate.
Qed.

Lemma run_with_status_calls st :
  List.length (calls (fst (run_with_status w fuel inp st))) <= n.
Proof.
  rewrite run_with_status_spec. destruct st as [s|]; [|cbn; lia]. cbv zeta.
  destruct (URL_host w (js_string (environment_url s))) as [host|]; [|cbn; lia].
  destruct (falsy (environment_url s)); [cbn; lia|]. cbn [fst].
  rewrite calls_app, length_app.
  pose proof (waitForUrl_calls (js_string (environment_url s)) (PATH inp)).
  cbn [calls filter is_call List.length]. lia.
Qed.

Lemma run_with_sha_calls tok commit :
  List.length (calls (fst (run_with_sha w fuel inp ctx tok commit))) <= 3 * n.
Proof.
  rewrite run_with_sha_spec. cbv zeta.
  pose proof (waitForDeploymentToStart_calls (owner ctx) (repo ctx) commit
                (ENVIRONMENT inp) (ACTOR_NAME inp)) as H1.
  destruct (snd (waitForDeploymentToStart w fuel (owner ctx) (repo ctx) commit
                   (ENVIRONMENT inp) (ACTOR_NAME inp) (Some (MAX_TIMEOUT inp))
                   (Some (CHECK_INTERVAL_IN_MS inp)))) as [[d|]|e|];
    cbn [fst]; rewrite ?calls_app, ?length_app;
    cbn [calls filter is_call List.length]; try lia.
  pose proof (waitForStatus_calls (owner ctx) (repo ctx) (id d)
                (ALLOW_INACTIVE inp)) as H2.
  destruct (snd (waitForStatus w fuel (owner ctx) (repo ctx) (id d)
                   (MAX_TIMEOUT inp) (ALLOW_INACTIVE inp)
                   (CHECK_INTERVAL_IN_MS inp))) as [st|e|];
    cbn [fst]; rewrite ?calls_app, ?length_app; try lia.
  pose proof (run_with_status_calls st). lia.
Qed.

Lemma run_calls :
  List.length (calls (fst (run w fuel inp ctx))) <= 3 * n + 1 /\
  (pull_request ctx = None ->
   List.length (calls (fst (run w fuel inp ctx))) <= 3 * n).
Proof.
  rewrite run_spec.
  destruct (Boolean (GITHUB_TOKEN inp));
    [|destruct (Boolean (token inp)); cbn; split; intros; lia].
  cbv zeta. destruct resolve_sha_calls as [H0 Hpush].
  assert (Hpush' : pull_request ctx = None ->
                   List.length (calls (fst (resolve_sha w ctx))) = 0).
  { intros H. now rewrite Hpush. }
  destruct (snd (resolve_sha w ctx)) as [commit|e|];
    [destruct (falsy commit)| |]; cbn [fst];
    rewrite ?calls_app, ?length_app; cbn [calls filter is_call List.length];
    try (split; [|intros Hp; specialize (Hpush' Hp)]; lia).
  pose proof (run_with_sha_calls (GITHUB_TOKEN inp) (js_string commit)) as Hrest.
  destruct (snd (run_with_sha w fuel inp ctx (GITHUB_TOKEN inp) (js_string commit)))
    as [[]|e|]; cbn [fst]; rewrite ?calls_app, ?length_app;
    cbn [calls filter is_call List.length];
    (split; [|intros Hp; specialize (Hpush' Hp)]; lia).
Qed.

End RunCalls.

(** X16. With an iteration budget of [n] a run sends at most [3 * n + 1]
    requests: one lookup of the pull request, and at most [n] by each of
    the three pollers, which send one request an attempt at most.  A run
    without a pull request payload sends at most [3 * n].  The bound is
    reached, with 7 requests for a budget of 2. *)
Theorem run_requests_at_most (w : World) (fuel : nat) (inp : Inputs)
    (ctx : Context) (n : nat) :
  budget (calculateIterations (MAX_TIMEOUT inp) (CHECK_INTERVAL_IN_MS inp)) =
  Some n ->
  n < fuel ->
  List.length (calls (fst (run w fuel inp ctx))) <= 3 * n + 1 /\
  (pull_request ctx = None ->
   List.length (calls (fst (run w fuel inp ctx))) <= 3 * n) /\
  List.length (calls (fst (run slowest 3 Failing.inputs PullRequest.context))) = 7.
Proof.
  intros Hn Hfuel.
  destruct (run_calls w fuel inp ctx n Hn Hfuel) as [Hall Hpush].
  now repeat split.
Qed.

Lemma run_requests_at_most_witness :
  List.length
    (calls (fst (run Failing.unreachable 3 Failing.inputs Scenario.context))) <= 6.
Proof.
  destruct (run_requests_at_most Failing.unreachable 3 Failing.inputs
              Scenario.context 2 eq_refl ltac:(lia)) as (_ & Hpush & _).
  exact (Hpush eq_refl).
Defined.

(** ** Zero and NaN in the budget *)

(** X17. The calculator divides without a check.  An interval of 0 makes
    the count of a positive finite maximum [Infinity], a loop without an
    end; an interval of -0 makes it minus infinity, no iteration.  A
    maximum of 0 or -0 leaves no iteration whatever the interval, and so
    does NaN for either number. *)
Theorem budget_edge_cases :
  (forall maxTimeout,
     positive_finite maxTimeout = true ->
     calculateIterations maxTimeout (S754_zero false) = Infty false /\
     budget (calculateIterations maxTimeout (S754_zero false)) = None /\
     calculateIterations maxTimeout (S754_zero true) = Infty true /\
     budget (calculateIterations maxTimeout (S754_zero true)) = Some 0) /\
  (forall s interval,
     budget (calculateIterations (S754_zero s) interval) = Some 0) /\
  (forall x,
     calculateIterations S754_nan x = NotANumber /\
     calculateIterations x S754_nan = NotANumber /\
     budget NotANumber = Some 0).
Proof.
  split; [|split].
  - intros maxTimeout Hmax.
    destruct maxTimeout as [| | |[|] m e]; try discriminate. now repeat split.
  - intros s interval. unfold calculateIterations.
    now destruct (div interval (of_Z 1000%Z)) as [sy|sy| |sy my ey], s.
  - intros x. unfold calculateIterations.
    split; [reflexivity|split; [now destruct x|reflexivity]].
Qed.

Lemma budget_edge_cases_witness :
  calculateIterations (of_Z 60%Z) (S754_zero false) = Infty false.
Proof.
  destruct budget_edge_cases as (Hzero & _).
  now destruct (Hzero (of_Z 60%Z) eq_refl) as (H & _).
Defined.
